(** * LDPC codes: Tanner-graph construction and belief-propagation decoding

    A shallow embedding of [commpy/channelcoding/ldpc.py] and the
    properties of its two functions, [get_ldpc_code_params] and
    [ldpc_bp_decode].

    Conventions of the embedding.
    - Python integers are [Z]; [np.int32] and the platform [int] (int64)
      arrays are lists of [Z], the narrowing written out where the source
      narrows.
    - [np.float64] values are the IEEE binary64 floats of [PrimFloat];
      [np.tanh] and [np.arctanh], which belong to numpy and not to this
      file, are parameters of the decoder.
    - A Python exception is a value of [exn]; code that may raise returns
      a [result].
    - The interpreter is the one the source is written for (Python 2:
      [xrange]) with the numpy of that time: storing a float into an
      integer array goes through [int(x)], which truncates toward zero
      and raises on NaN and on infinities. *)

From Stdlib Require Import ZArith Floats Ascii String Lia.
From stdpp Require Import base list.

Local Open Scope Z_scope.

(** ** Exceptions and results *)

Inductive exn : Set :=
| ValueError
| IndexError
| OverflowError
| MalformedCodeDescription
| InvalidDecodeInput.

Inductive result (A : Type) : Type :=
| Ok (a : A)
| Raise (e : exn).

Arguments Ok {A} a.
Arguments Raise {A} e.

#[global] Instance result_ret : MRet result := fun A a => Ok a.
#[global] Instance result_bind : MBind result :=
  fun A B f m => match m with Ok a => f a | Raise e => Raise e end.

Definition raises {A} (r : result A) : Prop := exists e, r = Raise e.

(** [for x in xs: s = body(x, s)] with exceptions propagating. *)
Fixpoint for_each {S X : Type} (xs : list X) (body : X -> S -> result S)
    (s : S) : result S :=
  match xs with
  | [] => Ok s
  | x :: xs' => s' ← body x s; for_each xs' body s'
  end.

(** [xrange(n)]: empty when [n <= 0]. *)
Definition xrange (n : Z) : list Z := seqZ 0 n.

(** ** numpy arrays as lists *)

(** An integer index into an axis of length [n]: negative indices count
    from the end, anything outside [-n, n) raises [IndexError]. *)
Definition np_index (n i : Z) : result nat :=
  if (0 <=? i) && (i <? n) then Ok (Z.to_nat i)
  else if (- n <=? i) && (i <? 0) then Ok (Z.to_nat (i + n))
  else Raise IndexError.

Definition np_get {A} (a : list A) (i : Z) : result A :=
  k ← np_index (Z.of_nat (length a)) i;
  match a !! k with
  | Some x => Ok x
  | None => Raise IndexError
  end.

Definition np_set {A} (a : list A) (i : Z) (x : A) : result (list A) :=
  k ← np_index (Z.of_nat (length a)) i;
  Ok (<[k := x]> a).

(** [np.zeros(n)]: a negative dimension is a [ValueError]. *)
Definition np_zeros {A} (zero : A) (n : Z) : result (list A) :=
  if n <? 0 then Raise ValueError else Ok (replicate (Z.to_nat n) zero).

(** A slice bound, clipped the way Python clips it. *)
Definition slice_bound (n i : Z) : Z :=
  if i <? 0 then Z.max (i + n) 0 else Z.min i n.

(** [a[start:stop] = x] for a scalar [x]: never raises. *)
Definition np_fill_slice {A} (a : list A) (start stop : Z) (x : A) : list A :=
  let n := Z.of_nat (length a) in
  let lo := slice_bound n start in
  let hi := slice_bound n stop in
  imap (fun k y => if (lo <=? Z.of_nat k) && (Z.of_nat k <? hi) then x else y) a.

(** ** Floats stored in integer arrays *)

Definition int64_min : Z := - 2 ^ 63.
Definition int64_max : Z := 2 ^ 63 - 1.

Definition fits_int64 (z : Z) : bool := (int64_min <=? z) && (z <=? int64_max).

(** [int(x)] for a float [x], then the store into an int64 slot:
    truncation toward zero; NaN is a [ValueError], an infinity or a value
    outside int64 an [OverflowError]. *)
Definition int_of_float (x : float) : result Z :=
  match Prim2SF x with
  | S754_zero _ => Ok 0
  | S754_nan => Raise ValueError
  | S754_infinity _ => Raise OverflowError
  | S754_finite s m e =>
      let mag := Z.shiftl (Z.pos m) e in
      let z := if s then - mag else mag in
      if fits_int64 z then Ok z else Raise OverflowError
  end.

(** ** The decoder *)

Definition MAX_POS_LLR : float := 38.0%float.
Definition MIN_NEG_LLR : float := (-38.0)%float.

(** [_limit_llr]: both tests are made on the input, the second one wins. *)
Definition _limit_llr (in_llr : float) : float :=
  let out_llr := in_llr in
  let out_llr := if PrimFloat.ltb MAX_POS_LLR in_llr then MAX_POS_LLR else out_llr in
  let out_llr := if PrimFloat.ltb in_llr MIN_NEG_LLR then MIN_NEG_LLR else out_llr in
  out_llr.

Record ldpc_code_params : Type := {
  n_vnodes : Z;
  n_cnodes : Z;
  max_cnode_deg : Z;
  max_vnode_deg : Z;
  cnode_adj_list : list Z;
  cnode_vnode_map : list Z;
  vnode_adj_list : list Z;
  vnode_cnode_map : list Z;
  cnode_deg_list : list Z;
  vnode_deg_list : list Z
}.

(** The arrays a call of the decoder owns. *)
Record bp_state : Type := {
  cnode_msgs : list float;
  vnode_msgs : list float;
  dec_word : list Z;
  out_llrs : list Z
}.

Definition with_cnode_msgs (st : bp_state) (cm : list float) : bp_state :=
  {| cnode_msgs := cm; vnode_msgs := vnode_msgs st;
     dec_word := dec_word st; out_llrs := out_llrs st |}.

(** Initialisation of one variable node's messages (lines 141-143). *)
Definition init_vnode (p : ldpc_code_params) (llr_vec : list float)
    (vnode_idx : Z) (vmsgs : list float) : result (list float) :=
  let start_idx := vnode_idx * max_vnode_deg p in
  offset ← np_get (vnode_deg_list p) vnode_idx;
  llr ← np_get llr_vec vnode_idx;
  Ok (np_fill_slice vmsgs start_idx (start_idx + offset) llr).

(** Initialisation of the variable-node messages (lines 140-143). *)
Definition init_vnode_msgs (p : ldpc_code_params) (llr_vec : list float)
    (vnode_msgs0 : list float) : result (list float) :=
  for_each (xrange (n_vnodes p)) (init_vnode p llr_vec) vnode_msgs0.

(** The message a check node reads on its edge [i] (lines 159-161). *)
Definition cnode_incoming (p : ldpc_code_params) (vmsgs : list float)
    (cnode_idx i : Z) : result float :=
  vnode ← np_get (cnode_adj_list p) (cnode_idx * max_cnode_deg p + i);
  slot ← np_get (cnode_vnode_map p) (cnode_idx * max_cnode_deg p + i);
  np_get vmsgs (vnode * max_vnode_deg p + slot).

(** The message a variable node reads on its edge [i] (lines 177-178). *)
Definition vnode_incoming (p : ldpc_code_params) (cmsgs : list float)
    (vnode_idx i : Z) : result float :=
  cnode ← np_get (vnode_adj_list p) (vnode_idx * max_vnode_deg p + i);
  slot ← np_get (vnode_cnode_map p) (vnode_idx * max_vnode_deg p + i);
  np_get cmsgs (cnode * max_cnode_deg p + slot).

(** Parity of one check node over the current hard decisions
    (lines 195-197). *)
Definition cnode_parity (p : ldpc_code_params) (dw : list Z)
    (cnode_idx : Z) : result Z :=
  deg ← np_get (cnode_deg_list p) cnode_idx;
  for_each (xrange deg)
    (fun i p_sum =>
       v ← np_get (cnode_adj_list p) (cnode_idx * max_cnode_deg p + i);
       b ← np_get dw v;
       Ok (Z.lxor p_sum b))
    0.

(** The scan of lines 194-201: the value of [continue_flag] after it. The
    scan leaves at the first check node of odd parity. *)
Fixpoint parity_scan (p : ldpc_code_params) (dw : list Z)
    (cnodes : list Z) : result Z :=
  match cnodes with
  | [] => Ok 0
  | cnode_idx :: rest =>
      p_sum ← cnode_parity p dw cnode_idx;
      if p_sum =? 0 then parity_scan p dw rest else Ok 1
  end.

Section Decoder.

(** [np.tanh] and [np.arctanh] on float64. *)
Variable np_tanh : float -> float.
Variable np_arctanh : float -> float.

(** The product of lines 157-161. *)
Definition cnode_msg_prod (p : ldpc_code_params) (vmsgs : list float)
    (cnode_idx deg : Z) : result float :=
  for_each (xrange deg)
    (fun i msg_prod =>
       m ← cnode_incoming p vmsgs cnode_idx i;
       Ok (msg_prod * np_tanh (m / 2.0))%float)
    1.0%float.

(** One check node (lines 157-168). *)
Definition cnode_update (p : ldpc_code_params) (vmsgs : list float)
    (cnode_idx : Z) (cmsgs : list float) : result (list float) :=
  deg ← np_get (cnode_deg_list p) cnode_idx;
  msg_prod ← cnode_msg_prod p vmsgs cnode_idx deg;
  for_each (xrange deg)
    (fun i cmsgs =>
       m ← cnode_incoming p vmsgs cnode_idx i;
       let c_msg := (2.0 * np_arctanh (msg_prod / np_tanh (m / 2.0)))%float in
       np_set cmsgs (cnode_idx * max_cnode_deg p + i) c_msg)
    cmsgs.

(** Check-node update of one iteration (lines 151-168). *)
Definition check_node_update (p : ldpc_code_params) (st : bp_state)
    : result bp_state :=
  cm ← for_each (xrange (n_cnodes p)) (cnode_update p (vnode_msgs st))
        (cnode_msgs st);
  Ok (with_cnode_msgs st cm).

(** The sum of lines 174-178. The source starts from the integer [0];
    adding a float64 to it converts it to [0.0] first. *)
Definition vnode_msg_sum (p : ldpc_code_params) (cmsgs : list float)
    (vnode_idx deg : Z) : result float :=
  for_each (xrange deg)
    (fun i msg_sum =>
       m ← vnode_incoming p cmsgs vnode_idx i;
       Ok (msg_sum + m)%float)
    0%float.

(** One variable node (lines 174-191). *)
Definition vnode_update (p : ldpc_code_params) (llr_vec : list float)
    (vnode_idx : Z) (st : bp_state) : result bp_state :=
  deg ← np_get (vnode_deg_list p) vnode_idx;
  msg_sum ← vnode_msg_sum p (cnode_msgs st) vnode_idx deg;
  vm ← for_each (xrange deg)
        (fun i vmsgs =>
           cnode ← np_get (vnode_adj_list p) (vnode_idx * max_vnode_deg p + i);
           llr ← np_get llr_vec vnode_idx;
           slot ← np_get (vnode_cnode_map p) (vnode_idx * max_vnode_deg p + i);
           m ← np_get (cnode_msgs st) (cnode * max_cnode_deg p + slot);
           let v_msg := _limit_llr (llr + msg_sum - m)%float in
           np_set vmsgs (vnode_idx * max_vnode_deg p + i) v_msg)
        (vnode_msgs st);
  llr ← np_get llr_vec vnode_idx;
  z ← int_of_float (llr + msg_sum)%float;
  ol ← np_set (out_llrs st) vnode_idx z;
  o ← np_get ol vnode_idx;
  dw ← np_set (dec_word st) vnode_idx (if 0 <? o then 0 else 1);
  Ok {| cnode_msgs := cnode_msgs st; vnode_msgs := vm;
        dec_word := dw; out_llrs := ol |}.

(** Variable-node update of one iteration (lines 172-191). *)
Definition variable_node_update (p : ldpc_code_params)
    (llr_vec : list float) (st : bp_state) : result bp_state :=
  for_each (xrange (n_vnodes p)) (vnode_update p llr_vec) st.

(** The two update phases of one iteration. *)
Definition bp_update (p : ldpc_code_params) (llr_vec : list float)
    (st : bp_state) : result bp_state :=
  st1 ← check_node_update p st;
  variable_node_update p llr_vec st1.

(** The main loop (lines 146-205). The second component counts the
    iterations that were run; it is not part of the source's state. *)
Fixpoint bp_iterations (p : ldpc_code_params) (llr_vec : list float)
    (budget : nat) (st : bp_state) : result (bp_state * nat) :=
  match budget with
  | O => Ok (st, O)
  | S budget' =>
      st2 ← bp_update p llr_vec st;
      continue_flag ← parity_scan p (dec_word st2) (xrange (n_cnodes p));
      if continue_flag =? 0 then Ok (st2, 1%nat)
      else
        r ← bp_iterations p llr_vec budget' st2;
        Ok (r.1, Datatypes.S r.2)
  end.

(** Allocation and initialisation (lines 133-143). *)
Definition bp_init (p : ldpc_code_params) (llr_vec : list float)
    : result bp_state :=
  dw ← np_zeros 0 (n_vnodes p);
  ol ← np_zeros 0 (n_vnodes p);
  cm ← np_zeros 0%float (n_cnodes p * max_cnode_deg p);
  vm0 ← np_zeros 0%float (n_vnodes p * max_vnode_deg p);
  vm ← init_vnode_msgs p llr_vec vm0;
  Ok {| cnode_msgs := cm; vnode_msgs := vm; dec_word := dw; out_llrs := ol |}.

(** The run of the decoder, with the final arrays and the number of
    iterations made. *)
Definition bp_run (llr_vec : list float) (p : ldpc_code_params)
    (n_iters : Z) : result (bp_state * nat) :=
  st ← bp_init p llr_vec;
  bp_iterations p llr_vec (Z.to_nat n_iters) st.

Definition ldpc_bp_decode (llr_vec : list float) (p : ldpc_code_params)
    (n_iters : Z) : result (list Z * list Z) :=
  r ← bp_run llr_vec p n_iters;
  Ok (dec_word r.1, out_llrs r.1).

End Decoder.

(** ** Reading a code design file *)

(** The file is the list of its lines, each as [readline] returns it (with
    its end-of-line character); at the end of the file [readline] returns
    the empty string. *)
Definition readline (f : list string) : string * list string :=
  match f with
  | [] => (EmptyString, [])
  | l :: rest => (l, rest)
  end.

(** [s.split(sep)] for a one-character separator. *)
Fixpoint split_on (sep : ascii) (s : string) : list string :=
  match s with
  | EmptyString => [EmptyString]
  | String c s' =>
      if Ascii.eqb c sep then EmptyString :: split_on sep s'
      else match split_on sep s' with
           | [] => [String c EmptyString]
           | w :: ws => String c w :: ws
           end
  end.

Definition is_space (c : ascii) : bool :=
  let n := nat_of_ascii c in
  (Nat.eqb n 32 || (Nat.leb 9 n && Nat.leb n 13))%bool.

Definition strip (cs : list ascii) : list ascii :=
  let drop_front := fix go (l : list ascii) : list ascii :=
    match l with
    | c :: l' => if is_space c then go l' else l
    | [] => []
    end in
  rev (drop_front (rev (drop_front cs))).

Definition digit_of (c : ascii) : option Z :=
  let n := Z.of_nat (nat_of_ascii c) in
  if (48 <=? n) && (n <=? 57) then Some (n - 48) else None.

Fixpoint digits_value (acc : Z) (cs : list ascii) : option Z :=
  match cs with
  | [] => Some acc
  | c :: cs' =>
      match digit_of c with
      | Some d => digits_value (10 * acc + d) cs'
      | None => None
      end
  end.

(** [int(s)] in base ten: surrounding white space, an optional sign, at
    least one digit; anything else is a [ValueError]. *)
Definition py_int (s : string) : result Z :=
  let cs := strip (list_ascii_of_string s) in
  let signed :=
    match cs with
    | c :: r =>
        if Ascii.eqb c "-" then (true, r)
        else if Ascii.eqb c "+" then (false, r)
        else (false, cs)
    | [] => (false, cs)
    end in
  match signed.2 with
  | [] => Raise ValueError
  | ds =>
      match digits_value 0 ds with
      | Some v => Ok (if signed.1 then - v else v)
      | None => Raise ValueError
      end
  end.

(** A list comprehension whose body may raise. *)
Fixpoint map_result {A B} (f : A -> result B) (l : list A) : result (list B) :=
  match l with
  | [] => Ok []
  | x :: l' => y ← f x; ys ← map_result f l'; Ok (y :: ys)
  end.

(** [[a, b] = l]. *)
Definition unpack2 (l : list Z) : result (Z * Z) :=
  match l with
  | [a; b] => Ok (a, b)
  | _ => Raise ValueError
  end.

(** [l[:-1]]. *)
Definition drop_last {A} (l : list A) : list A := take (length l - 1)%nat l.

Definition wrap32 (z : Z) : Z := (z + 2 ^ 31) mod 2 ^ 32 - 2 ^ 31.

(** A Python integer stored in an [np.int32] slot: narrowed from the C
    long it is first converted to. *)
Definition to_int32 (z : Z) : result Z :=
  if fits_int64 z then Ok (wrap32 z) else Raise OverflowError.

(** A Python integer stored in an int64 slot; an integer that does not
    fit is taken to raise, as the conversion of a Python long does. *)
Definition to_int64 (z : Z) : result Z :=
  if fits_int64 z then Ok z else Raise OverflowError.

(** [-np.ones([rows, cols], int)]. *)
Definition np_full2 (rows cols : Z) (x : Z) : result (list (list Z)) :=
  if (rows <? 0) || (cols <? 0) then Raise ValueError
  else Ok (replicate (Z.to_nat rows) (replicate (Z.to_nat cols) x)).

(** [row[0:deg] = values]: the values must number as many as the slice
    has slots, or be a single value, which is repeated. *)
Definition np_assign_prefix (row : list Z) (deg : Z) (values : list Z)
    : result (list Z) :=
  let len := Z.to_nat (slice_bound (Z.of_nat (length row)) deg) in
  if decide (length values = len) then Ok (values ++ drop len row)
  else match values with
       | [x] => Ok (replicate len x ++ drop len row)
       | _ => Raise ValueError
       end.

(** [row[0:deg]] read. *)
Definition np_prefix (row : list Z) (deg : Z) : list Z :=
  take (Z.to_nat (slice_bound (Z.of_nat (length row)) deg)) row.

(** [a[mask]] for a boolean [mask]: the elements of [a] at the positions
    where the mask holds; such a position beyond [a] is an [IndexError]. *)
Definition bool_index (a : list Z) (mask : list bool) : result (list Z) :=
  map_result
    (fun k => match a !! k with Some x => Ok x | None => Raise IndexError end)
    (filter (fun k => mask !! k = Some true) (seq 0 (length mask))).

(** An array stored where a scalar is expected must have one element. *)
Definition scalar_of_array (a : list Z) : result Z :=
  match a with
  | [x] => to_int64 x
  | _ => Raise ValueError
  end.

(** [m[r, c] = x]. *)
Definition np_set2 (m : list (list Z)) (r c : Z) (x : Z)
    : result (list (list Z)) :=
  row ← np_get m r;
  row' ← np_set row c x;
  np_set m r row'.

(** One adjacency row read from the file and stored (lines 42-43, 46-47). *)
Definition read_adj_row (deg_list : list Z) (idx : Z)
    (acc : list (list Z) * list string) : result (list (list Z) * list string) :=
  let (line, rest) := readline acc.2 in
  values ← map_result (fun x => n ← py_int x; Ok (n - 1)) (split_on "009" line);
  deg ← np_get deg_list idx;
  row ← np_get acc.1 idx;
  stored ← map_result to_int64 values;
  row' ← np_assign_prefix row deg stored;
  adj ← np_set acc.1 idx row';
  Ok (adj, rest).

(** One entry of a cross-reference map (lines 56 and 60): the slot of
    [node] in the adjacency row of its neighbour [nbr]. *)
Definition back_slot (nbr_adj : list (list Z)) (node_list : list Z)
    (node nbr : Z) : result Z :=
  nbr_row ← np_get nbr_adj nbr;
  sel ← bool_index node_list ((fun x => bool_decide (x = node)) <$> nbr_row);
  scalar_of_array sel.

(** What lines 33-47 leave: the counts, the degree lists and the two
    adjacency arrays, one row per node, padded with -1. *)
Record design : Type := {
  d_n_vnodes : Z;
  d_n_cnodes : Z;
  d_max_vnode_deg : Z;
  d_max_cnode_deg : Z;
  d_vnode_deg_list : list Z;
  d_cnode_deg_list : list Z;
  d_cnode_adj : list (list Z);
  d_vnode_adj : list (list Z)
}.

(** Lines 33-47. *)
Definition read_design_file (f : list string) : result design :=
  let (l1, f1) := readline f in
  counts ← map_result py_int (split_on " " l1);
  nn ← unpack2 counts;
  let (l2, f2) := readline f1 in
  maxes ← map_result py_int (split_on " " l2);
  mm ← unpack2 maxes;
  let (l3, f3) := readline f2 in
  vdegs ← map_result py_int (drop_last (split_on " " l3));
  vnode_deg ← map_result to_int32 vdegs;
  let (l4, f4) := readline f3 in
  cdegs ← map_result py_int (drop_last (split_on " " l4));
  cnode_deg ← map_result to_int32 cdegs;
  cnode_adj0 ← np_full2 nn.2 mm.2 (-1);
  vnode_adj0 ← np_full2 nn.1 mm.1 (-1);
  vr ← for_each (xrange nn.1) (read_adj_row vnode_deg) (vnode_adj0, f4);
  cr ← for_each (xrange nn.2) (read_adj_row cnode_deg) (cnode_adj0, vr.2);
  Ok {| d_n_vnodes := nn.1; d_n_cnodes := nn.2;
        d_max_vnode_deg := mm.1; d_max_cnode_deg := mm.2;
        d_vnode_deg_list := vnode_deg; d_cnode_deg_list := cnode_deg;
        d_cnode_adj := cr.1; d_vnode_adj := vr.1 |}.

(** [enumerate]. *)
Definition enumerate {A} (l : list A) : list (Z * A) :=
  imap (fun i x => (Z.of_nat i, x)) l.

(** [np.arange(n)]. *)
Definition np_arange (n : Z) : list Z := seqZ 0 n.

(** One store of line 56 or 60: [ix] is the pair [enumerate] yields, the
    slot [i] and the neighbour found there. *)
Definition map_slot (nbr_adj : list (list Z)) (own_list : list Z) (node : Z)
    (ix : Z * Z) (m : list (list Z)) : result (list (list Z)) :=
  x ← back_slot nbr_adj own_list node ix.2;
  np_set2 m node ix.1 x.

(** The inner loop of lines 55-56 and 59-60, for one node. *)
Definition map_node (own_deg : list Z) (own_adj nbr_adj : list (list Z))
    (own_list : list Z) (node : Z) (m : list (list Z))
    : result (list (list Z)) :=
  deg ← np_get own_deg node;
  row ← np_get own_adj node;
  for_each (enumerate (np_prefix row deg)) (map_slot nbr_adj own_list node) m.

(** The loops of lines 54-56 and 58-60, for either side of the graph:
    [own_adj] and [own_deg] belong to the nodes the loop runs over,
    [nbr_adj] to their neighbours. *)
Definition build_map (n_own : Z) (own_deg : list Z) (own_adj nbr_adj : list (list Z))
    (own_list : list Z) (map0 : list (list Z)) : result (list (list Z)) :=
  for_each (xrange n_own) (map_node own_deg own_adj nbr_adj own_list) map0.

(** [m.flatten().astype(np.int32)]. *)
Definition flatten32 (m : list (list Z)) : list Z := wrap32 <$> mjoin m.

(** Lines 68-70: the dense parity-check matrix, built and dropped. *)
Definition build_pmat (n_c n_v : Z) (cnode_adj : list (list Z))
    : result (list (list Z)) :=
  pmat0 ← np_full2 n_c n_v 0;
  for_each (xrange n_c)
    (fun cnode_idx pmat =>
       cols ← np_get cnode_adj cnode_idx;
       prow ← np_get pmat cnode_idx;
       prow' ← for_each cols (fun col pr => np_set pr col 1) prow;
       np_set pmat cnode_idx prow')
    pmat0.

(** Lines 49-83. *)
Definition build_params (d : design) : result ldpc_code_params :=
  cvm0 ← np_full2 (d_n_cnodes d) (d_max_cnode_deg d) (-1);
  vcm0 ← np_full2 (d_n_vnodes d) (d_max_vnode_deg d) (-1);
  let cnode_list := np_arange (d_n_cnodes d) in
  let vnode_list := np_arange (d_n_vnodes d) in
  cvm ← build_map (d_n_cnodes d) (d_cnode_deg_list d) (d_cnode_adj d)
         (d_vnode_adj d) cnode_list cvm0;
  vcm ← build_map (d_n_vnodes d) (d_vnode_deg_list d) (d_vnode_adj d)
         (d_cnode_adj d) vnode_list vcm0;
  _ ← build_pmat (d_n_cnodes d) (d_n_vnodes d) (d_cnode_adj d);
  Ok {| n_vnodes := d_n_vnodes d;
        n_cnodes := d_n_cnodes d;
        max_cnode_deg := d_max_cnode_deg d;
        max_vnode_deg := d_max_vnode_deg d;
        cnode_adj_list := flatten32 (d_cnode_adj d);
        cnode_vnode_map := flatten32 cvm;
        vnode_adj_list := flatten32 (d_vnode_adj d);
        vnode_cnode_map := flatten32 vcm;
        cnode_deg_list := d_cnode_deg_list d;
        vnode_deg_list := d_vnode_deg_list d |}.

Definition get_ldpc_code_params (f : list string) : result ldpc_code_params :=
  d ← read_design_file f;
  build_params d.

(** ** Sample inputs *)

Definition NL : string := String "010" EmptyString.
Definition TAB : string := String "009" EmptyString.

(** Two variable nodes on one check node. *)
Definition pair_file : list string :=
  [ "2 1" ++ NL; "1 2" ++ NL; "1 1 " ++ NL; "2 " ++ NL;
    "1" ++ NL; "1" ++ NL; "1" ++ TAB ++ "2" ++ NL ]%string.

Definition pair_code : ldpc_code_params :=
  {| n_vnodes := 2; n_cnodes := 1; max_cnode_deg := 2; max_vnode_deg := 1;
     cnode_adj_list := [0; 1]; cnode_vnode_map := [0; 0];
     vnode_adj_list := [0; 0]; vnode_cnode_map := [0; 1];
     cnode_deg_list := [2]; vnode_deg_list := [1; 1] |}.

(** An isolated variable node: no check node, no edge. *)
Definition lone_code : ldpc_code_params :=
  {| n_vnodes := 1; n_cnodes := 0; max_cnode_deg := 0; max_vnode_deg := 0;
     cnode_adj_list := []; cnode_vnode_map := [];
     vnode_adj_list := []; vnode_cnode_map := [];
     cnode_deg_list := []; vnode_deg_list := [0] |}.

(** numpy's [tanh] and [arctanh] are not available here. Where a run of
    the decoder needs two concrete functions, this pair stands in: odd,
    increasing, inverse to each other on (-1, 1), zero at zero. *)
Definition tanh_standin (x : float) : float := (x / (1 + abs x))%float.
Definition arctanh_standin (y : float) : float := (y / (1 - abs y))%float.

(** ** Notions the properties are stated with *)

(** The value of a computation, [d] where it raises. *)
Definition result_or {A} (d : A) (r : result A) : A :=
  match r with
  | Ok x => x
  | Raise _ => d
  end.

(** The element an index reads, [d] where the read would raise. *)
Definition np_at {A} (d : A) (a : list A) (i : Z) : A :=
  result_or d (np_get a i).

(** The degree of a check node and of a variable node. *)
Definition cnode_deg (p : ldpc_code_params) (c : Z) : Z :=
  np_at 0 (cnode_deg_list p) c.

Definition vnode_deg (p : ldpc_code_params) (v : Z) : Z :=
  np_at 0 (vnode_deg_list p) v.

(** Degrees within the stride of the flattened arrays. *)
Definition cnode_degrees_bounded (p : ldpc_code_params) : Prop :=
  forall c, 0 <= c < n_cnodes p -> cnode_deg p c <= max_cnode_deg p.

(** The hard decision of the variable node on edge [i] of check node [c]. *)
Definition hard_bit (p : ldpc_code_params) (dw : list Z) (c i : Z) : Z :=
  np_at 0 dw (np_at 0 (cnode_adj_list p) (c * max_cnode_deg p + i)).

(** The parity of check node [c]: the exclusive or of the hard decisions
    of its neighbours, over its live edge slots. *)
Definition parity_of (p : ldpc_code_params) (dw : list Z) (c : Z) : Z :=
  fold_left (fun acc i => Z.lxor acc (hard_bit p dw c i)) (xrange (cnode_deg p c)) 0.

Definition parity_satisfied (p : ldpc_code_params) (dw : list Z) : Prop :=
  forall c, 0 <= c < n_cnodes p -> parity_of p dw c = 0.

(** Every read the parity computation makes is inside its array. *)
Definition parity_reads_ok (p : ldpc_code_params) (dw : list Z) : Prop :=
  forall c, 0 <= c < n_cnodes p ->
    exists d, np_get (cnode_deg_list p) c = Ok d /\
      forall i, 0 <= i < d ->
        exists v b, np_get (cnode_adj_list p) (c * max_cnode_deg p + i) = Ok v
                    /\ np_get dw v = Ok b.

Definition vnode_degrees_bounded (p : ldpc_code_params) : Prop :=
  forall v, 0 <= v < n_vnodes p -> vnode_deg p v <= max_vnode_deg p.

(** The sum of all the check-node messages variable node [v] receives,
    no edge left out. *)
Definition incoming_sum (p : ldpc_code_params) (cmsgs : list float)
    (v : Z) : float :=
  fold_left (fun acc i => acc + result_or nan (vnode_incoming p cmsgs v i))%float
    (xrange (vnode_deg p v)) 0%float.

(** A value beyond the clipping range, by the comparisons of the code. *)
Definition exceeds_clip (x : float) : bool :=
  (PrimFloat.ltb MAX_POS_LLR x || PrimFloat.ltb x MIN_NEG_LLR)%bool.

Section ExtrinsicMessage.

Variable np_tanh : float -> float.
Variable np_arctanh : float -> float.

(** The message check node [c] receives on its edge [i]. *)
Definition incoming_at (p : ldpc_code_params) (vmsgs : list float)
    (c i : Z) : float :=
  result_or nan (cnode_incoming p vmsgs c i).

(** The product of [tanh(m/2)] over all the edges of check node [c]. *)
Definition tanh_product (p : ldpc_code_params) (vmsgs : list float)
    (c : Z) : float :=
  fold_left (fun acc j => acc * np_tanh (incoming_at p vmsgs c j / 2))%float
    (xrange (cnode_deg p c)) 1%float.

(** The outgoing message of check node [c] on its edge [i]:
    [2 * atanh(P / tanh(m_i / 2))]. *)
Definition extrinsic_check_msg (p : ldpc_code_params) (vmsgs : list float)
    (c i : Z) : float :=
  (2 * np_arctanh (tanh_product p vmsgs c / np_tanh (incoming_at p vmsgs c i / 2)))%float.

End ExtrinsicMessage.

(** What the allocation and the initialisation of a decode call need of
    its arguments: dimensions that can be allocated, and a degree and a
    channel value for each variable node. *)
Definition init_ready (p : ldpc_code_params) (llr_vec : list float) : Prop :=
  0 <= n_vnodes p /\
  0 <= n_cnodes p * max_cnode_deg p /\
  0 <= n_vnodes p * max_vnode_deg p /\
  n_vnodes p <= Z.of_nat (length (vnode_deg_list p)) /\
  n_vnodes p <= Z.of_nat (length llr_vec).

(** An exception of Python or numpy, as opposed to one the program would
    have to raise itself. *)
Definition builtin_exn (e : exn) : Prop :=
  e = ValueError \/ e = IndexError \/ e = OverflowError.

Definition only_builtin {A} (r : result A) : Prop :=
  forall e, r = Raise e -> builtin_exn e.

(** The input check the specification asks of the decoder: a channel
    vector of the wrong length or an iteration budget below one is
    refused with [InvalidDecodeInput]. *)
Definition rejects_invalid_input : Prop :=
  forall (np_tanh np_arctanh : float -> float) (llr_vec : list float)
         (p : ldpc_code_params) (n_iters : Z),
    Z.of_nat (length llr_vec) <> n_vnodes p \/ n_iters < 1 ->
    ldpc_bp_decode np_tanh np_arctanh llr_vec p n_iters = Raise InvalidDecodeInput.

(** ** Well-formed code descriptions *)

(** A row of an adjacency array against its node's declared degree: the
    degree is within the declared maximum and the live entries are
    indices of nodes of the other kind. *)
Definition row_ok (n_other max_deg deg : Z) (row : list Z) : Prop :=
  0 <= deg <= max_deg /\
  forall (i : nat) x, Z.of_nat i < deg -> row !! i = Some x -> 0 <= x < n_other.

(** What lines 33-47 read belongs to a well-formed description: counts
    and maxima that fit the [np.int32] arrays they end in, every degree
    within its maximum, every node index within range. *)
Definition wf_design (d : design) : Prop :=
  (d_n_vnodes d < 2 ^ 31 /\ d_n_cnodes d < 2 ^ 31 /\
   d_max_vnode_deg d < 2 ^ 31 /\ d_max_cnode_deg d < 2 ^ 31) /\
  (forall (v : nat) deg row,
     d_vnode_deg_list d !! v = Some deg -> d_vnode_adj d !! v = Some row ->
     row_ok (d_n_cnodes d) (d_max_vnode_deg d) deg row) /\
  (forall (c : nat) deg row,
     d_cnode_deg_list d !! c = Some deg -> d_cnode_adj d !! c = Some row ->
     row_ok (d_n_vnodes d) (d_max_cnode_deg d) deg row).

Definition well_formed_description (f : list string) : Prop :=
  exists d, read_design_file f = Ok d /\ wf_design d.

(** The check the specification asks of the graph builder: a description
    that is not well formed is refused with [MalformedCodeDescription]. *)
Definition rejects_malformed_description : Prop :=
  forall f : list string,
    ~ well_formed_description f ->
    get_ldpc_code_params f = Raise MalformedCodeDescription.

(** The round trip through the two cross-reference maps, from edge slot
    [i] of variable node [v]. *)
Definition round_trip_at (g : ldpc_code_params) (v i : Z) : Prop :=
  let c := np_at 0 (vnode_adj_list g) (v * max_vnode_deg g + i) in
  let j := np_at 0 (vnode_cnode_map g) (v * max_vnode_deg g + i) in
  0 <= c < n_cnodes g /\
  0 <= j < cnode_deg g c /\
  np_get (cnode_adj_list g) (c * max_cnode_deg g + j) = Ok v /\
  np_get (cnode_vnode_map g) (c * max_cnode_deg g + j) = Ok i.

(** A description whose first variable node names check node 0, which the
    1-based format does not have: the index becomes -1 and selects the
    last row. *)
Definition wrap_file : list string :=
  [ "2 2" ++ NL; "2 2" ++ NL; "2 1 " ++ NL; "1 1 " ++ NL;
    "2" ++ TAB ++ "0" ++ NL; "1" ++ NL; "2" ++ NL; "1" ++ NL ]%string.

Definition wrap_code : ldpc_code_params :=
  {| n_vnodes := 2; n_cnodes := 2; max_cnode_deg := 2; max_vnode_deg := 2;
     cnode_adj_list := [1; -1; 0; -1]; cnode_vnode_map := [0; -1; 0; -1];
     vnode_adj_list := [1; -1; 0; -1]; vnode_cnode_map := [0; 0; 0; -1];
     cnode_deg_list := [1; 1]; vnode_deg_list := [2; 1] |}.

(** A description whose variable node declares degree 5 under a declared
    maximum of 1. *)
Definition over_file : list string :=
  [ "1 1" ++ NL; "1 1" ++ NL; "5 " ++ NL; "1 " ++ NL; "1" ++ NL; "1" ++ NL ]%string.

Definition over_code : ldpc_code_params :=
  {| n_vnodes := 1; n_cnodes := 1; max_cnode_deg := 1; max_vnode_deg := 1;
     cnode_adj_list := [0]; cnode_vnode_map := [0];
     vnode_adj_list := [0]; vnode_cnode_map := [0];
     cnode_deg_list := [1]; vnode_deg_list := [5] |}.

(** A description with three counts on its first line. *)
Definition three_counts_file : list string :=
  [ "2 1 1" ++ NL; "1 2" ++ NL; "1 1 " ++ NL; "2 " ++ NL;
    "1" ++ NL; "1" ++ NL; "1" ++ TAB ++ "2" ++ NL ]%string.

(** The number of slots of [row[0:deg]]. *)
Definition prefix_len (row : list Z) (deg : Z) : nat :=
  Z.to_nat (slice_bound (Z.of_nat (length row)) deg).

(** What a successful reading leaves: two arrays of the declared shape,
    each row padded with -1 beyond the slice of its degree. *)
Definition padded (n : Z) (max_deg : Z) (deg_list : list Z)
    (adj : list (list Z)) : Prop :=
  0 <= n /\ 0 <= max_deg /\
  length adj = Z.to_nat n /\
  forall (r : nat) row, adj !! r = Some row ->
    length row = Z.to_nat max_deg /\
    exists deg, np_get deg_list (Z.of_nat r) = Ok deg /\
      forall j : nat, (Z.to_nat (slice_bound max_deg deg) <= j)%nat ->
        (j < Z.to_nat max_deg)%nat -> row !! j = Some (-1).

(** ** The messages of a check node, located as the specification says *)

(** The variable-node message on edge [j] of check node [c]: the
    neighbour is [cnode_adj_list[c * max_cnode_deg + j]], its slot for
    this edge is [cnode_vnode_map[c * max_cnode_deg + j]], and the
    message is the element of [vnode_msgs] at that slot of that
    neighbour's block. *)
Definition edge_message (p : ldpc_code_params) (vmsgs : list float)
    (c j : Z) : float :=
  let v := np_at 0 (cnode_adj_list p) (c * max_cnode_deg p + j) in
  let slot := np_at 0 (cnode_vnode_map p) (c * max_cnode_deg p + j) in
  np_at nan vmsgs (v * max_vnode_deg p + slot).

(** The product of [tanh(m_j / 2)] over all the edges [j] of [c]. *)
Definition edge_tanh_product (np_tanh : float -> float)
    (p : ldpc_code_params) (vmsgs : list float) (c : Z) : float :=
  fold_left (fun acc j => acc * np_tanh (edge_message p vmsgs c j / 2))%float
    (xrange (cnode_deg p c)) 1%float.

(** ** The clipping range *)

(** A float that is a number and not an infinity. *)
Definition finite_float (x : float) : bool :=
  match Prim2SF x with
  | S754_zero _ | S754_finite _ _ _ => true
  | _ => false
  end.

(** [MIN_NEG_LLR <= x <= MAX_POS_LLR], which no NaN satisfies. *)
Definition within_clip (x : float) : bool :=
  (PrimFloat.leb MIN_NEG_LLR x && PrimFloat.leb x MAX_POS_LLR)%bool.

(** ** The iterations of a run *)

(** The arrays at the end of iteration [k] of a run that began with
    [st]: [k] rounds of the two update phases. *)
Fixpoint state_after (np_tanh np_arctanh : float -> float)
    (p : ldpc_code_params) (llr_vec : list float) (k : nat) (st : bp_state)
    : result bp_state :=
  match k with
  | O => Ok st
  | S k' =>
      st1 ← bp_update np_tanh np_arctanh p llr_vec st;
      state_after np_tanh np_arctanh p llr_vec k' st1
  end.

(** Three variable nodes on one check node. *)
Definition triple_code : ldpc_code_params :=
  {| n_vnodes := 3; n_cnodes := 1; max_cnode_deg := 3; max_vnode_deg := 1;
     cnode_adj_list := [0; 1; 2]; cnode_vnode_map := [0; 0; 0];
     vnode_adj_list := [0; 0; 0]; vnode_cnode_map := [0; 1; 2];
     cnode_deg_list := [3]; vnode_deg_list := [1; 1; 1] |}.

(** The behaviour the specification states for a budget of zero or
    less, with no condition on the other arguments. *)
Definition zero_budget_always_returns : Prop :=
  forall (np_tanh np_arctanh : float -> float) (llr_vec : list float)
         (p : ldpc_code_params) (n_iters : Z),
    n_iters <= 0 ->
    ldpc_bp_decode np_tanh np_arctanh llr_vec p n_iters
      = Ok (replicate (Z.to_nat (n_vnodes p)) 0,
            replicate (Z.to_nat (n_vnodes p)) 0).

(** ** Further notions *)

(** A hard decision. *)
Definition is_bit (b : Z) : Prop := b = 0 \/ b = 1.

(** The message variable node [v] sends on its edge [i]: the channel
    value plus the full incoming sum, minus what came in on that edge,
    clipped. *)
Definition extrinsic_variable_msg (p : ldpc_code_params) (llr_vec : list float)
    (cmsgs : list float) (v i : Z) : float :=
  _limit_llr (np_at nan llr_vec v + incoming_sum p cmsgs v
              - result_or nan (vnode_incoming p cmsgs v i))%float.

(** The state a decode call starts from on the code of two variable nodes
    and one check node, with channel values 1 and 2. *)
Definition pair_start : bp_state :=
  {| cnode_msgs := [0%float; 0%float]; vnode_msgs := [1%float; 2%float];
     dec_word := [0; 0]; out_llrs := [0; 0] |}.

(** What every state of a run keeps: a hard decision and a posterior
    value for each variable node. *)
Definition result_shape (n : nat) (st : bp_state) : Prop :=
  length (dec_word st) = n /\ length (out_llrs st) = n
  /\ Forall is_bit (dec_word st).

(** One side of the graph as the decoder addresses it: every node has a
    degree within the stride, and each of its live slots names a node of
    the other side and a slot within that side's stride. *)
Definition side_addressable (n_own n_other max_own max_other : Z)
    (deg_list adj map : list Z) : Prop :=
  forall r, 0 <= r < n_own ->
    exists deg, np_get deg_list r = Ok deg /\ deg <= max_own /\
      forall i, 0 <= i < deg ->
        exists x k, np_get adj (r * max_own + i) = Ok x
                    /\ np_get map (r * max_own + i) = Ok k
                    /\ 0 <= x < n_other /\ 0 <= k < max_other.

Definition graph_addressable (p : ldpc_code_params) : Prop :=
  0 <= n_vnodes p /\ 0 <= n_cnodes p /\
  0 <= max_vnode_deg p /\ 0 <= max_cnode_deg p /\
  side_addressable (n_vnodes p) (n_cnodes p) (max_vnode_deg p) (max_cnode_deg p)
    (vnode_deg_list p) (vnode_adj_list p) (vnode_cnode_map p) /\
  side_addressable (n_cnodes p) (n_vnodes p) (max_cnode_deg p) (max_vnode_deg p)
    (cnode_deg_list p) (cnode_adj_list p) (cnode_vnode_map p).

(** The four arrays of a run, at the sizes [ldpc_bp_decode] allocates. *)
Definition state_sized (p : ldpc_code_params) (st : bp_state) : Prop :=
  Z.of_nat (length (cnode_msgs st)) = n_cnodes p * max_cnode_deg p /\
  Z.of_nat (length (vnode_msgs st)) = n_vnodes p * max_vnode_deg p /\
  Z.of_nat (length (dec_word st)) = n_vnodes p /\
  Z.of_nat (length (out_llrs st)) = n_vnodes p.

(** The two exceptions of a float stored into an integer array. *)
Definition storage_error (e : exn) : Prop := e = ValueError \/ e = OverflowError.

(** A computation that returns a state with property [I], or stops on a
    storage error. *)
Definition safe_outcome {S} (I : S -> Prop) (r : result S) : Prop :=
  match r with
  | Ok s => I s
  | Raise e => storage_error e
  end.

(** The round trip through the two cross-reference maps, from edge slot
    [j] of check node [c]. *)
Definition round_trip_from_check (g : ldpc_code_params) (c j : Z) : Prop :=
  let v := np_at 0 (cnode_adj_list g) (c * max_cnode_deg g + j) in
  let i := np_at 0 (cnode_vnode_map g) (c * max_cnode_deg g + j) in
  0 <= v < n_vnodes g /\
  0 <= i < vnode_deg g v /\
  np_get (vnode_adj_list g) (v * max_vnode_deg g + i) = Ok c /\
  np_get (vnode_cnode_map g) (v * max_vnode_deg g + i) = Ok j.

(** The two sides of a graph built from a well-formed description, seen
    from side [A]: adjacency arrays as lines 36-47 leave them, and the
    cross-reference maps lines 49-60 build over them. *)
Definition sides_built (nA nB maxA maxB : Z) (degA degB : list Z)
    (adjA adjB mA mB : list (list Z)) : Prop :=
  (nA < 2 ^ 31 /\ nB < 2 ^ 31 /\ maxA < 2 ^ 31 /\ maxB < 2 ^ 31) /\
  padded nA maxA degA adjA /\
  padded nB maxB degB adjB /\
  (forall (k : nat) deg row,
     degA !! k = Some deg -> adjA !! k = Some row -> row_ok nB maxA deg row) /\
  (forall (k : nat) deg row,
     degB !! k = Some deg -> adjB !! k = Some row -> row_ok nA maxB deg row) /\
  (exists m0 nl, np_full2 nA maxA (-1) = Ok m0
                 /\ build_map nA degA adjA adjB (np_arange nl) m0 = Ok mA) /\
  (exists m0 nl, np_full2 nB maxB (-1) = Ok m0
                 /\ build_map nB degB adjB adjA (np_arange nl) m0 = Ok mB).

(** What lines 33-47 read from the file of two variable nodes and one
    check node. *)
Definition pair_design : design :=
  {| d_n_vnodes := 2; d_n_cnodes := 1;
     d_max_vnode_deg := 1; d_max_cnode_deg := 2;
     d_vnode_deg_list := [1; 1]; d_cnode_deg_list := [2];
     d_cnode_adj := [[0; 1]]; d_vnode_adj := [[0]; [0]] |}.

(** A node count and stride of a side, with its degree list and its two
    flattened arrays: the slots of node [r] beyond its degree. *)
Definition unused_slot (max_deg : Z) (deg_list : list Z) (r j : Z) : Prop :=
  0 <= np_at 0 deg_list r /\ np_at 0 deg_list r <= j /\ j < max_deg.

(** Row [r] of a flattened adjacency array against the line of the file
    it was read from: the line is a tab-separated list of integers, and
    when it has as many entries as the degree of the node, slot [i] holds
    entry [i] less one, as an [np.int32]. *)
Definition row_from_line (line : string) (deg max_deg : Z) (flat : list Z)
    (r : Z) : Prop :=
  exists xs,
    map_result py_int (split_on "009" line) = Ok xs /\
    (length xs = Z.to_nat deg ->
     forall (i : nat) x, xs !! i = Some x ->
       np_get flat (r * max_deg + Z.of_nat i) = Ok (wrap32 (x - 1))).

(** * Properties *)

(** ** Results and loops *)

Lemma bind_Ok {A B} (m : result A) (f : A -> result B) (b : B) :
  m ≫= f = Ok b <-> exists a, m = Ok a /\ f a = Ok b.
Proof.
  destruct m as [a|e]; simpl; split.
  - intros H. exists a. auto.
  - intros (a' & [= <-] & H). exact H.
  - discriminate.
  - intros (a' & [=] & _).
Qed.

Lemma bind_Raise {A B} (m : result A) (f : A -> result B) (e : exn) :
  m ≫= f = Raise e <-> m = Raise e \/ exists a, m = Ok a /\ f a = Raise e.
Proof.
  destruct m as [a|e']; simpl; split.
  - intros H. right. exists a. auto.
  - intros [[=]|(a' & [= <-] & H)]. exact H.
  - intros [= ->]. left. reflexivity.
  - intros [[= ->]|(a' & [=] & _)]. reflexivity.
Qed.

Tactic Notation "inv_bind" hyp(H) "as" ident(x) ident(Hx) :=
  apply bind_Ok in H; destruct H as (x & Hx & H).

Lemma for_each_app {S X} (xs ys : list X) (body : X -> S -> result S) (s : S) :
  for_each (xs ++ ys) body s = for_each xs body s ≫= for_each ys body.
Proof.
  revert s. induction xs as [|x xs IH]; intros s; simpl.
  - reflexivity.
  - destruct (body x s) as [s'|e]; simpl; [apply IH | reflexivity].
Qed.

Lemma xrange_nonpos n : n <= 0 -> xrange n = [].
Proof. apply seqZ_nil. Qed.

Lemma xrange_succ (k : nat) :
  xrange (Z.of_nat (S k)) = xrange (Z.of_nat k) ++ [Z.of_nat k].
Proof. unfold xrange. rewrite seqZ_S. reflexivity. Qed.

Lemma elem_of_xrange n i : i ∈ xrange n <-> 0 <= i < n.
Proof. unfold xrange. rewrite elem_of_seqZ. lia. Qed.

(** A loop whose body cannot raise on the elements it meets does not
    raise, and an invariant of the body holds at its end. *)
Lemma for_each_total {S X} (I : S -> Prop) (xs : list X)
    (body : X -> S -> result S) (s : S) :
  (forall x s, x ∈ xs -> I s -> exists s', body x s = Ok s' /\ I s') ->
  I s ->
  exists s', for_each xs body s = Ok s' /\ I s'.
Proof.
  revert s. induction xs as [|x xs IH]; intros s Hbody Hs; simpl.
  - eauto.
  - destruct (Hbody x s) as (s1 & -> & Hs1); [left | exact Hs |].
    simpl. apply IH; [|exact Hs1].
    intros y t Hy. apply Hbody. right. exact Hy.
Qed.

Lemma for_each_invariant {S X} (I : S -> Prop) (xs : list X)
    (body : X -> S -> result S) (s s' : S) :
  (forall x s s', x ∈ xs -> I s -> body x s = Ok s' -> I s') ->
  I s ->
  for_each xs body s = Ok s' ->
  I s'.
Proof.
  revert s. induction xs as [|x xs IH]; intros s Hbody Hs H; simpl in H.
  - injection H as <-. exact Hs.
  - inv_bind H as s1 Hs1. eapply IH; [| |exact H].
    + intros y t t' Hy. apply Hbody. right. exact Hy.
    + eapply Hbody; [left | exact Hs | exact Hs1].
Qed.

(** ** Array accesses *)

Lemma np_index_nonneg n i :
  0 <= i < n -> np_index n i = Ok (Z.to_nat i).
Proof.
  intros H. unfold np_index.
  destruct (Z.leb_spec 0 i); [|lia]. destruct (Z.ltb_spec i n); [|lia].
  reflexivity.
Qed.

Lemma np_index_Ok n i k :
  np_index n i = Ok k ->
  (Z.of_nat k < n) /\ (0 <= i -> k = Z.to_nat i) /\ (- n <= i < n).
Proof.
  unfold np_index.
  destruct (Z.leb_spec 0 i), (Z.ltb_spec i n); simpl;
    try (intros [= <-]; lia).
  all: destruct (Z.leb_spec (- n) i), (Z.ltb_spec i 0); simpl;
    try discriminate; try (intros [= <-]; lia).
Qed.

Lemma np_index_beyond n i : 0 <= i -> n <= i -> np_index n i = Raise IndexError.
Proof.
  intros H0 H. unfold np_index.
  destruct (Z.leb_spec 0 i); [|lia]. destruct (Z.ltb_spec i n); [lia|].
  destruct (Z.ltb_spec i 0); [lia|]. simpl. rewrite andb_false_r. reflexivity.
Qed.

Lemma np_get_nonneg {A} (a : list A) i x :
  0 <= i -> np_get a i = Ok x <-> a !! Z.to_nat i = Some x.
Proof.
  intros Hi. unfold np_get. split.
  - intros H. inv_bind H as k Hk. apply np_index_Ok in Hk as (_ & Hk & _).
    specialize (Hk Hi). subst k.
    destruct (a !! Z.to_nat i); congruence.
  - intros H. pose proof (lookup_lt_Some _ _ _ H).
    rewrite np_index_nonneg by lia. simpl. rewrite H. reflexivity.
Qed.

Lemma np_get_inside {A} (a : list A) i :
  0 <= i < Z.of_nat (length a) -> exists x, np_get a i = Ok x.
Proof.
  intros H. destruct (lookup_lt_is_Some_2 a (Z.to_nat i)) as [x Hx]; [lia|].
  exists x. apply np_get_nonneg; [lia | exact Hx].
Qed.

Lemma np_get_beyond {A} (a : list A) i :
  0 <= i -> Z.of_nat (length a) <= i -> np_get a i = Raise IndexError.
Proof.
  intros H0 H. unfold np_get. rewrite np_index_beyond by lia. reflexivity.
Qed.

Lemma np_set_nonneg {A} (a a' : list A) i x :
  0 <= i -> np_set a i x = Ok a' ->
  a' = <[Z.to_nat i := x]> a /\ i < Z.of_nat (length a).
Proof.
  intros Hi H. unfold np_set in H. inv_bind H as k Hk.
  apply np_index_Ok in Hk as (Hlt & Hk & Hr). specialize (Hk Hi). subst k.
  injection H as <-. split; [reflexivity | lia].
Qed.

Lemma np_set_inside {A} (a : list A) i x :
  0 <= i < Z.of_nat (length a) -> np_set a i x = Ok (<[Z.to_nat i := x]> a).
Proof.
  intros H. unfold np_set. rewrite np_index_nonneg by lia. reflexivity.
Qed.

Lemma np_set_length {A} (a a' : list A) i x :
  np_set a i x = Ok a' -> length a' = length a.
Proof.
  unfold np_set. intros H. inv_bind H as k Hk. injection H as <-.
  apply length_insert.
Qed.

Lemma np_at_Ok {A} (d : A) (a : list A) i x : np_get a i = Ok x -> np_at d a i = x.
Proof. unfold np_at. intros ->. reflexivity. Qed.

Lemma slice_bound_range n i : 0 <= n -> 0 <= slice_bound n i <= n.
Proof. intros Hn. unfold slice_bound. destruct (Z.ltb_spec i 0); lia. Qed.

Lemma slice_bound_inside n i : 0 <= i <= n -> slice_bound n i = i.
Proof. intros H. unfold slice_bound. destruct (Z.ltb_spec i 0); lia. Qed.

(** ** Which exceptions can be raised *)

Lemma only_builtin_Ok {A} (a : A) : only_builtin (Ok a).
Proof. intros e [=]. Qed.

Lemma only_builtin_Raise {A} (e : exn) : builtin_exn e -> only_builtin (@Raise A e).
Proof. intros He e' [= <-]. exact He. Qed.

Lemma only_builtin_bind {A B} (m : result A) (f : A -> result B) :
  only_builtin m -> (forall a, only_builtin (f a)) -> only_builtin (m ≫= f).
Proof.
  intros Hm Hf e H. apply bind_Raise in H as [H|(a & _ & H)].
  - exact (Hm e H).
  - exact (Hf a e H).
Qed.

Lemma only_builtin_for_each {S X} (xs : list X) (body : X -> S -> result S) (s : S) :
  (forall x s, only_builtin (body x s)) -> only_builtin (for_each xs body s).
Proof.
  intros Hbody. revert s. induction xs as [|x xs IH]; intros s; simpl.
  - apply only_builtin_Ok.
  - apply only_builtin_bind; [apply Hbody | exact IH].
Qed.

Lemma only_builtin_map_result {A B} (f : A -> result B) (l : list A) :
  (forall x, only_builtin (f x)) -> only_builtin (map_result f l).
Proof.
  intros Hf. induction l as [|x l IH]; simpl.
  - apply only_builtin_Ok.
  - apply only_builtin_bind; [apply Hf|]. intros y.
    apply only_builtin_bind; [exact IH|]. intros ys. apply only_builtin_Ok.
Qed.

Lemma builtin_ValueError : builtin_exn ValueError.
Proof. left. reflexivity. Qed.

Lemma builtin_IndexError : builtin_exn IndexError.
Proof. right. left. reflexivity. Qed.

Lemma builtin_OverflowError : builtin_exn OverflowError.
Proof. right. right. reflexivity. Qed.

Create HintDb builtin.
#[local] Hint Resolve only_builtin_Ok only_builtin_Raise builtin_ValueError
  builtin_IndexError builtin_OverflowError : builtin.

(** One step of the syntax-directed argument: a bind, a loop, a
    comprehension, a branch. *)
Ltac builtin_step :=
  lazymatch goal with
  | |- only_builtin (Ok _) => apply only_builtin_Ok
  | |- only_builtin (Raise _) => apply only_builtin_Raise; auto with builtin
  | |- only_builtin (_ ≫= _) => apply only_builtin_bind; [|intros ?]
  | |- only_builtin (for_each _ _ _) => apply only_builtin_for_each; intros ? ?
  | |- only_builtin (map_result _ _) => apply only_builtin_map_result; intros ?
  | |- only_builtin (if ?b then _ else _) => destruct b
  | |- only_builtin (match ?x with _ => _ end) => destruct x
  | |- _ => solve [auto with builtin]
  end.

Ltac builtin := repeat builtin_step.

Lemma only_builtin_np_index n i : only_builtin (np_index n i).
Proof. unfold np_index. builtin. Qed.

#[local] Hint Resolve only_builtin_np_index : builtin.

Lemma only_builtin_np_get {A} (a : list A) i : only_builtin (np_get a i).
Proof. unfold np_get. builtin. Qed.

Lemma only_builtin_np_set {A} (a : list A) i x : only_builtin (np_set a i x).
Proof. unfold np_set. builtin. Qed.

Lemma only_builtin_np_zeros {A} (z : A) n : only_builtin (np_zeros z n).
Proof. unfold np_zeros. builtin. Qed.

Lemma only_builtin_int_of_float x : only_builtin (int_of_float x).
Proof. unfold int_of_float. builtin. Qed.

#[local] Hint Resolve only_builtin_np_get only_builtin_np_set
  only_builtin_np_zeros only_builtin_int_of_float : builtin.

Lemma only_builtin_cnode_incoming p vmsgs c i :
  only_builtin (cnode_incoming p vmsgs c i).
Proof. unfold cnode_incoming. builtin. Qed.

Lemma only_builtin_vnode_incoming p cmsgs v i :
  only_builtin (vnode_incoming p cmsgs v i).
Proof. unfold vnode_incoming. builtin. Qed.

Lemma only_builtin_cnode_parity p dw c : only_builtin (cnode_parity p dw c).
Proof. unfold cnode_parity. builtin. Qed.

#[local] Hint Resolve only_builtin_cnode_incoming only_builtin_vnode_incoming
  only_builtin_cnode_parity : builtin.

Lemma only_builtin_parity_scan p dw cs : only_builtin (parity_scan p dw cs).
Proof. induction cs as [|c cs IH]; simpl; builtin. Qed.

Lemma only_builtin_init_vnode_msgs p llr_vec vm0 :
  only_builtin (init_vnode_msgs p llr_vec vm0).
Proof. unfold init_vnode_msgs, init_vnode. builtin. Qed.

#[local] Hint Resolve only_builtin_parity_scan only_builtin_init_vnode_msgs : builtin.

Lemma only_builtin_bp_init p llr_vec : only_builtin (bp_init p llr_vec).
Proof. unfold bp_init. builtin. Qed.

#[local] Hint Resolve only_builtin_bp_init : builtin.

Section DecoderExceptions.

Variable np_tanh : float -> float.
Variable np_arctanh : float -> float.

Lemma only_builtin_bp_update p llr_vec st :
  only_builtin (bp_update np_tanh np_arctanh p llr_vec st).
Proof.
  unfold bp_update, check_node_update, variable_node_update,
    cnode_update, vnode_update, cnode_msg_prod, vnode_msg_sum.
  builtin.
Qed.

Lemma only_builtin_bp_iterations p llr_vec budget st :
  only_builtin (bp_iterations np_tanh np_arctanh p llr_vec budget st).
Proof.
  revert st. induction budget as [|n IH]; intros st; simpl.
  - builtin.
  - apply only_builtin_bind; [apply only_builtin_bp_update|]. intros st2.
    apply only_builtin_bind; [apply only_builtin_parity_scan|]. intros flag.
    destruct (flag =? 0); [builtin|].
    apply only_builtin_bind; [apply IH|]. intros r. builtin.
Qed.

Lemma only_builtin_ldpc_bp_decode llr_vec p n_iters :
  only_builtin (ldpc_bp_decode np_tanh np_arctanh llr_vec p n_iters).
Proof.
  unfold ldpc_bp_decode, bp_run.
  apply only_builtin_bind; [|intros r; builtin].
  apply only_builtin_bind; [apply only_builtin_bp_init|]. intros st.
  apply only_builtin_bp_iterations.
Qed.

End DecoderExceptions.

(** ** Allocation, initialisation and the iteration budget *)

Lemma np_zeros_nonneg {A} (z : A) n :
  0 <= n -> np_zeros z n = Ok (replicate (Z.to_nat n) z).
Proof. intros H. unfold np_zeros. destruct (Z.ltb_spec n 0); [lia | reflexivity]. Qed.

Lemma for_each_raise_at {S X} (xs ys : list X) (x : X)
    (body : X -> S -> result S) (s s1 : S) (e : exn) :
  for_each xs body s = Ok s1 ->
  body x s1 = Raise e ->
  for_each (xs ++ x :: ys) body s = Raise e.
Proof.
  intros H1 H2. rewrite for_each_app, H1. simpl. rewrite H2. reflexivity.
Qed.

(** The initialisation loop over the first [k] variable nodes succeeds
    when each of them has a degree and a channel value. *)
Lemma init_prefix_ok p llr_vec (k : Z) vm0 :
  k <= Z.of_nat (length (vnode_deg_list p)) ->
  k <= Z.of_nat (length llr_vec) ->
  exists vm,
    for_each (xrange k) (init_vnode p llr_vec) vm0 = Ok vm.
Proof.
  intros Hd Hl.
  destruct (for_each_total (fun _ : list float => True) (xrange k)
              (init_vnode p llr_vec) vm0) as (vm & H & _);
    [| exact I | exists vm; exact H].
  intros v s Hv _. apply elem_of_xrange in Hv. unfold init_vnode.
  destruct (np_get_inside (vnode_deg_list p) v) as [d ->]; [lia|].
  destruct (np_get_inside llr_vec v) as [x ->]; [lia|].
  simpl. eauto.
Qed.

Lemma bp_init_ok p llr_vec :
  init_ready p llr_vec ->
  exists st, bp_init p llr_vec = Ok st /\
    dec_word st = replicate (Z.to_nat (n_vnodes p)) 0 /\
    out_llrs st = replicate (Z.to_nat (n_vnodes p)) 0.
Proof.
  intros (Hn & Hc & Hv & Hd & Hl). unfold bp_init.
  rewrite !np_zeros_nonneg by assumption. simpl.
  destruct (init_prefix_ok p llr_vec (n_vnodes p)
              (replicate (Z.to_nat (n_vnodes p * max_vnode_deg p)) 0%float))
    as [vm Hvm]; [exact Hd | exact Hl |].
  unfold init_vnode_msgs. rewrite Hvm. simpl. eauto.
Qed.

(** A channel vector shorter than the number of variable nodes stops the
    initialisation loop at the first node without a value. *)
Lemma bp_init_short_llr p llr_vec :
  0 <= n_vnodes p ->
  0 <= n_cnodes p * max_cnode_deg p ->
  0 <= n_vnodes p * max_vnode_deg p ->
  n_vnodes p <= Z.of_nat (length (vnode_deg_list p)) ->
  Z.of_nat (length llr_vec) < n_vnodes p ->
  bp_init p llr_vec = Raise IndexError.
Proof.
  intros Hn Hc Hv Hd Hl. unfold bp_init.
  rewrite !np_zeros_nonneg by assumption. simpl.
  set (len := Z.of_nat (length llr_vec)) in *.
  assert (Hsplit : xrange (n_vnodes p) =
            xrange len ++ len :: seqZ (Z.succ len) (Z.pred (n_vnodes p - len))).
  { unfold xrange. replace (n_vnodes p) with (len + (n_vnodes p - len)) at 1 by lia.
    rewrite seqZ_app by lia. f_equal. rewrite seqZ_cons by lia. reflexivity. }
  destruct (init_prefix_ok p llr_vec len
              (replicate (Z.to_nat (n_vnodes p * max_vnode_deg p)) 0%float))
    as [vm Hvm]; [lia | lia |].
  unfold init_vnode_msgs. rewrite Hsplit.
  erewrite for_each_raise_at; [reflexivity | exact Hvm |].
  unfold init_vnode.
  destruct (np_get_inside (vnode_deg_list p) len) as [d ->]; [lia|].
  simpl. rewrite np_get_beyond by lia. reflexivity.
Qed.

Section DecoderBudget.

Variable np_tanh : float -> float.
Variable np_arctanh : float -> float.

(** The loop never makes more iterations than its budget. *)
Lemma bp_iterations_bounded p llr_vec budget st st' k :
  bp_iterations np_tanh np_arctanh p llr_vec budget st = Ok (st', k) ->
  (k <= budget)%nat.
Proof.
  revert st st' k. induction budget as [|n IH]; intros st st' k H; simpl in H.
  - injection H as _ <-. lia.
  - inv_bind H as st2 Hst2. inv_bind H as flag Hflag.
    destruct (flag =? 0).
    + injection H as _ <-. lia.
    + inv_bind H as r Hr. destruct r as [st3 k3]. injection H as _ <-.
      apply IH in Hr. simpl. lia.
Qed.

Lemma bp_run_bounded llr_vec p n_iters st k :
  bp_run np_tanh np_arctanh llr_vec p n_iters = Ok (st, k) -> (k <= Z.to_nat n_iters)%nat.
Proof.
  unfold bp_run. intros H. inv_bind H as st0 Hst0.
  eapply bp_iterations_bounded. exact H.
Qed.

Lemma bp_run_no_budget llr_vec p n_iters :
  n_iters <= 0 ->
  init_ready p llr_vec ->
  exists st, bp_run np_tanh np_arctanh llr_vec p n_iters = Ok (st, O) /\
    dec_word st = replicate (Z.to_nat (n_vnodes p)) 0 /\
    out_llrs st = replicate (Z.to_nat (n_vnodes p)) 0.
Proof.
  intros Hn Hready. destruct (bp_init_ok p llr_vec Hready) as (st & Hst & Hdw & Hol).
  exists st. unfold bp_run. rewrite Hst. simpl.
  rewrite Z2Nat.nonpos by exact Hn. simpl. auto.
Qed.

(** C10, as the code has it: called with [n_iters <= 0] and arguments
    the allocation and the initialisation accept (dimensions that can be
    allocated, a degree and a channel value for each variable node), the
    decoder runs its main loop zero times and returns, without raising,
    the all-zero [dec_word] and the all-zero [out_llrs], both of length
    [n_vnodes]. *)
Theorem decode_zero_budget (llr_vec : list float) (p : ldpc_code_params)
    (n_iters : Z) :
  n_iters <= 0 ->
  init_ready p llr_vec ->
  ldpc_bp_decode np_tanh np_arctanh llr_vec p n_iters
    = Ok (replicate (Z.to_nat (n_vnodes p)) 0, replicate (Z.to_nat (n_vnodes p)) 0)
  /\ exists st, bp_run np_tanh np_arctanh llr_vec p n_iters = Ok (st, O).
Proof.
  intros Hn Hready.
  destruct (bp_run_no_budget llr_vec p n_iters Hn Hready) as (st & Hrun & Hdw & Hol).
  split; [|exists st; exact Hrun].
  unfold ldpc_bp_decode. rewrite Hrun. simpl. rewrite Hdw, Hol. reflexivity.
Qed.

(** C8, as the code has it: the decoder makes no check of its arguments;
    what it raises is an exception of Python or numpy, never
    [InvalidDecodeInput]. With [n_iters < 1] and a channel value for
    each variable node it makes no iteration and returns the all-zero
    vectors; with a channel vector shorter than [n_vnodes] the
    initialisation loop raises [IndexError], before any iteration. *)
Theorem decode_without_validation (llr_vec : list float)
    (p : ldpc_code_params) (n_iters : Z) :
  0 <= n_vnodes p ->
  0 <= n_cnodes p * max_cnode_deg p ->
  0 <= n_vnodes p * max_vnode_deg p ->
  n_vnodes p <= Z.of_nat (length (vnode_deg_list p)) ->
  (forall e, ldpc_bp_decode np_tanh np_arctanh llr_vec p n_iters = Raise e ->
     e = ValueError \/ e = IndexError \/ e = OverflowError)
  /\ (n_iters < 1 -> n_vnodes p <= Z.of_nat (length llr_vec) ->
      ldpc_bp_decode np_tanh np_arctanh llr_vec p n_iters
        = Ok (replicate (Z.to_nat (n_vnodes p)) 0,
              replicate (Z.to_nat (n_vnodes p)) 0)
      /\ exists st, bp_run np_tanh np_arctanh llr_vec p n_iters = Ok (st, O))
  /\ (Z.of_nat (length llr_vec) < n_vnodes p ->
      bp_init p llr_vec = Raise IndexError
      /\ ldpc_bp_decode np_tanh np_arctanh llr_vec p n_iters = Raise IndexError).
Proof.
  intros Hn Hc Hv Hd. split; [|split].
  - intros e H. apply only_builtin_ldpc_bp_decode in H. exact H.
  - intros Hi Hl.
    destruct (bp_run_no_budget llr_vec p n_iters) as (st & Hrun & Hdw & Hol);
      [lia | repeat split; assumption |].
    split; [|exists st; exact Hrun].
    unfold ldpc_bp_decode. rewrite Hrun. simpl. rewrite Hdw, Hol. reflexivity.
  - intros Hl. pose proof (bp_init_short_llr p llr_vec Hn Hc Hv Hd Hl) as Hi.
    split; [exact Hi|]. unfold ldpc_bp_decode, bp_run. rewrite Hi. reflexivity.
Qed.

End DecoderBudget.

Lemma pair_code_ready : init_ready pair_code [1%float; 2%float].
Proof. unfold init_ready. simpl. lia. Qed.

Lemma decode_zero_budget_witness :
  ldpc_bp_decode tanh_standin arctanh_standin [1%float; 2%float] pair_code 0
    = Ok ([0; 0], [0; 0])
  /\ exists st, bp_run tanh_standin arctanh_standin [1%float; 2%float] pair_code 0
                = Ok (st, O).
Proof.
  apply (decode_zero_budget tanh_standin arctanh_standin
           [1%float; 2%float] pair_code 0); [lia | exact pair_code_ready].
Defined.

Lemma decode_without_validation_witness :
  ldpc_bp_decode tanh_standin arctanh_standin [1%float] pair_code (-3)
    = Raise IndexError
  /\ bp_init pair_code [1%float] = Raise IndexError.
Proof.
  destruct (decode_without_validation tanh_standin arctanh_standin
              [1%float] pair_code (-3)) as (_ & _ & H3); simpl; try lia.
  destruct H3 as (Hinit & Hdec); [simpl; lia|]. split; assumption.
Defined.

(** C8 as stated fails: a budget of zero on a valid code and channel
    vector is not refused; the call returns the all-zero vectors. *)
Lemma zero_budget_not_rejected : ~ rejects_invalid_input.
Proof.
  intros H.
  specialize (H tanh_standin arctanh_standin [1%float; 2%float] pair_code 0).
  assert (Hr : ldpc_bp_decode tanh_standin arctanh_standin
                 [1%float; 2%float] pair_code 0 = Ok ([0; 0], [0; 0]))
    by reflexivity.
  rewrite Hr in H. discriminate H. right. lia.
Qed.

(** C10 as stated fails: with a budget of zero and one channel value for
    the two variable nodes, the initialisation loop of lines 140-143
    raises [IndexError]; nothing is returned. *)
Lemma zero_budget_short_vector_raises :
  ldpc_bp_decode tanh_standin arctanh_standin [1%float] pair_code 0
    = Raise IndexError
  /\ ~ zero_budget_always_returns.
Proof.
  assert (Hr : ldpc_bp_decode tanh_standin arctanh_standin
                 [1%float] pair_code 0 = Raise IndexError)
    by reflexivity.
  split; [exact Hr|]. intros H.
  specialize (H tanh_standin arctanh_standin [1%float] pair_code 0 ltac:(lia)).
  rewrite Hr in H. discriminate H.
Qed.

(** ** Loops that accumulate and loops that write *)

(** A loop that folds a value read at each step: it succeeds only if
    every read does, and its result is the fold of the values read. *)
Lemma for_each_fold {S X A} (g : X -> result A) (h : S -> A -> S) (d : A)
    (body : X -> S -> result S) (xs : list X) (s r : S) :
  (forall x acc, body x acc = g x ≫= fun m => Ok (h acc m)) ->
  for_each xs body s = Ok r ->
  (forall x, x ∈ xs -> exists m, g x = Ok m) /\
  r = fold_left (fun acc x => h acc (result_or d (g x))) xs s.
Proof.
  intros Hbody. revert s. induction xs as [|x xs IH]; intros s H; simpl in H.
  - injection H as <-. split; [|reflexivity]. intros x Hx. inversion Hx.
  - inv_bind H as s1 Hs1. rewrite Hbody in Hs1. inv_bind Hs1 as m Hm.
    injection Hs1 as <-. destruct (IH _ H) as (Hall & ->). split.
    + intros y Hy. apply elem_of_cons in Hy as [->|Hy]; eauto.
    + simpl. rewrite Hm. reflexivity.
Qed.

Lemma fold_left_ext_in {S X} (f g : S -> X -> S) (xs : list X) (s : S) :
  (forall x acc, x ∈ xs -> f acc x = g acc x) ->
  fold_left f xs s = fold_left g xs s.
Proof.
  revert s. induction xs as [|x xs IH]; intros s H; simpl; [reflexivity|].
  rewrite H by left. apply IH. intros y acc Hy. apply H. right. exact Hy.
Qed.

(** A loop that writes, at step [i], a computed value into slot
    [base + i] of an array: the array keeps its length, the slots
    [base .. base + n - 1] hold the values computed for them, and every
    other slot is as before. *)
Lemma for_each_writes {A} (g : Z -> result A) (base : Z)
    (body : Z -> list A -> result (list A)) (k : nat) (a0 a' : list A) :
  0 <= base ->
  (forall i a, body i a = g i ≫= fun x => np_set a (base + i) x) ->
  for_each (xrange (Z.of_nat k)) body a0 = Ok a' ->
  length a' = length a0 /\
  (forall i, 0 <= i < Z.of_nat k ->
     exists x, g i = Ok x /\ a' !! Z.to_nat (base + i) = Some x) /\
  (forall j : nat, Z.of_nat j < base \/ base + Z.of_nat k <= Z.of_nat j ->
     a' !! j = a0 !! j).
Proof.
  intros Hbase Hbody. revert a'. induction k as [|k IH]; intros a' H.
  - simpl in H. injection H as <-. split; [reflexivity|]. split.
    + intros i Hi. lia.
    + intros j _. reflexivity.
  - rewrite xrange_succ, for_each_app in H. inv_bind H as a1 Ha1.
    simpl in H. inv_bind H as a2 Ha2. injection H as <-.
    rewrite Hbody in Ha2. inv_bind Ha2 as x Hx.
    apply np_set_nonneg in Ha2 as [-> Hlt]; [|lia].
    destruct (IH _ Ha1) as (Hlen & Hin & Hout). split; [|split].
    + rewrite length_insert. exact Hlen.
    + intros i Hi. destruct (Z.eq_dec i (Z.of_nat k)) as [->|Hne].
      * exists x. split; [exact Hx|]. apply list_lookup_insert_eq. lia.
      * destruct (Hin i) as (y & Hy & Hl); [lia|]. exists y. split; [exact Hy|].
        rewrite list_lookup_insert_ne by lia. exact Hl.
    + intros j Hj. rewrite list_lookup_insert_ne by lia. apply Hout. lia.
Qed.

(** The same loop, seen from a slot: what it holds afterwards was either
    there before or was written by the loop. *)
Lemma for_each_writes_origin {A} (g : Z -> result A) (base : Z)
    (body : Z -> list A -> result (list A)) (n : Z) (a0 a' : list A)
    (j : nat) (y : A) :
  0 <= base ->
  (forall i a, body i a = g i ≫= fun x => np_set a (base + i) x) ->
  for_each (xrange n) body a0 = Ok a' ->
  a' !! j = Some y ->
  a0 !! j = Some y \/ exists i, 0 <= i < n /\ g i = Ok y.
Proof.
  intros Hbase Hbody H Hj.
  destruct (Z.le_gt_cases n 0) as [Hn|Hn].
  { rewrite xrange_nonpos in H by exact Hn. injection H as <-. left. exact Hj. }
  rewrite <- (Z2Nat.id n) in H by lia.
  destruct (for_each_writes g base body _ a0 a' Hbase Hbody H) as (_ & Hin & Hout).
  rewrite Z2Nat.id in Hin, Hout by lia.
  destruct (Z.lt_ge_cases (Z.of_nat j) base) as [Hlo|Hlo].
  { left. rewrite <- Hout by lia. exact Hj. }
  destruct (Z.lt_ge_cases (Z.of_nat j) (base + n)) as [Hhi|Hhi].
  - right. exists (Z.of_nat j - base). split; [lia|].
    destruct (Hin (Z.of_nat j - base)) as (x & Hx & Hl); [lia|].
    replace (Z.to_nat (base + (Z.of_nat j - base))) with j in Hl by lia.
    congruence.
  - left. rewrite <- Hout by lia. exact Hj.
Qed.

(** In a loop that ran through, every step ran through, from a state
    the invariant holds of. *)
Lemma for_each_each {S X} (I : S -> Prop) (xs : list X)
    (body : X -> S -> result S) (s s' : S) :
  (forall x s s', x ∈ xs -> I s -> body x s = Ok s' -> I s') ->
  I s ->
  for_each xs body s = Ok s' ->
  forall x, x ∈ xs -> exists t t', I t /\ body x t = Ok t'.
Proof.
  revert s. induction xs as [|y xs IH]; intros s Hbody Hs H x Hx; simpl in H.
  - inversion Hx.
  - inv_bind H as s1 Hs1. apply elem_of_cons in Hx as [->|Hx].
    + eauto.
    + eapply IH; [| | exact H | exact Hx].
      * intros z t t' Hz. apply Hbody. right. exact Hz.
      * eapply Hbody; [left | exact Hs | exact Hs1].
Qed.

(** ** The early exit *)

Lemma cnode_deg_Ok p c d : np_get (cnode_deg_list p) c = Ok d -> cnode_deg p c = d.
Proof. unfold cnode_deg. apply np_at_Ok. Qed.

Lemma vnode_deg_Ok p v d : np_get (vnode_deg_list p) v = Ok d -> vnode_deg p v = d.
Proof. unfold vnode_deg. apply np_at_Ok. Qed.

(** The parity a check node computes is the exclusive or of the hard
    decisions on its live edges. *)
Lemma cnode_parity_spec p dw c z :
  cnode_parity p dw c = Ok z -> z = parity_of p dw c.
Proof.
  unfold cnode_parity, parity_of. intros H. inv_bind H as d Hd.
  rewrite (cnode_deg_Ok _ _ _ Hd).
  apply (for_each_fold
           (fun i => np_get (cnode_adj_list p) (c * max_cnode_deg p + i)
                       ≫= fun v => np_get dw v)
           Z.lxor 0) in H as (Hall & ->).
  - apply fold_left_ext_in. intros i acc Hi. f_equal.
    destruct (Hall i Hi) as (b & Hb). rewrite Hb. simpl.
    inv_bind Hb as v Hv. unfold hard_bit.
    rewrite (np_at_Ok 0 _ _ _ Hv). symmetry. apply np_at_Ok. exact Hb.
  - intros i acc. destruct (np_get (cnode_adj_list p) _); reflexivity.
Qed.

Lemma cnode_parity_defined p dw c :
  0 <= c < n_cnodes p ->
  parity_reads_ok p dw ->
  exists z, cnode_parity p dw c = Ok z.
Proof.
  intros Hc Hok. destruct (Hok c Hc) as (d & Hd & Hreads).
  unfold cnode_parity. rewrite Hd. simpl.
  destruct (for_each_total (fun _ : Z => True) (xrange d)
              (fun i p_sum =>
                 np_get (cnode_adj_list p) (c * max_cnode_deg p + i) ≫= fun v =>
                 np_get dw v ≫= fun b => Ok (Z.lxor p_sum b)) 0)
    as (z & Hz & _); [| exact I | exists z; exact Hz].
  intros i s Hi _. apply elem_of_xrange in Hi.
  destruct (Hreads i Hi) as (v & b & -> & Hb). simpl. rewrite Hb. simpl. eauto.
Qed.

(** The scan answers 0 when every check node it visits has parity 0, and
    1 when one of them has not. *)
Lemma parity_scan_spec p dw cs :
  (forall c, c ∈ cs -> exists z, cnode_parity p dw c = Ok z) ->
  (parity_scan p dw cs = Ok 0 /\ forall c, c ∈ cs -> parity_of p dw c = 0)
  \/ (parity_scan p dw cs = Ok 1 /\ exists c, c ∈ cs /\ parity_of p dw c <> 0).
Proof.
  induction cs as [|c cs IH]; intros Hdef; simpl.
  - left. split; [reflexivity|]. intros c Hc. inversion Hc.
  - destruct (Hdef c) as (z & Hz); [left|]. rewrite Hz. simpl.
    apply cnode_parity_spec in Hz. subst z.
    destruct (Z.eqb_spec (parity_of p dw c) 0) as [Hzero|Hodd].
    + destruct IH as [(Hs & Hall)|(Hs & c' & Hc' & Hne)].
      * intros c' Hc'. apply Hdef. right. exact Hc'.
      * left. split; [exact Hs|]. intros c' Hc'.
        apply elem_of_cons in Hc' as [->|Hc']; auto.
      * right. split; [exact Hs|]. exists c'. split; [right|]; assumption.
    + right. split; [reflexivity|]. exists c. split; [left | exact Hodd].
Qed.

Lemma parity_scan_decides p dw :
  parity_reads_ok p dw ->
  (parity_satisfied p dw -> parity_scan p dw (xrange (n_cnodes p)) = Ok 0) /\
  (~ parity_satisfied p dw -> parity_scan p dw (xrange (n_cnodes p)) = Ok 1).
Proof.
  intros Hok.
  destruct (parity_scan_spec p dw (xrange (n_cnodes p)))
    as [(Hs & Hall)|(Hs & c & Hc & Hne)].
  - intros c Hc. apply elem_of_xrange in Hc. apply cnode_parity_defined; assumption.
  - split; [intros _; exact Hs|]. intros Hnot. exfalso. apply Hnot.
    intros c Hc. apply Hall. apply elem_of_xrange. exact Hc.
  - split; [|intros _; exact Hs]. intros Hsat. exfalso. apply Hne.
    apply Hsat. apply elem_of_xrange. exact Hc.
Qed.

Section EarlyExit.

Variable np_tanh : float -> float.
Variable np_arctanh : float -> float.

(** One pass of the loop body: the state [st2] the two update phases
    leave is handed back when every parity is 0, and is the start of the
    rest of the loop when some parity is not. *)
Lemma bp_iterations_step (p : ldpc_code_params) (llr_vec : list float)
    (budget : nat) (st st2 : bp_state) :
  bp_update np_tanh np_arctanh p llr_vec st = Ok st2 ->
  parity_reads_ok p (dec_word st2) ->
  (parity_satisfied p (dec_word st2) ->
   bp_iterations np_tanh np_arctanh p llr_vec (S budget) st = Ok (st2, 1%nat))
  /\ (~ parity_satisfied p (dec_word st2) ->
      bp_iterations np_tanh np_arctanh p llr_vec (S budget) st
        = bp_iterations np_tanh np_arctanh p llr_vec budget st2
            ≫= fun r => Ok (r.1, S r.2)).
Proof.
  intros Hup Hok. destruct (parity_scan_decides p (dec_word st2) Hok) as [Hz Ho].
  split; intros Hp; simpl; rewrite Hup; simpl.
  - rewrite (Hz Hp). reflexivity.
  - rewrite (Ho Hp). reflexivity.
Qed.

Lemma parity_satisfied_dec p dw :
  parity_reads_ok p dw -> parity_satisfied p dw \/ ~ parity_satisfied p dw.
Proof.
  intros Hok.
  destruct (parity_scan_spec p dw (xrange (n_cnodes p)))
    as [(_ & Hall)|(_ & c & Hc & Hne)].
  - intros c Hc. apply elem_of_xrange in Hc. apply cnode_parity_defined; assumption.
  - left. intros c Hc. apply Hall. apply elem_of_xrange. exact Hc.
  - right. intros Hsat. apply Hne. apply Hsat. apply elem_of_xrange. exact Hc.
Qed.

(** With a budget of one or more, a loop that returns has made an
    iteration. *)
Lemma bp_iterations_positive p llr_vec budget st st' k :
  bp_iterations np_tanh np_arctanh p llr_vec (S budget) st = Ok (st', k) ->
  (1 <= k)%nat.
Proof.
  simpl. intros H. inv_bind H as st2 Hst2. inv_bind H as flag Hflag.
  destruct (flag =? 0).
  - injection H as _ <-. lia.
  - inv_bind H as r Hr. injection H as _ <-. lia.
Qed.

(** The loop up to the end of iteration [k + 1]: when no earlier
    iteration ended with every parity 0, the loop reaches the state
    [st] that iteration leaves, hands it back when every parity is 0,
    and goes on from it otherwise. *)
Lemma bp_iterations_reach p llr_vec (k extra : nat) st0 st :
  state_after np_tanh np_arctanh p llr_vec (S k) st0 = Ok st ->
  (forall (j : nat) stj, (1 <= j <= k)%nat ->
     state_after np_tanh np_arctanh p llr_vec j st0 = Ok stj ->
     parity_reads_ok p (dec_word stj) /\ ~ parity_satisfied p (dec_word stj)) ->
  parity_reads_ok p (dec_word st) ->
  (parity_satisfied p (dec_word st) ->
   bp_iterations np_tanh np_arctanh p llr_vec (S k + extra) st0 = Ok (st, S k))
  /\ (~ parity_satisfied p (dec_word st) ->
      bp_iterations np_tanh np_arctanh p llr_vec (S k + extra) st0
        = bp_iterations np_tanh np_arctanh p llr_vec extra st
            ≫= fun r => Ok (r.1, (S k + r.2)%nat)).
Proof.
  revert st0. induction k as [|k IH]; intros st0 Hafter Hearlier Hok.
  - simpl in Hafter. inv_bind Hafter as st1 Hst1. injection Hafter as ->.
    exact (bp_iterations_step p llr_vec extra st0 st Hst1 Hok).
  - change (state_after np_tanh np_arctanh p llr_vec (S (S k)) st0)
      with (bp_update np_tanh np_arctanh p llr_vec st0
              ≫= state_after np_tanh np_arctanh p llr_vec (S k)) in Hafter.
    inv_bind Hafter as st1 Hst1.
    assert (Hone : state_after np_tanh np_arctanh p llr_vec 1 st0 = Ok st1).
    { simpl. rewrite Hst1. reflexivity. }
    destruct (Hearlier 1%nat st1 ltac:(lia) Hone) as (Hok1 & Hodd1).
    destruct (bp_iterations_step p llr_vec (S k + extra) st0 st1 Hst1 Hok1)
      as (_ & Hgo).
    specialize (Hgo Hodd1).
    destruct (IH st1 Hafter) as (Hstop & Hon); [| exact Hok |].
    { intros j stj Hj Hstj. apply (Hearlier (S j)); [lia|].
      change (state_after np_tanh np_arctanh p llr_vec (S j) st0)
        with (bp_update np_tanh np_arctanh p llr_vec st0
                ≫= state_after np_tanh np_arctanh p llr_vec j).
      rewrite Hst1. exact Hstj. }
    change (S (S k) + extra)%nat with (S (S k + extra)). rewrite Hgo.
    split; intros Hp.
    + rewrite (Hstop Hp). reflexivity.
    + rewrite (Hon Hp).
      destruct (bp_iterations np_tanh np_arctanh p llr_vec extra st) as [r|e];
        reflexivity.
Qed.

(** C3: let a call of [ldpc_bp_decode] reach the end of iteration [k],
    within its budget, with the arrays [st], no earlier iteration having
    ended with every parity 0. If every check node's parity over
    [dec_word] is 0, or the budget is used up, the call makes no further
    iteration and returns the [dec_word] and [out_llrs] of [st]. If some
    parity is not 0 and budget is left, the call goes on from [st] with
    what is left of the budget, so that it makes more than [k]
    iterations. Hence a call that stops at iteration [k] with budget left
    has every parity 0. *)
Theorem early_exit_iff_parity (llr_vec : list float) (p : ldpc_code_params)
    (n_iters : Z) (st0 st : bp_state) (k : nat) :
  bp_init p llr_vec = Ok st0 ->
  (1 <= k <= Z.to_nat n_iters)%nat ->
  state_after np_tanh np_arctanh p llr_vec k st0 = Ok st ->
  (forall (j : nat) stj, (1 <= j < k)%nat ->
     state_after np_tanh np_arctanh p llr_vec j st0 = Ok stj ->
     parity_reads_ok p (dec_word stj) /\ ~ parity_satisfied p (dec_word stj)) ->
  parity_reads_ok p (dec_word st) ->
  (parity_satisfied p (dec_word st) \/ k = Z.to_nat n_iters ->
   bp_run np_tanh np_arctanh llr_vec p n_iters = Ok (st, k)
   /\ ldpc_bp_decode np_tanh np_arctanh llr_vec p n_iters
      = Ok (dec_word st, out_llrs st))
  /\ (~ parity_satisfied p (dec_word st) -> (k < Z.to_nat n_iters)%nat ->
      bp_run np_tanh np_arctanh llr_vec p n_iters
        = bp_iterations np_tanh np_arctanh p llr_vec (Z.to_nat n_iters - k) st
            ≫= (fun r => Ok (r.1, (k + r.2)%nat))
      /\ forall st' k',
           bp_run np_tanh np_arctanh llr_vec p n_iters = Ok (st', k') ->
           (k < k')%nat)
  /\ (bp_run np_tanh np_arctanh llr_vec p n_iters = Ok (st, k) ->
      (k < Z.to_nat n_iters)%nat ->
      parity_satisfied p (dec_word st)).
Proof.
  intros Hinit Hk Hafter Hearlier Hok.
  destruct k as [|k]; [lia|].
  assert (Hbudget : Z.to_nat n_iters = (S k + (Z.to_nat n_iters - S k))%nat)
    by lia.
  assert (Hrun : bp_run np_tanh np_arctanh llr_vec p n_iters
                 = bp_iterations np_tanh np_arctanh p llr_vec
                     (S k + (Z.to_nat n_iters - S k)) st0).
  { unfold bp_run. rewrite Hinit, <- Hbudget. reflexivity. }
  destruct (bp_iterations_reach p llr_vec k (Z.to_nat n_iters - S k) st0 st
              Hafter) as (Hstop & Hon); [| exact Hok |].
  { intros j stj Hj. apply Hearlier. lia. }
  assert (Hgo : ~ parity_satisfied p (dec_word st) ->
                (S k < Z.to_nat n_iters)%nat ->
                forall st' k',
                  bp_run np_tanh np_arctanh llr_vec p n_iters = Ok (st', k') ->
                  (S k < k')%nat).
  { intros Hodd Hlt st' k' Hret. rewrite Hrun, (Hon Hodd) in Hret.
    inv_bind Hret as r Hr. injection Hret as _ <-. destruct r as [st1 k1].
    destruct (Z.to_nat n_iters - S k)%nat as [|b] eqn:Hb; [lia|].
    apply bp_iterations_positive in Hr. simpl. lia. }
  assert (Hret : bp_run np_tanh np_arctanh llr_vec p n_iters = Ok (st, S k) ->
                 ldpc_bp_decode np_tanh np_arctanh llr_vec p n_iters
                 = Ok (dec_word st, out_llrs st)).
  { intros H. unfold ldpc_bp_decode. rewrite H. reflexivity. }
  split; [|split].
  - intros Hcase.
    assert (H : bp_run np_tanh np_arctanh llr_vec p n_iters = Ok (st, S k)).
    { destruct (parity_satisfied_dec p (dec_word st) Hok) as [Hsat|Hodd].
      - rewrite Hrun. apply Hstop. exact Hsat.
      - destruct Hcase as [Hsat|Hend]; [contradiction|].
        rewrite Hrun, (Hon Hodd).
        replace (Z.to_nat n_iters - S k)%nat with O by lia.
        simpl. do 2 f_equal. lia. }
    split; [exact H | apply Hret; exact H].
  - intros Hodd Hlt. split; [|apply Hgo; assumption].
    rewrite Hrun. apply Hon. exact Hodd.
  - intros H Hlt.
    destruct (parity_satisfied_dec p (dec_word st) Hok) as [Hsat|Hodd];
      [exact Hsat|].
    pose proof (Hgo Hodd Hlt st (S k) H). lia.
Qed.

End EarlyExit.

(** ** Clipping *)

Lemma limit_llr_within (x : float) : exceeds_clip (_limit_llr x) = false.
Proof.
  unfold exceeds_clip, _limit_llr.
  destruct (PrimFloat.ltb x MIN_NEG_LLR) eqn:Hlo; [reflexivity|].
  destruct (PrimFloat.ltb MAX_POS_LLR x) eqn:Hhi; [reflexivity|].
  rewrite Hlo, Hhi. reflexivity.
Qed.

(** A value that is not a number passes through unchanged. *)
Lemma limit_llr_nan : _limit_llr nan = nan.
Proof. reflexivity. Qed.

(** ** The two update phases *)

Section Phases.

Variable np_tanh : float -> float.
Variable np_arctanh : float -> float.

Lemma cnode_msg_prod_spec p vmsgs c d r :
  cnode_deg p c = d ->
  cnode_msg_prod np_tanh p vmsgs c d = Ok r ->
  r = tanh_product np_tanh p vmsgs c.
Proof.
  intros Hd H. unfold cnode_msg_prod in H. unfold tanh_product. rewrite Hd.
  apply (for_each_fold (cnode_incoming p vmsgs c)
           (fun acc m => acc * np_tanh (m / 2))%float nan) in H as (_ & ->).
  - reflexivity.
  - intros i acc. reflexivity.
Qed.

(** One check node writes its own block of slots and nothing else. *)
Lemma cnode_update_spec p vmsgs c cm cm' :
  0 <= c ->
  cnode_deg p c <= max_cnode_deg p ->
  cnode_update np_tanh np_arctanh p vmsgs c cm = Ok cm' ->
  length cm' = length cm /\
  (forall i, 0 <= i < cnode_deg p c ->
     cm' !! Z.to_nat (c * max_cnode_deg p + i)
       = Some (extrinsic_check_msg np_tanh np_arctanh p vmsgs c i)) /\
  (forall j : nat,
     Z.of_nat j < c * max_cnode_deg p
     \/ c * max_cnode_deg p + cnode_deg p c <= Z.of_nat j ->
     cm' !! j = cm !! j).
Proof.
  intros Hc Hbound H. unfold cnode_update in H.
  inv_bind H as d Hd. apply cnode_deg_Ok in Hd. rewrite Hd in *.
  inv_bind H as msg_prod Hprod.
  apply (cnode_msg_prod_spec _ _ _ _ _ Hd) in Hprod. subst msg_prod.
  destruct (Z.le_gt_cases d 0) as [Hd0|Hd0].
  { rewrite xrange_nonpos in H by exact Hd0. injection H as <-.
    split; [reflexivity|]. split; [intros i Hi; lia | reflexivity]. }
  rewrite <- (Z2Nat.id d) in H by lia.
  apply (for_each_writes
           (fun i => cnode_incoming p vmsgs c i ≫= fun m =>
              Ok (2 * np_arctanh (tanh_product np_tanh p vmsgs c
                                  / np_tanh (m / 2)))%float)
           (c * max_cnode_deg p)) in H as (Hlen & Hin & Hout).
  - rewrite Z2Nat.id in Hin, Hout by lia. split; [exact Hlen|]. split.
    + intros i Hi. destruct (Hin i Hi) as (x & Hx & Hl). rewrite Hl. f_equal.
      inv_bind Hx as m Hm. injection Hx as <-.
      unfold extrinsic_check_msg, incoming_at. rewrite Hm. reflexivity.
    + exact Hout.
  - nia.
  - intros i a. destruct (cnode_incoming p vmsgs c i); reflexivity.
Qed.

(** The check nodes [0 .. k-1], each with its block written. *)
Lemma cnode_blocks_written p vmsgs (k : nat) cm0 cm :
  Z.of_nat k <= n_cnodes p ->
  cnode_degrees_bounded p ->
  for_each (xrange (Z.of_nat k)) (cnode_update np_tanh np_arctanh p vmsgs) cm0 = Ok cm ->
  forall c i, 0 <= c < Z.of_nat k -> 0 <= i < cnode_deg p c ->
    cm !! Z.to_nat (c * max_cnode_deg p + i)
      = Some (extrinsic_check_msg np_tanh np_arctanh p vmsgs c i).
Proof.
  intros Hk Hb. revert cm. induction k as [|k IH]; intros cm H c i Hc Hi; [lia|].
  rewrite xrange_succ, for_each_app in H. inv_bind H as cm1 Hcm1.
  simpl in H. inv_bind H as cm2 Hcm2. injection H as <-.
  apply cnode_update_spec in Hcm2 as (_ & Hin & Hout); [|lia|apply Hb; lia].
  destruct (Z.eq_dec c (Z.of_nat k)) as [->|Hne].
  - apply Hin. exact Hi.
  - rewrite Hout.
    + apply (IH ltac:(lia) cm1 Hcm1); [lia | exact Hi].
    + left. assert (cnode_deg p c <= max_cnode_deg p) by (apply Hb; lia).
      rewrite Z2Nat.id by nia. nia.
Qed.

(** Where the read of the code on an edge succeeds, it is the read the
    specification describes. *)
Lemma cnode_incoming_edge p vmsgs c j m :
  cnode_incoming p vmsgs c j = Ok m ->
  incoming_at p vmsgs c j = m /\ edge_message p vmsgs c j = m.
Proof.
  intros H. split; [unfold incoming_at; rewrite H; reflexivity|].
  unfold cnode_incoming in H. inv_bind H as v Hv. inv_bind H as slot Hslot.
  unfold edge_message. rewrite (np_at_Ok 0 _ _ _ Hv), (np_at_Ok 0 _ _ _ Hslot).
  apply np_at_Ok. exact H.
Qed.

(** A check node whose update ran through has read a message on each of
    its edges. *)
Lemma cnode_update_reads p vmsgs c cm cm' :
  cnode_update np_tanh np_arctanh p vmsgs c cm = Ok cm' ->
  forall j, 0 <= j < cnode_deg p c ->
    exists m, cnode_incoming p vmsgs c j = Ok m.
Proof.
  intros H j Hj. unfold cnode_update in H. inv_bind H as d Hd.
  apply cnode_deg_Ok in Hd. rewrite Hd in Hj. inv_bind H as msg_prod Hprod.
  unfold cnode_msg_prod in Hprod.
  apply (for_each_fold (cnode_incoming p vmsgs c)
           (fun acc m => acc * np_tanh (m / 2))%float nan) in Hprod as (Hall & _).
  - apply Hall. apply elem_of_xrange. exact Hj.
  - intros i acc. reflexivity.
Qed.

Lemma check_node_update_reads p st st' c j :
  check_node_update np_tanh np_arctanh p st = Ok st' ->
  0 <= c < n_cnodes p ->
  0 <= j < cnode_deg p c ->
  exists m, cnode_incoming p (vnode_msgs st) c j = Ok m.
Proof.
  intros H Hc Hj. unfold check_node_update in H. inv_bind H as cm Hcm.
  destruct (for_each_each (fun _ : list float => True) _ _ _ _
              (fun _ _ _ _ _ _ => I) I Hcm c) as (t & t' & _ & Hbody).
  { apply elem_of_xrange. exact Hc. }
  eapply cnode_update_reads; eassumption.
Qed.

(** The value the code computes for slot [(c, i)], with the messages
    located as the specification says. *)
Lemma extrinsic_check_msg_edge p st st' c i :
  check_node_update np_tanh np_arctanh p st = Ok st' ->
  0 <= c < n_cnodes p ->
  0 <= i < cnode_deg p c ->
  extrinsic_check_msg np_tanh np_arctanh p (vnode_msgs st) c i
  = (2 * np_arctanh
         (edge_tanh_product np_tanh p (vnode_msgs st) c
          / np_tanh (edge_message p (vnode_msgs st) c i / 2)))%float.
Proof.
  intros H Hc Hi.
  assert (Hedge : forall j, 0 <= j < cnode_deg p c ->
            incoming_at p (vnode_msgs st) c j = edge_message p (vnode_msgs st) c j).
  { intros j Hj.
    destruct (check_node_update_reads p st st' c j H Hc Hj) as (m & Hm).
    apply cnode_incoming_edge in Hm as (-> & ->). reflexivity. }
  unfold extrinsic_check_msg. rewrite (Hedge i Hi).
  replace (tanh_product np_tanh p (vnode_msgs st) c)
    with (edge_tanh_product np_tanh p (vnode_msgs st) c); [reflexivity|].
  unfold tanh_product, edge_tanh_product. apply fold_left_ext_in.
  intros j acc Hj. apply elem_of_xrange in Hj. rewrite (Hedge j Hj). reflexivity.
Qed.

(** C1: in the check-node update of an iteration, the message written to
    [cnode_msgs] at slot [(c, i)], for a check node [c] and an edge slot
    [i < cnode_deg[c]], is [2 * atanh(P / tanh(m_i / 2))]. Here [m_j],
    the variable-node message on edge [j] of [c], is the element of
    [vnode_msgs] at index [v * max_vnode_deg + s] with
    [v = cnode_adj_list[c * max_cnode_deg + j]] and
    [s = cnode_vnode_map[c * max_cnode_deg + j]], and [P] is the product
    of [tanh(m_j / 2)] over all the edges [j < cnode_deg[c]] of [c]. The
    messages read are those the phase began with. The equation is between
    the float64 values the code computes, and holds whatever
    [tanh(m_i / 2)] and the quotient are. *)
Theorem check_node_message_formula (p : ldpc_code_params) (st st' : bp_state)
    (c i : Z) :
  cnode_degrees_bounded p ->
  check_node_update np_tanh np_arctanh p st = Ok st' ->
  0 <= c < n_cnodes p ->
  0 <= i < cnode_deg p c ->
  vnode_msgs st' = vnode_msgs st /\
  np_get (cnode_msgs st') (c * max_cnode_deg p + i)
    = Ok (2 * np_arctanh
            (edge_tanh_product np_tanh p (vnode_msgs st) c
             / np_tanh (edge_message p (vnode_msgs st) c i / 2)))%float.
Proof.
  intros Hb H Hc Hi.
  rewrite <- (extrinsic_check_msg_edge p st st' c i H Hc Hi).
  unfold check_node_update in H. inv_bind H as cm Hcm.
  injection H as <-. split; [reflexivity|]. simpl.
  assert (Hm : cnode_deg p c <= max_cnode_deg p) by (apply Hb; exact Hc).
  apply np_get_nonneg; [nia|].
  rewrite <- (Z2Nat.id (n_cnodes p)) in Hcm by lia.
  assert (Hk : Z.of_nat (Z.to_nat (n_cnodes p)) <= n_cnodes p) by lia.
  apply (cnode_blocks_written p (vnode_msgs st) _ _ _ Hk Hb Hcm); lia.
Qed.

(** One variable node: the messages it writes are clipped, the other
    slots keep what they held, and the check-node messages are not
    touched. Its posterior value is stored as an integer. *)
Lemma vnode_update_spec p llr_vec v st st' :
  0 <= v ->
  0 <= max_vnode_deg p ->
  vnode_update p llr_vec v st = Ok st' ->
  cnode_msgs st' = cnode_msgs st /\
  length (vnode_msgs st') = length (vnode_msgs st) /\
  (forall i, 0 <= i < vnode_deg p v ->
     exists x, vnode_msgs st' !! Z.to_nat (v * max_vnode_deg p + i)
               = Some (_limit_llr x)) /\
  (forall (j : nat) y, vnode_msgs st' !! j = Some y ->
     vnode_msgs st !! j = Some y \/ exists x, y = _limit_llr x) /\
  exists llr msg_sum z,
    np_get llr_vec v = Ok llr /\
    vnode_msg_sum p (cnode_msgs st) v (vnode_deg p v) = Ok msg_sum /\
    int_of_float (llr + msg_sum) = Ok z /\
    np_set (out_llrs st) v z = Ok (out_llrs st') /\
    np_set (dec_word st) v (if 0 <? z then 0 else 1) = Ok (dec_word st').
Proof.
  intros Hv Hmax H. unfold vnode_update in H.
  inv_bind H as d Hd. apply vnode_deg_Ok in Hd. rewrite Hd in *.
  inv_bind H as msg_sum Hsum. inv_bind H as vm Hvm.
  inv_bind H as llr Hllr. inv_bind H as z Hz. inv_bind H as ol Hol.
  inv_bind H as o Ho. inv_bind H as dw Hdw. injection H as <-. simpl.
  assert (o = z) as ->.
  { apply np_set_nonneg in Hol as [-> Hlt]; [|exact Hv].
    apply np_get_nonneg in Ho; [|exact Hv].
    rewrite list_lookup_insert_eq in Ho by lia. congruence. }
  set (g := fun i : Z =>
         np_get (vnode_adj_list p) (v * max_vnode_deg p + i) ≫= fun cnode =>
         np_get llr_vec v ≫= fun l =>
         np_get (vnode_cnode_map p) (v * max_vnode_deg p + i) ≫= fun slot =>
         np_get (cnode_msgs st) (cnode * max_cnode_deg p + slot) ≫= fun m =>
         Ok (_limit_llr (l + msg_sum - m)%float)).
  assert (Hbody : forall i a,
            (np_get (vnode_adj_list p) (v * max_vnode_deg p + i) ≫= fun cnode =>
             np_get llr_vec v ≫= fun l =>
             np_get (vnode_cnode_map p) (v * max_vnode_deg p + i) ≫= fun slot =>
             np_get (cnode_msgs st) (cnode * max_cnode_deg p + slot) ≫= fun m =>
             np_set a (v * max_vnode_deg p + i) (_limit_llr (l + msg_sum - m)%float))
            = g i ≫= fun x => np_set a (v * max_vnode_deg p + i) x).
  { intros i a. unfold g.
    destruct (np_get (vnode_adj_list p) _) as [cnode|]; [|reflexivity]. simpl.
    destruct (np_get llr_vec v); [|reflexivity]. simpl.
    destruct (np_get (vnode_cnode_map p) _) as [slot|]; [|reflexivity]. simpl.
    destruct (np_get (cnode_msgs st) _); reflexivity. }
  assert (Hg : forall i y, g i = Ok y -> exists x, y = _limit_llr x).
  { intros i y Hy. unfold g in Hy. inv_bind Hy as cnode Hcnode.
    inv_bind Hy as l Hl. inv_bind Hy as slot Hslot. inv_bind Hy as m Hm.
    injection Hy as <-. eauto. }
  split; [reflexivity|].
  assert (Hmsgs :
    length vm = length (vnode_msgs st) /\
    (forall i, 0 <= i < d ->
       exists x, vm !! Z.to_nat (v * max_vnode_deg p + i) = Some (_limit_llr x)) /\
    (forall (j : nat) y, vm !! j = Some y ->
       vnode_msgs st !! j = Some y \/ exists x, y = _limit_llr x)).
  { split; [|split].
    - destruct (Z.le_gt_cases d 0) as [Hd0|Hd0].
      { rewrite xrange_nonpos in Hvm by exact Hd0. injection Hvm as <-. reflexivity. }
      rewrite <- (Z2Nat.id d) in Hvm by lia.
      apply (for_each_writes g (v * max_vnode_deg p)) in Hvm as (Hlen & _);
        [exact Hlen | nia | exact Hbody].
    - intros i Hi. rewrite <- (Z2Nat.id d) in Hvm by lia.
      apply (for_each_writes g (v * max_vnode_deg p)) in Hvm as (_ & Hin & _);
        [| nia | exact Hbody].
      destruct (Hin i) as (y & Hy & Hl); [lia|].
      destruct (Hg i y Hy) as (x & ->). eauto.
    - intros j y Hj.
      destruct (for_each_writes_origin g (v * max_vnode_deg p) _ d _ _ j y
                  ltac:(nia) Hbody Hvm Hj) as [Hold|(i & _ & Hi)].
      + left. exact Hold.
      + right. eapply Hg. exact Hi. }
  destruct Hmsgs as (Hlen & Hin & Horigin).
  split; [exact Hlen|]. split; [exact Hin|]. split; [exact Horigin|].
  exists llr, msg_sum, z. auto.
Qed.

End Phases.

(** ** Posterior values and initial messages *)

Lemma vnode_msg_sum_spec p cmsgs v d r :
  vnode_deg p v = d ->
  vnode_msg_sum p cmsgs v d = Ok r ->
  r = incoming_sum p cmsgs v.
Proof.
  intros Hd H. unfold vnode_msg_sum in H. unfold incoming_sum. rewrite Hd.
  apply (for_each_fold (vnode_incoming p cmsgs v)
           (fun acc m => acc + m)%float nan) in H as (_ & ->).
  - reflexivity.
  - intros i acc. reflexivity.
Qed.

(** The variable nodes [0 .. k-1]: the posterior value of each, the
    channel value plus the full sum, is stored truncated to an integer,
    and the hard decision is taken on that integer. *)
Lemma vnode_posteriors_stored p llr_vec (k : nat) st0 st :
  0 <= max_vnode_deg p ->
  for_each (xrange (Z.of_nat k)) (vnode_update p llr_vec) st0 = Ok st ->
  cnode_msgs st = cnode_msgs st0 /\
  length (out_llrs st) = length (out_llrs st0) /\
  length (dec_word st) = length (dec_word st0) /\
  (forall j : nat, (k <= j)%nat ->
     out_llrs st !! j = out_llrs st0 !! j /\ dec_word st !! j = dec_word st0 !! j) /\
  forall v, 0 <= v < Z.of_nat k ->
    exists llr z,
      np_get llr_vec v = Ok llr /\
      int_of_float (llr + incoming_sum p (cnode_msgs st0) v) = Ok z /\
      np_get (out_llrs st) v = Ok z /\
      np_get (dec_word st) v = Ok (if 0 <? z then 0 else 1).
Proof.
  intros Hmax. revert st. induction k as [|k IH]; intros st H.
  - simpl in H. injection H as <-. repeat split; try reflexivity. intros v Hv. lia.
  - rewrite xrange_succ, for_each_app in H. inv_bind H as st1 Hst1.
    simpl in H. inv_bind H as st2 Hst2. injection H as <-.
    destruct (IH _ Hst1) as (Hcm & Hlo & Hld & Hlater & Hdone).
    apply vnode_update_spec in Hst2
      as (Hcm2 & _ & _ & _ & llr & msg_sum & z & Hllr & Hsum & Hz & Hol & Hdw);
      [| lia | exact Hmax].
    apply vnode_msg_sum_spec in Hsum; [|reflexivity]. subst msg_sum.
    rewrite Hcm in Hz.
    apply np_set_nonneg in Hol as [Hol Holt]; [|lia].
    apply np_set_nonneg in Hdw as [Hdw Hdwt]; [|lia].
    rewrite Nat2Z.id in Hol, Hdw. split; [congruence|].
    split; [rewrite Hol, length_insert; exact Hlo|].
    split; [rewrite Hdw, length_insert; exact Hld|]. split.
    + intros j Hj. rewrite Hol, Hdw. rewrite !list_lookup_insert_ne by lia.
      apply Hlater. lia.
    + intros v Hv. destruct (Z.eq_dec v (Z.of_nat k)) as [->|Hne].
      * exists llr, z. split; [exact Hllr|]. split; [exact Hz|].
        rewrite Hol, Hdw. split; (apply np_get_nonneg; [lia|]);
          rewrite Nat2Z.id; apply list_lookup_insert_eq; lia.
      * destruct (Hdone v) as (llr' & z' & H1 & H2 & H3 & H4); [lia|].
        exists llr', z'. split; [exact H1|]. split; [exact H2|].
        apply np_get_nonneg in H3; [|lia]. apply np_get_nonneg in H4; [|lia].
        rewrite Hol, Hdw. split; (apply np_get_nonneg; [lia|]);
          rewrite list_lookup_insert_ne by lia; assumption.
Qed.

(** After a variable-node update, [out_llrs[v]] is the integer part of
    the posterior value and [dec_word[v]] is 0 exactly when that integer
    is positive. *)
Lemma posterior_truncated p llr_vec st st' v :
  0 <= max_vnode_deg p ->
  variable_node_update p llr_vec st = Ok st' ->
  0 <= v < n_vnodes p ->
  exists llr z,
    np_get llr_vec v = Ok llr /\
    int_of_float (llr + incoming_sum p (cnode_msgs st) v) = Ok z /\
    np_get (out_llrs st') v = Ok z /\
    np_get (dec_word st') v = Ok (if 0 <? z then 0 else 1).
Proof.
  intros Hmax H Hv. unfold variable_node_update in H.
  rewrite <- (Z2Nat.id (n_vnodes p)) in H by lia.
  apply vnode_posteriors_stored in H as (_ & _ & _ & _ & Hdone); [|exact Hmax].
  apply Hdone. lia.
Qed.

Lemma lookup_fill_slice {A} (a : list A) (start stop : Z) (x : A) (j : nat) :
  np_fill_slice a start stop x !! j
  = (fun y => if (slice_bound (Z.of_nat (length a)) start <=? Z.of_nat j)
                 && (Z.of_nat j <? slice_bound (Z.of_nat (length a)) stop)
              then x else y) <$> a !! j.
Proof. unfold np_fill_slice. apply list_lookup_imap. Qed.

Lemma length_fill_slice {A} (a : list A) (start stop : Z) (x : A) :
  length (np_fill_slice a start stop x) = length a.
Proof. unfold np_fill_slice. apply length_imap. Qed.

(** The initialisation of the variable nodes [0 .. k-1]: each live slot
    holds the channel value of its node, as it was given. *)
Lemma init_blocks_filled p llr_vec (k : nat) vm0 vm :
  Z.of_nat k <= n_vnodes p ->
  vnode_degrees_bounded p ->
  Z.of_nat (length vm0) = n_vnodes p * max_vnode_deg p ->
  for_each (xrange (Z.of_nat k)) (init_vnode p llr_vec) vm0 = Ok vm ->
  length vm = length vm0 /\
  forall v i, 0 <= v < Z.of_nat k -> 0 <= i < vnode_deg p v ->
    exists llr, np_get llr_vec v = Ok llr
                /\ vm !! Z.to_nat (v * max_vnode_deg p + i) = Some llr.
Proof.
  intros Hk Hb Hlen0. revert vm. induction k as [|k IH]; intros vm H.
  - simpl in H. injection H as <-. split; [reflexivity|]. intros v i Hv. lia.
  - rewrite xrange_succ, for_each_app in H. inv_bind H as vm1 Hvm1.
    simpl in H. inv_bind H as vm2 Hvm2. injection H as <-.
    destruct (IH ltac:(lia) _ Hvm1) as (Hlen & Hdone).
    unfold init_vnode in Hvm2. inv_bind Hvm2 as d Hd. inv_bind Hvm2 as llr Hllr.
    injection Hvm2 as <-. apply vnode_deg_Ok in Hd.
    split; [rewrite length_fill_slice; exact Hlen|].
    intros v i Hv Hi.
    assert (Hdv : vnode_deg p v <= max_vnode_deg p) by (apply Hb; lia).
    assert (Hdk : vnode_deg p (Z.of_nat k) <= max_vnode_deg p) by (apply Hb; lia).
    rewrite lookup_fill_slice, Hlen.
    set (len := Z.of_nat (length vm0)) in *.
    assert (Hin : 0 <= v * max_vnode_deg p + i < len) by nia.
    destruct (lookup_lt_is_Some_2 vm1 (Z.to_nat (v * max_vnode_deg p + i)))
      as (y & Hy); [lia|].
    rewrite Hy. simpl. rewrite Z2Nat.id by lia.
    destruct (Z.eq_dec v (Z.of_nat k)) as [->|Hne].
    + exists llr. split; [exact Hllr|]. f_equal.
      rewrite Hd in Hi, Hdk.
      rewrite !slice_bound_inside by nia.
      destruct (Z.leb_spec (Z.of_nat k * max_vnode_deg p)
                  (Z.of_nat k * max_vnode_deg p + i)); [|lia].
      destruct (Z.ltb_spec (Z.of_nat k * max_vnode_deg p + i)
                  (Z.of_nat k * max_vnode_deg p + d)); [|lia].
      reflexivity.
    + destruct (Hdone v i) as (llr' & Hllr' & Hl'); [lia | exact Hi |].
      exists llr'. split; [exact Hllr'|]. rewrite Hl' in Hy. injection Hy as <-.
      f_equal.
      assert (Hstart : slice_bound len (Z.of_nat k * max_vnode_deg p)
                       = Z.of_nat k * max_vnode_deg p)
        by (apply slice_bound_inside; nia).
      rewrite Hstart.
      destruct (Z.leb_spec (Z.of_nat k * max_vnode_deg p)
                  (v * max_vnode_deg p + i)); [nia | reflexivity].
Qed.

(** The messages a decode call starts with are the channel values. *)
Lemma initial_messages_are_llrs p llr_vec st v i :
  vnode_degrees_bounded p ->
  bp_init p llr_vec = Ok st ->
  0 <= v < n_vnodes p ->
  0 <= i < vnode_deg p v ->
  exists llr, np_get llr_vec v = Ok llr
              /\ np_get (vnode_msgs st) (v * max_vnode_deg p + i) = Ok llr.
Proof.
  intros Hb H Hv Hi. unfold bp_init in H.
  inv_bind H as dw Hdw. inv_bind H as ol Hol. inv_bind H as cm Hcm.
  inv_bind H as vm0 Hvm0. inv_bind H as vm Hvm. injection H as <-. simpl.
  unfold np_zeros in Hvm0.
  destruct (Z.ltb_spec (n_vnodes p * max_vnode_deg p) 0); [discriminate|].
  injection Hvm0 as <-. unfold init_vnode_msgs in Hvm.
  rewrite <- (Z2Nat.id (n_vnodes p)) in Hvm by lia.
  apply init_blocks_filled in Hvm as (_ & Hdone);
    [| lia | exact Hb | rewrite length_replicate; lia].
  destruct (Hdone v i) as (llr & Hllr & Hl); [lia | exact Hi |].
  exists llr. split; [exact Hllr|].
  assert (vnode_deg p v <= max_vnode_deg p) by (apply Hb; lia).
  apply np_get_nonneg; [nia | exact Hl].
Qed.

(** ** The clipping range and values that are not numbers *)

Lemma add_finite (a b : float) :
  finite_float (a + b) = true -> finite_float a = true /\ finite_float b = true.
Proof.
  unfold finite_float. rewrite add_spec. unfold SF64add, SFadd.
  destruct (Prim2SF a) as [sa|sa| |sa ma ea], (Prim2SF b) as [sb|sb| |sb mb eb];
    try (intros; split; reflexivity); try discriminate;
    destruct sa, sb; discriminate.
Qed.

Lemma shr_1_nonneg mrs : 0 <= shr_m mrs -> 0 <= shr_m (shr_1 mrs).
Proof.
  destruct mrs as [m r s]. simpl.
  destruct m as [|[p|p|]|[p|p|]]; simpl; lia.
Qed.

Lemma iter_pos_invariant {A} (P : A -> Prop) (f : A -> A) (n : positive) (x : A) :
  (forall y, P y -> P (f y)) -> P x -> P (SpecFloat.iter_pos f n x).
Proof.
  intros Hf. revert x. induction n as [n IH|n IH|]; intros x Hx; simpl; auto.
Qed.

Lemma shr_fexp_nonneg m e l :
  0 <= m -> 0 <= shr_m (shr_fexp prec emax m e l).1.
Proof.
  intros Hm. unfold shr_fexp, shr.
  assert (H0 : 0 <= shr_m (shr_record_of_loc m l)).
  { destruct l as [|[]]; exact Hm. }
  destruct (fexp prec emax (Zdigits2 m + e) - e) as [|n|n]; simpl; try exact H0.
  apply (iter_pos_invariant (fun mrs => 0 <= shr_m mrs)); [|exact H0].
  apply shr_1_nonneg.
Qed.

Lemma round_nearest_even_nonneg m l : 0 <= m -> 0 <= round_nearest_even m l.
Proof.
  intros Hm. unfold round_nearest_even.
  destruct l as [|[]]; try lia. destruct (Z.even m); lia.
Qed.

Lemma binary_round_aux_not_nan sx mx ex lx :
  0 <= mx -> binary_round_aux prec emax sx mx ex lx <> S754_nan.
Proof.
  intros Hm. unfold binary_round_aux.
  pose proof (shr_fexp_nonneg mx ex lx Hm) as H1.
  destruct (shr_fexp prec emax mx ex lx) as [mrs' e']. simpl in H1.
  pose proof (shr_fexp_nonneg
                (round_nearest_even (shr_m mrs') (loc_of_shr_record mrs')) e'
                loc_Exact (round_nearest_even_nonneg _ _ H1)) as H2.
  destruct (shr_fexp prec emax _ e' loc_Exact) as [mrs'' e'']. simpl in H2.
  destruct (shr_m mrs'') as [|m|m]; try discriminate; [|lia].
  destruct (e'' <=? emax - prec); discriminate.
Qed.

Lemma binary_normalize_not_nan m e s :
  binary_normalize prec emax m e s <> S754_nan.
Proof.
  unfold binary_normalize, binary_round.
  destruct m as [|m|m]; [discriminate| |].
  - destruct (shl_align m e _) as [mz ez]. apply binary_round_aux_not_nan. lia.
  - destruct (shl_align m e _) as [mz ez]. apply binary_round_aux_not_nan. lia.
Qed.

Lemma sub_finite_not_nan (a b : float) :
  finite_float a = true -> finite_float b = true ->
  Prim2SF (a - b) <> S754_nan.
Proof.
  unfold finite_float. rewrite sub_spec. unfold SF64sub, SFsub.
  destruct (Prim2SF a) as [sa|sa| |sa ma ea], (Prim2SF b) as [sb|sb| |sb mb eb];
    try discriminate; intros _ _.
  - destruct sa, sb; discriminate.
  - apply binary_normalize_not_nan.
Qed.

Lemma SFcompare_antisym x y :
  SFcompare y x = option_map CompOpp (SFcompare x y).
Proof.
  destruct x as [sx|sx| |sx mx ex], y as [sy|sy| |sy my ey]; simpl;
    try reflexivity; try (destruct sx; reflexivity); try (destruct sy; reflexivity);
    try (destruct sx, sy; reflexivity).
  f_equal. rewrite (Z.compare_antisym ex ey).
  pose proof (Pos.compare_cont_antisym mx my Eq) as Hm. simpl in Hm.
  rewrite <- Hm.
  destruct sx, sy; try reflexivity;
    destruct (ex ?= ey); simpl; try reflexivity;
    destruct (Pos.compare_cont Eq mx my); reflexivity.
Qed.

Lemma SFleb_of_not_ltb x y :
  x <> S754_nan -> y <> S754_nan -> SFltb x y = false -> SFleb y x = true.
Proof.
  intros Hx Hy. unfold SFltb, SFleb. rewrite (SFcompare_antisym x y).
  destruct (SFcompare x y) as [[]|] eqn:Hc; simpl; try reflexivity; try discriminate.
  intros _. exfalso.
  destruct x as [sx|sx| |sx mx ex], y as [sy|sy| |sy my ey]; simpl in Hc;
    try discriminate; congruence.
Qed.

Lemma limit_llr_in_range (t : float) :
  Prim2SF t <> S754_nan -> within_clip (_limit_llr t) = true.
Proof.
  intros Ht. unfold within_clip, _limit_llr.
  destruct (PrimFloat.ltb t MIN_NEG_LLR) eqn:Hlo; [reflexivity|].
  destruct (PrimFloat.ltb MAX_POS_LLR t) eqn:Hhi; [reflexivity|].
  rewrite ltb_spec in Hlo, Hhi. rewrite !leb_spec.
  rewrite (SFleb_of_not_ltb _ _ Ht) by (discriminate || exact Hlo).
  rewrite (SFleb_of_not_ltb (Prim2SF MAX_POS_LLR) (Prim2SF t));
    [reflexivity | discriminate | exact Ht | exact Hhi].
Qed.

Lemma int_of_float_finite x z : int_of_float x = Ok z -> finite_float x = true.
Proof.
  unfold int_of_float, finite_float.
  destruct (Prim2SF x); try discriminate; reflexivity.
Qed.

(** A sum that is finite has finite terms only. *)
Lemma fold_sum_finite {X} (h : X -> float) (xs : list X) (acc : float) :
  finite_float (fold_left (fun a x => a + h x)%float xs acc) = true ->
  finite_float acc = true /\ forall x, x ∈ xs -> finite_float (h x) = true.
Proof.
  revert acc. induction xs as [|x xs IH]; intros acc H; simpl in H.
  - split; [exact H|]. intros x Hx. inversion Hx.
  - destruct (IH _ H) as (Hacc & Hall). apply add_finite in Hacc as (Ha & Hx).
    split; [exact Ha|]. intros y Hy.
    apply elem_of_cons in Hy as [->|Hy]; [exact Hx | apply Hall; exact Hy].
Qed.

(** One variable node whose update ran through: its posterior value was
    stored as an integer, so it and every message the node received are
    finite, and each message the node writes is within the clipping
    range. The other slots keep what they held. *)
Lemma vnode_update_within p llr_vec v st st' :
  0 <= v ->
  0 <= max_vnode_deg p ->
  vnode_update p llr_vec v st = Ok st' ->
  (forall i, 0 <= i < vnode_deg p v ->
     exists y, vnode_msgs st' !! Z.to_nat (v * max_vnode_deg p + i) = Some y
               /\ within_clip y = true) /\
  (forall (j : nat) y, vnode_msgs st' !! j = Some y ->
     vnode_msgs st !! j = Some y \/ within_clip y = true).
Proof.
  intros Hv Hmax H. unfold vnode_update in H.
  inv_bind H as d Hd. apply vnode_deg_Ok in Hd. rewrite Hd in *.
  inv_bind H as msg_sum Hsum.
  apply (vnode_msg_sum_spec _ _ _ _ _ Hd) in Hsum. subst msg_sum.
  inv_bind H as vm Hvm.
  inv_bind H as llr Hllr. inv_bind H as z Hz. inv_bind H as ol Hol.
  inv_bind H as o Ho. inv_bind H as dw Hdw. injection H as <-. simpl.
  apply int_of_float_finite in Hz.
  pose proof (add_finite _ _ Hz) as (_ & Hfsum).
  unfold incoming_sum in Hfsum. rewrite Hd in Hfsum.
  apply fold_sum_finite in Hfsum as (_ & Hterms).
  set (g := fun i : Z =>
         np_get (vnode_adj_list p) (v * max_vnode_deg p + i) ≫= fun cnode =>
         np_get llr_vec v ≫= fun l =>
         np_get (vnode_cnode_map p) (v * max_vnode_deg p + i) ≫= fun slot =>
         np_get (cnode_msgs st) (cnode * max_cnode_deg p + slot) ≫= fun m =>
         Ok (_limit_llr (l + incoming_sum p (cnode_msgs st) v - m)%float)).
  assert (Hbody : forall i a,
            (np_get (vnode_adj_list p) (v * max_vnode_deg p + i) ≫= fun cnode =>
             np_get llr_vec v ≫= fun l =>
             np_get (vnode_cnode_map p) (v * max_vnode_deg p + i) ≫= fun slot =>
             np_get (cnode_msgs st) (cnode * max_cnode_deg p + slot) ≫= fun m =>
             np_set a (v * max_vnode_deg p + i)
               (_limit_llr (l + incoming_sum p (cnode_msgs st) v - m)%float))
            = g i ≫= fun x => np_set a (v * max_vnode_deg p + i) x).
  { intros i a. unfold g.
    destruct (np_get (vnode_adj_list p) _) as [cnode|]; [|reflexivity]. simpl.
    destruct (np_get llr_vec v); [|reflexivity]. simpl.
    destruct (np_get (vnode_cnode_map p) _) as [slot|]; [|reflexivity]. simpl.
    destruct (np_get (cnode_msgs st) _); reflexivity. }
  assert (Hg : forall i y, 0 <= i < d -> g i = Ok y -> within_clip y = true).
  { intros i y Hi Hy. unfold g in Hy. inv_bind Hy as cnode Hcnode.
    inv_bind Hy as l Hl. inv_bind Hy as slot Hslot. inv_bind Hy as m Hm.
    injection Hy as <-. assert (l = llr) as -> by congruence.
    apply limit_llr_in_range. apply sub_finite_not_nan; [exact Hz|].
    specialize (Hterms i ltac:(apply elem_of_xrange; exact Hi)).
    unfold vnode_incoming in Hterms. rewrite Hcnode in Hterms. simpl in Hterms.
    rewrite Hslot in Hterms. simpl in Hterms. rewrite Hm in Hterms.
    exact Hterms. }
  split.
  - intros i Hi. rewrite <- (Z2Nat.id d) in Hvm by lia.
    apply (for_each_writes g (v * max_vnode_deg p)) in Hvm as (_ & Hin & _);
      [| nia | exact Hbody].
    destruct (Hin i) as (y & Hy & Hl); [lia|].
    exists y. split; [exact Hl|]. eapply Hg; eassumption.
  - intros j y Hj.
    destruct (for_each_writes_origin g (v * max_vnode_deg p) _ d _ _ j y
                ltac:(nia) Hbody Hvm Hj) as [Hold|(i & Hi & Hgi)].
    + left. exact Hold.
    + right. eapply Hg; eassumption.
Qed.

(** The variable nodes [0 .. k-1], each with its live slots within the
    clipping range. *)
Lemma vnode_blocks_within p llr_vec (k : nat) st0 st :
  0 <= max_vnode_deg p ->
  for_each (xrange (Z.of_nat k)) (vnode_update p llr_vec) st0 = Ok st ->
  forall v i, 0 <= v < Z.of_nat k -> 0 <= i < vnode_deg p v ->
    exists y, vnode_msgs st !! Z.to_nat (v * max_vnode_deg p + i) = Some y
              /\ within_clip y = true.
Proof.
  intros Hmax. revert st. induction k as [|k IH]; intros st H v i Hv Hi; [lia|].
  rewrite xrange_succ, for_each_app in H. inv_bind H as st1 Hst1.
  simpl in H. inv_bind H as st2 Hst2. injection H as <-.
  pose proof Hst2 as Hspec.
  apply vnode_update_spec in Hspec as (_ & Hlen & _); [| lia | exact Hmax].
  apply vnode_update_within in Hst2 as (Hin & Horigin); [| lia | exact Hmax].
  destruct (Z.eq_dec v (Z.of_nat k)) as [->|Hne].
  - apply Hin. exact Hi.
  - destruct (IH st1 Hst1 v i) as (x & Hx & Hwx); [lia | exact Hi |].
    destruct (lookup_lt_is_Some_2 (vnode_msgs st2)
                (Z.to_nat (v * max_vnode_deg p + i))) as (y & Hy).
    { rewrite Hlen. eapply lookup_lt_Some. exact Hx. }
    exists y. split; [exact Hy|].
    destruct (Horigin _ _ Hy) as [Hold|Hw]; [|exact Hw].
    assert (y = x) as -> by congruence. exact Hwx.
Qed.

Lemma variable_node_update_within p llr_vec st st' v i :
  0 <= max_vnode_deg p ->
  variable_node_update p llr_vec st = Ok st' ->
  0 <= v < n_vnodes p ->
  0 <= i < vnode_deg p v ->
  exists y, np_get (vnode_msgs st') (v * max_vnode_deg p + i) = Ok y
            /\ within_clip y = true.
Proof.
  intros Hmax H Hv Hi. unfold variable_node_update in H.
  rewrite <- (Z2Nat.id (n_vnodes p)) in H by lia.
  destruct (vnode_blocks_within p llr_vec _ _ _ Hmax H v i) as (y & Hy & Hw);
    [lia | exact Hi |].
  exists y. split; [|exact Hw].
  apply np_get_nonneg; [nia | exact Hy].
Qed.

(** ** Whole runs of the decoder *)

Section Runs.

Variable np_tanh : float -> float.
Variable np_arctanh : float -> float.

(** A run that made an iteration ends on the state a variable-node
    update left. *)
Lemma bp_iterations_last_update p llr_vec budget st0 st k :
  bp_iterations np_tanh np_arctanh p llr_vec budget st0 = Ok (st, k) ->
  (1 <= k)%nat ->
  exists st1, variable_node_update p llr_vec st1 = Ok st.
Proof.
  revert st0 st k. induction budget as [|n IH]; intros st0 st k H Hk; simpl in H.
  - injection H as _ <-. lia.
  - inv_bind H as st2 Hst2. inv_bind H as flag Hflag.
    unfold bp_update in Hst2. inv_bind Hst2 as st1 Hst1.
    destruct (flag =? 0).
    + injection H as <- _. exists st1. exact Hst2.
    + inv_bind H as r Hr. destruct r as [st3 k3]. injection H as <- <-.
      destruct k3 as [|k3].
      * destruct n as [|n]; simpl in Hr.
        -- injection Hr as <-. exists st1. exact Hst2.
        -- inv_bind Hr as st4 Hst4. inv_bind Hr as flag' Hflag'.
           destruct (flag' =? 0); [discriminate|].
           inv_bind Hr as r' Hr'. discriminate.
      * eapply IH; [exact Hr | lia].
Qed.

Lemma bp_init_stride p llr_vec st :
  bp_init p llr_vec = Ok st -> 0 < n_vnodes p -> 0 <= max_vnode_deg p.
Proof.
  unfold bp_init. intros H Hn.
  inv_bind H as dw Hdw. inv_bind H as ol Hol. inv_bind H as cm Hcm.
  inv_bind H as vm0 Hvm0. unfold np_zeros in Hvm0.
  destruct (Z.ltb_spec (n_vnodes p * max_vnode_deg p) 0); [discriminate|]. nia.
Qed.

(** A run that made no iteration ends on the state it began with. *)
Lemma bp_iterations_none p llr_vec budget st0 st :
  bp_iterations np_tanh np_arctanh p llr_vec budget st0 = Ok (st, O) ->
  st = st0.
Proof.
  destruct budget as [|n]; simpl; intros H.
  - injection H as <-. reflexivity.
  - inv_bind H as st2 Hst2. inv_bind H as flag Hflag.
    destruct (flag =? 0); [discriminate|].
    inv_bind H as r Hr. discriminate.
Qed.

(** C2, as the code has it: the messages of the variable-node update lie
    within the clipping range, the initial ones need not. After one
    iteration or more, every live slot [i < vnode_deg[v]] of [vnode_msgs]
    holds a value [y] with [MIN_NEG_LLR <= y <= MAX_POS_LLR] in the
    order of float64, that is [-38.0 <= y <= 38.0], whatever the channel
    values and the budget: [y] is a number, because the posterior value
    of the node that wrote it was stored as an integer. Before the first iteration the slot holds
    the channel value [llr_vec[v]] as it was given. *)
Theorem updated_messages_clipped (llr_vec : list float) (p : ldpc_code_params)
    (n_iters : Z) (st : bp_state) (k : nat) (v i : Z) :
  bp_run np_tanh np_arctanh llr_vec p n_iters = Ok (st, k) ->
  0 <= v < n_vnodes p ->
  0 <= i < vnode_deg p v ->
  ((1 <= k)%nat ->
   exists y, np_get (vnode_msgs st) (v * max_vnode_deg p + i) = Ok y
             /\ within_clip y = true)
  /\ (k = O -> vnode_degrees_bounded p ->
      exists y, np_get (vnode_msgs st) (v * max_vnode_deg p + i) = Ok y
                /\ np_get llr_vec v = Ok y).
Proof.
  intros H Hv Hi. unfold bp_run in H. inv_bind H as st0 Hst0. split.
  - intros Hk. apply bp_init_stride in Hst0; [|lia].
    destruct (bp_iterations_last_update _ _ _ _ _ _ H Hk) as (st1 & Hst1).
    destruct (variable_node_update_within p llr_vec st1 st v i Hst0 Hst1 Hv Hi)
      as (y & Hy & Hw).
    exists y. auto.
  - intros -> Hb. apply bp_iterations_none in H. subst st.
    destruct (initial_messages_are_llrs p llr_vec st0 v i Hb Hst0 Hv Hi)
      as (llr & Hllr & Hget).
    exists llr. auto.
Qed.

(** C7, on the claim's own example: with every channel value 0 on the
    code of two variable nodes and one check node, the first iteration
    divides 0 by 0 in the check-node update, and the posterior value,
    which is not a number, cannot be stored in the integer array
    [out_llrs]: the call raises [ValueError] for every budget of one
    iteration or more. *)
Theorem decode_all_zero_raises (n_iters : Z) :
  np_tanh 0%float = 0%float ->
  np_arctanh nan = nan ->
  1 <= n_iters ->
  ldpc_bp_decode np_tanh np_arctanh [0%float; 0%float] pair_code n_iters
    = Raise ValueError.
Proof.
  intros Ht Ha Hn. unfold ldpc_bp_decode, bp_run.
  destruct (Z.to_nat n_iters) as [|m] eqn:Hm; [lia|].
  change (bp_init pair_code [0%float; 0%float])
    with (Ok {| cnode_msgs := [0%float; 0%float];
                vnode_msgs := [0%float; 0%float];
                dec_word := [0; 0]; out_llrs := [0; 0] |}).
  assert (Hup : bp_update np_tanh np_arctanh pair_code [0%float; 0%float]
                  {| cnode_msgs := [0%float; 0%float];
                     vnode_msgs := [0%float; 0%float];
                     dec_word := [0; 0]; out_llrs := [0; 0] |}
                = Raise ValueError).
  { assert (Hcheck : check_node_update np_tanh np_arctanh pair_code
                       {| cnode_msgs := [0%float; 0%float];
                          vnode_msgs := [0%float; 0%float];
                          dec_word := [0; 0]; out_llrs := [0; 0] |}
                     = Ok {| cnode_msgs := [nan; nan];
                             vnode_msgs := [0%float; 0%float];
                             dec_word := [0; 0]; out_llrs := [0; 0] |}).
    { vm_compute. rewrite !Ht. vm_compute. vm_compute in Ha. rewrite !Ha.
      reflexivity. }
    unfold bp_update. rewrite Hcheck. reflexivity. }
  simpl. rewrite Hup. reflexivity.
Qed.

End Runs.

(** C5, at a posterior value between 0 and 1: the isolated variable node
    with channel value 0.5 has posterior value 0.5 > 0, and the decoder
    decides bit 1, because it compares the integer 0 it stored. *)
Theorem decode_decides_on_truncated_llr (np_tanh np_arctanh : float -> float) :
  ldpc_bp_decode np_tanh np_arctanh [0.5%float] lone_code 1 = Ok ([1], [0]).
Proof. reflexivity. Qed.

(** C6, at a posterior value with a fractional part: the isolated
    variable node with channel value 2.75 is returned the integer 2. *)
Theorem decode_returns_truncated_llr (np_tanh np_arctanh : float -> float) :
  ldpc_bp_decode np_tanh np_arctanh [2.75%float] lone_code 1 = Ok ([0], [2]).
Proof. reflexivity. Qed.

(** C2 as stated fails on the initial messages: a channel value of 100
    is copied as it is. *)
Lemma initial_message_unclipped :
  exists st, bp_init pair_code [100%float; 1%float] = Ok st
    /\ np_get (vnode_msgs st) (0 * max_vnode_deg pair_code + 0) = Ok 100%float
    /\ 0 <= 0 < vnode_deg pair_code 0
    /\ exceeds_clip 100%float = true
    /\ within_clip 100%float = false.
Proof.
  eexists. split; [reflexivity|]. split; [reflexivity|].
  split; [vm_compute; split; [discriminate | reflexivity] |].
  split; reflexivity.
Qed.

Lemma pair_code_degrees_bounded : cnode_degrees_bounded pair_code.
Proof.
  intros c Hc. assert (c = 0) as -> by (simpl in Hc; lia).
  vm_compute. discriminate.
Qed.

Lemma check_node_message_formula_witness :
  exists st',
    check_node_update tanh_standin arctanh_standin pair_code
      {| cnode_msgs := [0%float; 0%float]; vnode_msgs := [1%float; 2%float];
         dec_word := [0; 0]; out_llrs := [0; 0] |} = Ok st'
    /\ np_get (cnode_msgs st') (0 * max_cnode_deg pair_code + 1)
       = Ok (2 * arctanh_standin
               (edge_tanh_product tanh_standin pair_code [1%float; 2%float] 0
                / tanh_standin
                    (edge_message pair_code [1%float; 2%float] 0 1 / 2)))%float.
Proof.
  eexists. split; [reflexivity|].
  apply (check_node_message_formula tanh_standin arctanh_standin pair_code
           {| cnode_msgs := [0%float; 0%float]; vnode_msgs := [1%float; 2%float];
              dec_word := [0; 0]; out_llrs := [0; 0] |}).
  - exact pair_code_degrees_bounded.
  - reflexivity.
  - simpl. lia.
  - vm_compute. split; [discriminate | reflexivity].
Defined.

Lemma pair_code_parity_reads_ok : parity_reads_ok pair_code [0; 0].
Proof.
  intros c Hc. assert (c = 0) as -> by (simpl in Hc; lia).
  exists 2. split; [reflexivity|]. intros i Hi.
  assert (i = 0 \/ i = 1) as [-> | ->] by lia; eexists _, _; split; reflexivity.
Qed.

Lemma pair_code_parity_satisfied : parity_satisfied pair_code [0; 0].
Proof.
  intros c Hc. assert (c = 0) as -> by (simpl in Hc; lia). reflexivity.
Qed.

Lemma triple_code_parity_reads_ok : parity_reads_ok triple_code [0; 0; 1].
Proof.
  intros c Hc. assert (c = 0) as -> by (simpl in Hc; lia).
  exists 3. split; [reflexivity|]. intros i Hi.
  assert (i = 0 \/ i = 1 \/ i = 2) as [-> | [-> | ->]] by lia;
    eexists _, _; split; reflexivity.
Qed.

Lemma triple_code_parity_odd : ~ parity_satisfied triple_code [0; 0; 1].
Proof.
  intros H. specialize (H 0 ltac:(simpl; lia)). vm_compute in H. discriminate.
Qed.

Lemma early_exit_iff_parity_witness :
  (exists st,
     bp_run tanh_standin arctanh_standin [1%float; 2%float] pair_code 3
       = Ok (st, 1%nat)
     /\ ldpc_bp_decode tanh_standin arctanh_standin [1%float; 2%float] pair_code 3
        = Ok (dec_word st, out_llrs st))
  /\ (exists st' k',
        bp_run tanh_standin arctanh_standin
          [5%float; 5%float; (-3)%float] triple_code 2 = Ok (st', k')
        /\ (1 < k')%nat).
Proof.
  split.
  - eexists.
    refine (proj1 (early_exit_iff_parity tanh_standin arctanh_standin
                     [1%float; 2%float] pair_code 3
                     {| cnode_msgs := [0%float; 0%float];
                        vnode_msgs := [1%float; 2%float];
                        dec_word := [0; 0]; out_llrs := [0; 0] |} _ 1
                     _ _ _ _ _) _).
    + reflexivity.
    + simpl. lia.
    + vm_compute. reflexivity.
    + intros j stj Hj. lia.
    + exact pair_code_parity_reads_ok.
    + left. exact pair_code_parity_satisfied.
  - assert (Hrun : exists st' k',
              bp_run tanh_standin arctanh_standin
                [5%float; 5%float; (-3)%float] triple_code 2 = Ok (st', k'))
      by (eexists _, _; vm_compute; reflexivity).
    destruct Hrun as (st' & k' & Hrun). exists st', k'. split; [exact Hrun|].
    refine (proj2 (proj1 (proj2 (early_exit_iff_parity
                     tanh_standin arctanh_standin
                     [5%float; 5%float; (-3)%float] triple_code 2
                     {| cnode_msgs := [0%float; 0%float; 0%float];
                        vnode_msgs := [5%float; 5%float; (-3)%float];
                        dec_word := [0; 0; 0]; out_llrs := [0; 0; 0] |} _ 1
                     _ _ _ _ _)) _ _) st' k' Hrun).
    + reflexivity.
    + simpl. lia.
    + vm_compute. reflexivity.
    + intros j stj Hj. lia.
    + exact triple_code_parity_reads_ok.
    + exact triple_code_parity_odd.
    + simpl. lia.
Defined.

Lemma updated_messages_clipped_witness :
  exists y st,
    bp_run tanh_standin arctanh_standin [100%float; 1%float] pair_code 1
      = Ok (st, 1%nat)
    /\ np_get (vnode_msgs st) (0 * max_vnode_deg pair_code + 0) = Ok y
    /\ within_clip y = true.
Proof.
  assert (Hrun : exists st,
            bp_run tanh_standin arctanh_standin [100%float; 1%float] pair_code 1
              = Ok (st, 1%nat))
    by (eexists; vm_compute; reflexivity).
  destruct Hrun as (st & Hst).
  destruct (updated_messages_clipped tanh_standin arctanh_standin
              [100%float; 1%float] pair_code 1 st 1 0 0) as (Hafter & _).
  - exact Hst.
  - simpl. lia.
  - vm_compute. split; [discriminate | reflexivity].
  - destruct (Hafter ltac:(lia)) as (y & Hy & Hc). exists y, st. auto.
Defined.

Lemma decode_all_zero_raises_witness :
  ldpc_bp_decode tanh_standin arctanh_standin [0%float; 0%float] pair_code 1
    = Raise ValueError.
Proof.
  apply (decode_all_zero_raises tanh_standin arctanh_standin 1);
    [reflexivity | reflexivity | lia].
Defined.

(** ** The graph builder: exceptions *)

Lemma only_builtin_py_int s : only_builtin (py_int s).
Proof. unfold py_int. builtin. Qed.

Lemma only_builtin_unpack2 l : only_builtin (unpack2 l).
Proof. unfold unpack2. builtin. Qed.

Lemma only_builtin_to_int32 z : only_builtin (to_int32 z).
Proof. unfold to_int32. builtin. Qed.

Lemma only_builtin_to_int64 z : only_builtin (to_int64 z).
Proof. unfold to_int64. builtin. Qed.

Lemma only_builtin_np_full2 r c x : only_builtin (np_full2 r c x).
Proof. unfold np_full2. builtin. Qed.

#[local] Hint Resolve only_builtin_py_int only_builtin_unpack2
  only_builtin_to_int32 only_builtin_to_int64 only_builtin_np_full2 : builtin.

Lemma only_builtin_np_assign_prefix row deg values :
  only_builtin (np_assign_prefix row deg values).
Proof. unfold np_assign_prefix. builtin. Qed.

Lemma only_builtin_bool_index a mask : only_builtin (bool_index a mask).
Proof. unfold bool_index. builtin. Qed.

Lemma only_builtin_scalar_of_array a : only_builtin (scalar_of_array a).
Proof. unfold scalar_of_array. builtin. Qed.

Lemma only_builtin_np_set2 m r c x : only_builtin (np_set2 m r c x).
Proof. unfold np_set2. builtin. Qed.

#[local] Hint Resolve only_builtin_np_assign_prefix only_builtin_bool_index
  only_builtin_scalar_of_array only_builtin_np_set2 : builtin.

Lemma only_builtin_read_adj_row deg_list idx acc :
  only_builtin (read_adj_row deg_list idx acc).
Proof. unfold read_adj_row. builtin. Qed.

Lemma only_builtin_back_slot nbr_adj node_list node nbr :
  only_builtin (back_slot nbr_adj node_list node nbr).
Proof. unfold back_slot. builtin. Qed.

#[local] Hint Resolve only_builtin_read_adj_row only_builtin_back_slot : builtin.

Lemma only_builtin_read_design_file f : only_builtin (read_design_file f).
Proof. unfold read_design_file. builtin. Qed.

Lemma only_builtin_build_params d : only_builtin (build_params d).
Proof. unfold build_params, build_map, map_node, map_slot, build_pmat. builtin. Qed.

Lemma only_builtin_get_ldpc_code_params f : only_builtin (get_ldpc_code_params f).
Proof.
  unfold get_ldpc_code_params.
  apply only_builtin_bind; [apply only_builtin_read_design_file|].
  intros d. apply only_builtin_build_params.
Qed.

(** C9, as the code has it: the builder makes no check of its own; what
    it raises is an exception of Python or numpy, never
    [MalformedCodeDescription], as on a first line of three counts, a
    [ValueError].
    An index 0, out of the 1-based range, wraps around to the last row,
    and a degree above the declared maximum is trimmed by the slice:
    both descriptions are accepted and a graph is returned. *)
Theorem params_without_validation :
  (forall (f : list string) (e : exn),
     get_ldpc_code_params f = Raise e ->
     e = ValueError \/ e = IndexError \/ e = OverflowError)
  /\ get_ldpc_code_params three_counts_file = Raise ValueError
  /\ get_ldpc_code_params wrap_file = Ok wrap_code
  /\ get_ldpc_code_params over_file = Ok over_code.
Proof.
  split; [|split; [|split]].
  - intros f e H. apply only_builtin_get_ldpc_code_params in H. exact H.
  - vm_compute. reflexivity.
  - vm_compute. reflexivity.
  - vm_compute. reflexivity.
Qed.

(** C9 as stated fails: the description with the out-of-range index 0 is
    not well formed, and it is accepted. *)
Lemma malformed_description_accepted : ~ rejects_malformed_description.
Proof.
  intros H. specialize (H wrap_file).
  assert (Hok : get_ldpc_code_params wrap_file = Ok wrap_code)
    by (vm_compute; reflexivity).
  rewrite Hok in H. discriminate H.
  intros (d & Hd & _ & Hv & _).
  assert (Hread : read_design_file wrap_file
                  = Ok {| d_n_vnodes := 2; d_n_cnodes := 2;
                          d_max_vnode_deg := 2; d_max_cnode_deg := 2;
                          d_vnode_deg_list := [2; 1]; d_cnode_deg_list := [1; 1];
                          d_cnode_adj := [[1; -1]; [0; -1]];
                          d_vnode_adj := [[1; -1]; [0; -1]] |})
    by (vm_compute; reflexivity).
  rewrite Hread in Hd. injection Hd as <-.
  destruct (Hv O 2 [1; -1] eq_refl eq_refl) as (_ & Hrow).
  specialize (Hrow 1%nat (-1) ltac:(lia) eq_refl). lia.
Qed.

(** ** The graph builder: the adjacency arrays *)

Lemma np_full2_Ok rows cols x m :
  np_full2 rows cols x = Ok m ->
  0 <= rows /\ 0 <= cols /\
  m = replicate (Z.to_nat rows) (replicate (Z.to_nat cols) x).
Proof.
  unfold np_full2.
  destruct (Z.ltb_spec rows 0), (Z.ltb_spec cols 0); simpl; try discriminate.
  intros [= <-]. auto.
Qed.

Lemma prefix_len_le row deg : (prefix_len row deg <= length row)%nat.
Proof.
  unfold prefix_len.
  pose proof (slice_bound_range (Z.of_nat (length row)) deg). lia.
Qed.

(** Storing into [row[0:deg]] keeps the length of the row and what lies
    beyond the slice. *)
Lemma np_assign_prefix_spec row deg values row' :
  np_assign_prefix row deg values = Ok row' ->
  length row' = length row /\
  forall j, (prefix_len row deg <= j)%nat -> row' !! j = row !! j.
Proof.
  unfold np_assign_prefix. fold (prefix_len row deg).
  pose proof (prefix_len_le row deg) as Hle.
  set (len := prefix_len row deg) in *.
  assert (Hgen : forall head : list Z, length head = len ->
            length (head ++ drop len row) = length row /\
            forall j, (len <= j)%nat -> (head ++ drop len row) !! j = row !! j).
  { intros head Hhead. split.
    - rewrite length_app, length_drop. lia.
    - intros j Hj. rewrite lookup_app_r by lia. rewrite lookup_drop.
      f_equal. lia. }
  destruct (decide (length values = len)) as [Hlen|Hlen].
  - intros [= <-]. apply Hgen. exact Hlen.
  - destruct values as [|x [|y values]]; try discriminate.
    intros [= <-]. apply Hgen. apply length_replicate.
Qed.

(** One row read: the row of its node is replaced, by a row of the same
    length that differs from it within the slice only. *)
Lemma read_adj_row_spec deg_list idx acc acc' :
  0 <= idx ->
  read_adj_row deg_list idx acc = Ok acc' ->
  exists deg row row',
    np_get deg_list idx = Ok deg /\
    acc.1 !! Z.to_nat idx = Some row /\
    length row' = length row /\
    (forall j, (prefix_len row deg <= j)%nat -> row' !! j = row !! j) /\
    acc'.1 = <[Z.to_nat idx := row']> acc.1.
Proof.
  intros Hidx H. unfold read_adj_row in H.
  destruct (readline acc.2) as [line rest].
  inv_bind H as values Hvalues. inv_bind H as deg Hdeg.
  inv_bind H as row Hrow. inv_bind H as stored Hstored.
  inv_bind H as row' Hrow'. inv_bind H as adj Hadj. injection H as <-.
  apply np_get_nonneg in Hrow; [|exact Hidx].
  apply np_set_nonneg in Hadj as [-> _]; [|exact Hidx].
  apply np_assign_prefix_spec in Hrow' as [Hlen Hrest].
  exists deg, row, row'. auto.
Qed.

(** The rows read so far, against the array the loop began with. *)
Lemma read_rows_spec deg_list (k : nat) acc0 acc :
  for_each (xrange (Z.of_nat k)) (read_adj_row deg_list) acc0 = Ok acc ->
  length acc.1 = length acc0.1 /\
  (forall r : nat, (k <= r)%nat -> acc.1 !! r = acc0.1 !! r) /\
  (forall (r : nat) row0, (r < k)%nat -> acc0.1 !! r = Some row0 ->
     exists deg row,
       np_get deg_list (Z.of_nat r) = Ok deg /\
       acc.1 !! r = Some row /\
       length row = length row0 /\
       forall j, (prefix_len row0 deg <= j)%nat -> row !! j = row0 !! j).
Proof.
  revert acc. induction k as [|k IH]; intros acc H.
  - simpl in H. injection H as <-. split; [reflexivity|]. split; [reflexivity|].
    intros r row0 Hr. lia.
  - rewrite xrange_succ, for_each_app in H. inv_bind H as acc1 Hacc1.
    simpl in H. inv_bind H as acc2 Hacc2. injection H as <-.
    destruct (IH _ Hacc1) as (Hlen & Hlater & Hdone).
    apply read_adj_row_spec in Hacc2
      as (deg & row & row' & Hdeg & Hrow & Hlen' & Hrest & Heq); [|lia].
    rewrite Nat2Z.id in Hrow, Heq. rewrite Heq. split; [|split].
    + rewrite length_insert. exact Hlen.
    + intros r Hr. rewrite list_lookup_insert_ne by lia. apply Hlater. lia.
    + intros r row0 Hr Hrow0. destruct (decide (r = k)) as [->|Hne].
      * rewrite Hlater in Hrow by lia.
        assert (row = row0) as -> by congruence.
        exists deg, row'. split; [exact Hdeg|]. split; [|auto].
        apply list_lookup_insert_eq. rewrite Hlen.
        eapply lookup_lt_Some. exact Hrow0.
      * destruct (Hdone r row0) as (deg' & rowr & H1 & H2 & H3 & H4);
          [lia | exact Hrow0 |].
        exists deg', rowr. rewrite list_lookup_insert_ne by lia. auto.
Qed.

Lemma read_rows_padded deg_list n max_deg adj0 f acc :
  np_full2 n max_deg (-1) = Ok adj0 ->
  for_each (xrange n) (read_adj_row deg_list) (adj0, f) = Ok acc ->
  padded n max_deg deg_list acc.1.
Proof.
  intros Hfull H. apply np_full2_Ok in Hfull as (Hn & Hm & ->).
  rewrite <- (Z2Nat.id n) in H by exact Hn.
  apply read_rows_spec in H as (Hlen & _ & Hdone). simpl in Hlen, Hdone.
  rewrite Nat2Z.id in Hlen, Hdone. rewrite length_replicate in Hlen.
  split; [exact Hn|]. split; [exact Hm|]. split; [exact Hlen|].
  intros r row Hrow.
  assert (Hr : (r < Z.to_nat n)%nat).
  { rewrite <- Hlen. eapply lookup_lt_Some. exact Hrow. }
  destruct (Hdone r (replicate (Z.to_nat max_deg) (-1)))
    as (deg & row' & Hdeg & Hrow' & Hl & Hrest); [exact Hr | |].
  { apply lookup_replicate_2. exact Hr. }
  assert (row' = row) as -> by congruence.
  rewrite length_replicate in Hl. split; [exact Hl|].
  exists deg. split; [exact Hdeg|]. intros j Hj Hjm.
  rewrite Hrest.
  - apply lookup_replicate_2. exact Hjm.
  - unfold prefix_len. rewrite length_replicate, Z2Nat.id by exact Hm. exact Hj.
Qed.

Lemma read_design_file_padded f d :
  read_design_file f = Ok d ->
  padded (d_n_vnodes d) (d_max_vnode_deg d) (d_vnode_deg_list d) (d_vnode_adj d)
  /\ padded (d_n_cnodes d) (d_max_cnode_deg d) (d_cnode_deg_list d) (d_cnode_adj d).
Proof.
  unfold read_design_file. intros H.
  destruct (readline f) as [l1 f1].
  inv_bind H as counts Hcounts. inv_bind H as nn Hnn.
  destruct (readline f1) as [l2 f2].
  inv_bind H as maxes Hmaxes. inv_bind H as mm Hmm.
  destruct (readline f2) as [l3 f3].
  inv_bind H as vdegs Hvdegs. inv_bind H as vnode_deg Hvnode_deg.
  destruct (readline f3) as [l4 f4].
  inv_bind H as cdegs Hcdegs. inv_bind H as cnode_deg Hcnode_deg.
  inv_bind H as cnode_adj0 Hc0. inv_bind H as vnode_adj0 Hv0.
  inv_bind H as vr Hvr. inv_bind H as cr Hcr. injection H as <-. simpl.
  split.
  - eapply read_rows_padded; eassumption.
  - eapply read_rows_padded; eassumption.
Qed.

(** ** The graph builder: the cross-reference maps *)

Lemma map_result_length {A B} (f : A -> result B) l r :
  map_result f l = Ok r -> length r = length l.
Proof.
  revert r. induction l as [|x l IH]; intros r H; simpl in H.
  - injection H as <-. reflexivity.
  - inv_bind H as y Hy. inv_bind H as ys Hys. injection H as <-.
    simpl. f_equal. apply IH. exact Hys.
Qed.

Lemma map_result_singleton {A B} (f : A -> result B) l y :
  map_result f l = Ok [y] -> exists x, l = [x] /\ f x = Ok y.
Proof.
  intros H. pose proof (map_result_length _ _ _ H) as Hlen.
  destruct l as [|x [|x' l]]; try discriminate.
  simpl in H. inv_bind H as y' Hy'. injection H as <-. eauto.
Qed.

Lemma to_int64_Ok z x : to_int64 z = Ok x -> x = z.
Proof. unfold to_int64. destruct (fits_int64 z); congruence. Qed.

Lemma mask_lookup (row : list Z) (node : Z) (k : nat) :
  ((fun x => bool_decide (x = node)) <$> row) !! k = Some true
  <-> row !! k = Some node.
Proof.
  rewrite list_lookup_fmap. destruct (row !! k) as [y|]; simpl.
  - split.
    + intros [= H]. apply bool_decide_eq_true in H. congruence.
    + intros [= ->]. f_equal. apply bool_decide_eq_true. reflexivity.
  - split; discriminate.
Qed.

(** The entry of a cross-reference map: the one slot at which the
    neighbour's row holds the node. *)
Lemma back_slot_spec nbr_adj n node nbr x :
  back_slot nbr_adj (np_arange n) node nbr = Ok x ->
  exists nbr_row (k : nat),
    np_get nbr_adj nbr = Ok nbr_row /\
    x = Z.of_nat k /\
    nbr_row !! k = Some node /\
    forall k' : nat, nbr_row !! k' = Some node -> k' = k.
Proof.
  unfold back_slot, bool_index. intros H.
  inv_bind H as nbr_row Hrow. inv_bind H as sel Hsel.
  unfold scalar_of_array in H. destruct sel as [|y [|y' sel]]; try discriminate.
  apply to_int64_Ok in H. subst x.
  apply map_result_singleton in Hsel as (k & Hhits & Hk).
  exists nbr_row, k. split; [exact Hrow|].
  assert (Hmem : forall k' : nat, nbr_row !! k' = Some node <-> k' = k).
  { intros k'. split.
    - intros Hk'. apply list_elem_of_singleton. rewrite <- Hhits.
      apply list_elem_of_filter. split; [apply mask_lookup; exact Hk'|].
      apply elem_of_seq. apply lookup_lt_Some in Hk'. rewrite length_fmap. lia.
    - intros ->. assert (Hin : k ∈ [k]) by (apply list_elem_of_singleton; reflexivity).
      rewrite <- Hhits in Hin. apply list_elem_of_filter in Hin as [Hin _].
      apply mask_lookup in Hin. exact Hin. }
  split; [|split].
  - destruct (np_arange n !! k) as [z|] eqn:Hz; [|discriminate].
    injection Hk as <-. unfold np_arange in Hz.
    apply lookup_seqZ in Hz as [-> _]. lia.
  - apply Hmem. reflexivity.
  - intros k' Hk'. apply Hmem. exact Hk'.
Qed.

Lemma np_set2_spec m r c x m' :
  0 <= r -> 0 <= c ->
  np_set2 m r c x = Ok m' ->
  exists row,
    m !! Z.to_nat r = Some row /\
    (Z.to_nat c < length row)%nat /\
    m' = <[Z.to_nat r := <[Z.to_nat c := x]> row]> m.
Proof.
  intros Hr Hc H. unfold np_set2 in H.
  inv_bind H as row Hrow. inv_bind H as row' Hrow'.
  apply np_get_nonneg in Hrow; [|exact Hr].
  apply np_set_nonneg in Hrow' as [-> Hlt]; [|exact Hc].
  apply np_set_nonneg in H as [-> _]; [|exact Hr].
  exists row. split; [exact Hrow|]. split; [lia | reflexivity].
Qed.

Lemma enumerate_snoc {A} (l : list A) (y : A) :
  enumerate (l ++ [y]) = enumerate l ++ [(Z.of_nat (length l), y)].
Proof.
  unfold enumerate. rewrite imap_app. simpl. rewrite Nat.add_0_r. reflexivity.
Qed.

(** The inner loop for one node: its row of the map receives, at each
    slot [i] of the prefix, the back slot of the neighbour found there;
    the rest of the map is not touched. *)
Lemma map_row_spec nbr_adj own_list node (pre : list Z) m0 m :
  0 <= node ->
  for_each (enumerate pre) (map_slot nbr_adj own_list node) m0 = Ok m ->
  length m = length m0 /\
  (forall r : nat, r <> Z.to_nat node -> m !! r = m0 !! r) /\
  (forall row0, m0 !! Z.to_nat node = Some row0 ->
     exists row,
       m !! Z.to_nat node = Some row /\
       length row = length row0 /\
       (forall i : nat, (length pre <= i)%nat -> row !! i = row0 !! i) /\
       (forall (i : nat) y, pre !! i = Some y ->
          exists x, back_slot nbr_adj own_list node y = Ok x
                    /\ row !! i = Some x)).
Proof.
  intros Hnode. revert m. induction pre as [|y pre IH] using rev_ind; intros m H.
  - simpl in H. injection H as <-. split; [reflexivity|]. split; [reflexivity|].
    intros row0 Hrow0. exists row0. split; [exact Hrow0|].
    split; [reflexivity|]. split; [reflexivity|].
    intros i y Hy. rewrite lookup_nil in Hy. discriminate.
  - rewrite enumerate_snoc, for_each_app in H. inv_bind H as m1 Hm1.
    simpl in H. inv_bind H as m2 Hm2. injection H as <-.
    destruct (IH _ Hm1) as (Hlen & Hother & Hown).
    unfold map_slot in Hm2. simpl in Hm2. inv_bind Hm2 as x Hx.
    apply np_set2_spec in Hm2 as (row1 & Hrow1 & Hlt & ->); [|exact Hnode|lia].
    rewrite Nat2Z.id in Hlt |- *. split; [|split].
    + rewrite length_insert. exact Hlen.
    + intros r Hr. rewrite list_lookup_insert_ne by congruence. apply Hother. exact Hr.
    + intros row0 Hrow0.
      destruct (Hown row0 Hrow0) as (row & Hrow & Hl & Hrest & Hset).
      assert (row1 = row) as -> by congruence.
      exists (<[length pre := x]> row). split; [|split; [|split]].
      * apply list_lookup_insert_eq. eapply lookup_lt_Some. exact Hrow.
      * rewrite length_insert. exact Hl.
      * intros i Hi. rewrite length_app in Hi. simpl in Hi.
        rewrite list_lookup_insert_ne by lia. apply Hrest. lia.
      * intros i z Hz. destruct (decide (i = length pre)) as [->|Hne].
        -- rewrite lookup_app_r in Hz by lia. rewrite Nat.sub_diag in Hz.
           injection Hz as <-. exists x. split; [exact Hx|].
           apply list_lookup_insert_eq. exact Hlt.
        -- assert (Hi : (i < length pre)%nat).
           { apply lookup_lt_Some in Hz. rewrite length_app in Hz. simpl in Hz. lia. }
           rewrite lookup_app_l in Hz by exact Hi.
           destruct (Hset i z Hz) as (x' & Hx' & Hl').
           exists x'. split; [exact Hx'|].
           rewrite list_lookup_insert_ne by lia. exact Hl'.
Qed.

(** The outer loop over the first [k] nodes. *)
Lemma build_map_spec own_deg own_adj nbr_adj own_list (k : nat) m0 m :
  for_each (xrange (Z.of_nat k)) (map_node own_deg own_adj nbr_adj own_list) m0
    = Ok m ->
  length m = length m0 /\
  (forall r : nat, (k <= r)%nat -> m !! r = m0 !! r) /\
  (forall (r : nat) row0, (r < k)%nat -> m0 !! r = Some row0 ->
     exists deg arow row,
       np_get own_deg (Z.of_nat r) = Ok deg /\
       own_adj !! r = Some arow /\
       m !! r = Some row /\
       length row = length row0 /\
       forall (i : nat) y, np_prefix arow deg !! i = Some y ->
         exists x, back_slot nbr_adj own_list (Z.of_nat r) y = Ok x
                   /\ row !! i = Some x).
Proof.
  revert m. induction k as [|k IH]; intros m H.
  - simpl in H. injection H as <-. split; [reflexivity|]. split; [reflexivity|].
    intros r row0 Hr. lia.
  - rewrite xrange_succ, for_each_app in H. inv_bind H as m1 Hm1.
    simpl in H. inv_bind H as m2 Hm2. injection H as <-.
    destruct (IH _ Hm1) as (Hlen & Hlater & Hdone).
    unfold map_node in Hm2. inv_bind Hm2 as deg Hdeg. inv_bind Hm2 as arow Harow.
    apply np_get_nonneg in Harow; [|lia]. rewrite Nat2Z.id in Harow.
    apply map_row_spec in Hm2 as (Hlen2 & Hother & Hown); [|lia].
    rewrite Nat2Z.id in Hother, Hown. split; [|split].
    + congruence.
    + intros r Hr. rewrite Hother by lia. apply Hlater. lia.
    + intros r row0 Hr Hrow0. destruct (decide (r = k)) as [->|Hne].
      * destruct (Hown row0) as (row & Hrow & Hl & _ & Hset).
        { rewrite Hlater by lia. exact Hrow0. }
        exists deg, arow, row. auto.
      * destruct (Hdone r row0) as (deg' & arow' & row & H1 & H2 & H3 & H4 & H5);
          [lia | exact Hrow0 |].
        exists deg', arow', row. rewrite Hother by exact Hne. auto.
Qed.

(** A map built over an array of the declared shape has that shape, and
    its live slots hold back slots. *)
Lemma build_map_built n_own max_deg own_deg own_adj nbr_adj n_list map0 m :
  np_full2 n_own max_deg (-1) = Ok map0 ->
  build_map n_own own_deg own_adj nbr_adj (np_arange n_list) map0 = Ok m ->
  length m = Z.to_nat n_own /\
  Forall (fun row => length row = Z.to_nat max_deg) m /\
  forall (r : nat) arow deg (i : nat) y,
    own_adj !! r = Some arow ->
    np_get own_deg (Z.of_nat r) = Ok deg ->
    (r < Z.to_nat n_own)%nat ->
    np_prefix arow deg !! i = Some y ->
    exists row (k : nat) nbr_row,
      m !! r = Some row /\
      row !! i = Some (Z.of_nat k) /\
      np_get nbr_adj y = Ok nbr_row /\
      nbr_row !! k = Some (Z.of_nat r) /\
      forall k' : nat, nbr_row !! k' = Some (Z.of_nat r) -> k' = k.
Proof.
  intros Hfull H. apply np_full2_Ok in Hfull as (Hn & Hm & ->).
  unfold build_map in H. rewrite <- (Z2Nat.id n_own) in H by exact Hn.
  apply build_map_spec in H as (Hlen & _ & Hdone).
  rewrite Nat2Z.id in Hlen, Hdone.
  rewrite length_replicate in Hlen. split; [exact Hlen|]. split.
  - apply Forall_lookup. intros r row Hrow.
    assert (Hr : (r < Z.to_nat n_own)%nat).
    { rewrite <- Hlen. eapply lookup_lt_Some. exact Hrow. }
    destruct (Hdone r (replicate (Z.to_nat max_deg) (-1)) Hr)
      as (deg & arow & row' & _ & _ & Hrow' & Hl & _).
    { apply lookup_replicate_2. exact Hr. }
    assert (row' = row) as -> by congruence.
    rewrite Hl. apply length_replicate.
  - intros r arow deg i y Harow Hdeg Hr Hy.
    destruct (Hdone r (replicate (Z.to_nat max_deg) (-1)) Hr)
      as (deg' & arow' & row & Hdeg' & Harow' & Hrow & _ & Hset).
    { apply lookup_replicate_2. exact Hr. }
    assert (deg' = deg) as -> by congruence.
    assert (arow' = arow) as -> by congruence.
    destruct (Hset i y Hy) as (x & Hx & Hl).
    apply back_slot_spec in Hx as (nbr_row & k & Hn1 & -> & Hn2 & Hn3).
    exists row, k, nbr_row. auto.
Qed.

(** ** Flattened arrays *)

Lemma wrap32_small z : - 2 ^ 31 <= z < 2 ^ 31 -> wrap32 z = z.
Proof.
  intros H. unfold wrap32. rewrite Z.mod_small by lia. lia.
Qed.

Lemma flatten32_get (m : list (list Z)) (max_deg r i : Z) row x :
  Forall (fun row => length row = Z.to_nat max_deg) m ->
  0 <= r -> 0 <= i -> 0 <= max_deg ->
  m !! Z.to_nat r = Some row ->
  row !! Z.to_nat i = Some x ->
  np_get (flatten32 m) (r * max_deg + i) = Ok (wrap32 x).
Proof.
  intros Hshape Hr Hi Hm Hrow Hx.
  assert (Hlt : (Z.to_nat i < Z.to_nat max_deg)%nat).
  { rewrite <- (Forall_lookup_1 _ _ _ _ Hshape Hrow).
    eapply lookup_lt_Some. exact Hx. }
  apply np_get_nonneg; [nia|]. unfold flatten32.
  rewrite list_lookup_fmap.
  replace (Z.to_nat (r * max_deg + i))
    with (Z.to_nat r * Z.to_nat max_deg + Z.to_nat i)%nat by nia.
  assert (Hj : mjoin m !! (Z.to_nat r * Z.to_nat max_deg + Z.to_nat i)%nat = Some x).
  { apply (join_lookup_Some_same_length' (Z.to_nat max_deg)); [exact Hshape | exact Hlt |].
    exists row. auto. }
  rewrite Hj. reflexivity.
Qed.

Lemma flatten32_get_small (m : list (list Z)) (max_deg r i : Z) row x :
  Forall (fun row => length row = Z.to_nat max_deg) m ->
  0 <= r -> 0 <= i -> 0 <= max_deg ->
  m !! Z.to_nat r = Some row ->
  row !! Z.to_nat i = Some x ->
  - 2 ^ 31 <= x < 2 ^ 31 ->
  np_get (flatten32 m) (r * max_deg + i) = Ok x.
Proof.
  intros Hshape Hr Hi Hm Hrow Hx Hsmall.
  rewrite (flatten32_get m max_deg r i row x) by assumption.
  rewrite wrap32_small by exact Hsmall. reflexivity.
Qed.

(** ** The round trip through the cross-reference maps *)

(** A live slot of a well-formed, padded adjacency array. *)
Lemma live_slot n n_other max_deg deg_list adj (r i : Z) :
  padded n max_deg deg_list adj ->
  (forall (k : nat) deg row,
     deg_list !! k = Some deg -> adj !! k = Some row ->
     row_ok n_other max_deg deg row) ->
  0 <= r < n ->
  0 <= i < np_at 0 deg_list r ->
  exists deg row x,
    np_get deg_list r = Ok deg /\
    0 <= deg <= max_deg /\
    adj !! Z.to_nat r = Some row /\
    length row = Z.to_nat max_deg /\
    row !! Z.to_nat i = Some x /\
    np_prefix row deg !! Z.to_nat i = Some x /\
    0 <= x < n_other.
Proof.
  intros (Hn & Hm & Hlen & Hrows) Hwf Hr Hi.
  destruct (lookup_lt_is_Some_2 adj (Z.to_nat r)) as (row & Hrow); [lia|].
  destruct (Hrows _ _ Hrow) as (Hl & deg & Hdeg & _).
  rewrite Z2Nat.id in Hdeg by lia.
  rewrite (np_at_Ok 0 _ _ _ Hdeg) in Hi.
  pose proof Hdeg as Hdeg'. apply np_get_nonneg in Hdeg'; [|lia].
  destruct (Hwf _ _ _ Hdeg' Hrow) as (Hbound & Hentries).
  destruct (lookup_lt_is_Some_2 row (Z.to_nat i)) as (x & Hx); [lia|].
  exists deg, row, x. repeat split; try assumption; try lia.
  - unfold np_prefix. rewrite Hl, Z2Nat.id by lia.
    rewrite slice_bound_inside by lia.
    rewrite lookup_take_lt by lia. exact Hx.
  - apply (Hentries (Z.to_nat i) x); [lia | exact Hx].
  - apply (Hentries (Z.to_nat i) x); [lia | exact Hx].
Qed.

(** In a padded row, a slot that holds a node index is a live slot. *)
Lemma holder_is_live n max_deg deg_list adj (r : nat) row deg (k : nat) x :
  padded n max_deg deg_list adj ->
  adj !! r = Some row ->
  np_get deg_list (Z.of_nat r) = Ok deg ->
  0 <= deg <= max_deg ->
  row !! k = Some x ->
  0 <= x ->
  Z.of_nat k < deg.
Proof.
  intros (Hn & Hm & Hlen & Hrows) Hrow Hdeg Hbound Hk Hx.
  destruct (Hrows _ _ Hrow) as (Hl & deg' & Hdeg' & Hpad).
  assert (deg' = deg) as -> by congruence.
  destruct (Z.lt_ge_cases (Z.of_nat k) deg) as [Hlt|Hge]; [exact Hlt|].
  exfalso. rewrite slice_bound_inside in Hpad by lia.
  assert (Hkm : (k < Z.to_nat max_deg)%nat).
  { rewrite <- Hl. eapply lookup_lt_Some. exact Hk. }
  rewrite (Hpad k) in Hk by lia. injection Hk as <-. lia.
Qed.

(** C4: in a graph built from a well-formed description, for every
    variable node [v] and live slot [i < vnode_deg[v]], with
    [c = vnode_adj[v][i]] and [j = vnode_cnode_map[v][i]]: [c] is a check
    node, [j] one of its live slots, [cnode_adj[c][j] = v] and
    [cnode_vnode_map[c][j] = i]. *)
Theorem graph_round_trip (f : list string) (d : design)
    (g : ldpc_code_params) (v i : Z) :
  read_design_file f = Ok d ->
  wf_design d ->
  get_ldpc_code_params f = Ok g ->
  0 <= v < n_vnodes g ->
  0 <= i < vnode_deg g v ->
  round_trip_at g v i.
Proof.
  intros Hread (Hsize & HwfV & HwfC) Hget Hv Hi.
  destruct (read_design_file_padded _ _ Hread) as (HpadV & HpadC).
  unfold get_ldpc_code_params in Hget. rewrite Hread in Hget. simpl in Hget.
  unfold build_params in Hget.
  inv_bind Hget as cvm0 Hcvm0. inv_bind Hget as vcm0 Hvcm0.
  inv_bind Hget as cvm Hcvm. inv_bind Hget as vcm Hvcm.
  inv_bind Hget as pmat Hpmat. injection Hget as <-.
  unfold round_trip_at, vnode_deg, cnode_deg in *. simpl in *.
  destruct Hsize as (Hnv & Hnc & Hmv & Hmc).
  destruct (build_map_built _ _ _ _ _ _ _ _ Hcvm0 Hcvm) as (_ & HshapeCM & HbuiltC).
  destruct (build_map_built _ _ _ _ _ _ _ _ Hvcm0 Hvcm) as (_ & HshapeVM & HbuiltV).
  (* the edge, seen from the variable node *)
  destruct (live_slot _ _ _ _ _ v i HpadV HwfV Hv Hi)
    as (vd & vrow & c & Hvd & Hvdb & Hvrow & Hvlen & Hvi & Hvpre & Hc).
  rewrite (np_at_Ok 0 _ _ _ Hvd) in Hi.
  destruct (HbuiltV (Z.to_nat v) vrow vd (Z.to_nat i) c Hvrow)
    as (vmrow & k & crow & Hvmrow & Hvk & Hcrow & Hck & _);
    [rewrite Z2Nat.id by lia; exact Hvd | destruct HpadV; lia | exact Hvpre |].
  rewrite Z2Nat.id in Hck by lia.
  apply np_get_nonneg in Hcrow; [|lia].
  (* the slot found in the check node's row is one of its live slots *)
  pose proof HpadC as (HnC & HmC & HlenC & HrowsC).
  destruct (HrowsC _ _ Hcrow) as (Hclen & cd & Hcd & _).
  rewrite Z2Nat.id in Hcd by lia.
  pose proof Hcd as Hcd'. apply np_get_nonneg in Hcd'; [|lia].
  destruct (HwfC _ _ _ Hcd' Hcrow) as (Hcdb & _).
  assert (Hk : Z.of_nat k < cd).
  { apply (holder_is_live (d_n_cnodes d) (d_max_cnode_deg d) (d_cnode_deg_list d)
             (d_cnode_adj d) (Z.to_nat c) crow cd k v); try assumption; try lia.
    rewrite Z2Nat.id by lia. exact Hcd. }
  assert (Hkm : (k < Z.to_nat (d_max_cnode_deg d))%nat).
  { rewrite <- Hclen. eapply lookup_lt_Some. exact Hck. }
  (* the edge, seen from the check node *)
  destruct (HbuiltC (Z.to_nat c) crow cd k v Hcrow)
    as (cmrow & k2 & vrow' & Hcmrow & Hck2 & Hvrow' & _ & Huniq).
  { rewrite Z2Nat.id by lia. exact Hcd. }
  { lia. }
  { unfold np_prefix. rewrite Hclen, Z2Nat.id by lia.
    rewrite slice_bound_inside by lia.
    rewrite lookup_take_lt by lia. exact Hck. }
  apply np_get_nonneg in Hvrow'; [|lia].
  assert (vrow' = vrow) as -> by congruence.
  assert (Hk2 : Z.to_nat i = k2).
  { apply Huniq. rewrite Z2Nat.id by lia. exact Hvi. }
  (* the same facts in the flattened arrays *)
  assert (HshapeV : Forall (fun row => length row = Z.to_nat (d_max_vnode_deg d))
                      (d_vnode_adj d)).
  { apply Forall_lookup. intros r row Hrow.
    destruct HpadV as (_ & _ & _ & HrowsV). apply (HrowsV _ _ Hrow). }
  assert (HshapeC : Forall (fun row => length row = Z.to_nat (d_max_cnode_deg d))
                      (d_cnode_adj d)).
  { apply Forall_lookup. intros r row Hrow. apply (HrowsC _ _ Hrow). }
  assert (HmV : 0 <= d_max_vnode_deg d) by (destruct HpadV as (_ & H & _); exact H).
  assert (Hgc : np_get (flatten32 (d_vnode_adj d)) (v * d_max_vnode_deg d + i) = Ok c).
  { apply (flatten32_get_small (d_vnode_adj d) (d_max_vnode_deg d) v i vrow c);
      try assumption; lia. }
  assert (Hgj : np_get (flatten32 vcm) (v * d_max_vnode_deg d + i) = Ok (Z.of_nat k)).
  { apply (flatten32_get_small vcm (d_max_vnode_deg d) v i vmrow (Z.of_nat k));
      try assumption; lia. }
  rewrite (np_at_Ok 0 _ _ _ Hgc), (np_at_Ok 0 _ _ _ Hgj).
  rewrite (np_at_Ok 0 _ _ _ Hcd).
  split; [exact Hc|]. split; [lia|]. split.
  - apply (flatten32_get_small (d_cnode_adj d) (d_max_cnode_deg d) c (Z.of_nat k)
             crow v); try assumption; try lia.
    rewrite Nat2Z.id. exact Hck.
  - apply (flatten32_get_small cvm (d_max_cnode_deg d) c (Z.of_nat k)
             cmrow i); try assumption; try lia.
    rewrite Nat2Z.id. rewrite Hck2. f_equal. lia.
Qed.

Lemma pair_file_wf :
  wf_design {| d_n_vnodes := 2; d_n_cnodes := 1;
               d_max_vnode_deg := 1; d_max_cnode_deg := 2;
               d_vnode_deg_list := [1; 1]; d_cnode_deg_list := [2];
               d_cnode_adj := [[0; 1]]; d_vnode_adj := [[0]; [0]] |}.
Proof.
  split; [simpl; lia|]. split; simpl.
  - intros [|[|v]] deg row Hd Hr; simpl in Hd, Hr; try discriminate;
      injection Hd as <-; injection Hr as <-; (split; [lia|]);
      intros [|i] x Hi Hx; simpl in Hx; try lia; injection Hx as <-; lia.
  - intros [|c] deg row Hd Hr; simpl in Hd, Hr; try discriminate.
    injection Hd as <-. injection Hr as <-. split; [lia|].
    intros [|[|i]] x Hi Hx; simpl in Hx; try lia; injection Hx as <-; lia.
Qed.

Lemma graph_round_trip_witness : round_trip_at pair_code 1 0.
Proof.
  apply (graph_round_trip pair_file
           {| d_n_vnodes := 2; d_n_cnodes := 1;
              d_max_vnode_deg := 1; d_max_cnode_deg := 2;
              d_vnode_deg_list := [1; 1]; d_cnode_deg_list := [2];
              d_cnode_adj := [[0; 1]]; d_vnode_adj := [[0]; [0]] |}).
  - vm_compute. reflexivity.
  - exact pair_file_wf.
  - vm_compute. reflexivity.
  - simpl. lia.
  - vm_compute. split; [discriminate | reflexivity].
Defined.

(** * Further properties of the decoder *)

(** ** Stopping before the budget is spent *)

Lemma parity_scan_zero p dw cs :
  parity_scan p dw cs = Ok 0 ->
  forall c, c ∈ cs -> parity_of p dw c = 0.
Proof.
  induction cs as [|c cs IH]; simpl; intros H c' Hc'.
  - inversion Hc'.
  - inv_bind H as p_sum Hsum. apply cnode_parity_spec in Hsum.
    destruct (Z.eqb_spec p_sum 0) as [Hz|Hnz]; [|discriminate].
    apply elem_of_cons in Hc' as [->|Hc'].
    + congruence.
    + apply IH; assumption.
Qed.

Section StoppingEarly.

Variable np_tanh : float -> float.
Variable np_arctanh : float -> float.

Lemma bp_iterations_early p llr_vec budget st0 st k :
  bp_iterations np_tanh np_arctanh p llr_vec budget st0 = Ok (st, k) ->
  (k < budget)%nat ->
  parity_satisfied p (dec_word st).
Proof.
  revert st0 st k. induction budget as [|n IH]; intros st0 st k H Hk; [lia|].
  simpl in H. inv_bind H as st2 Hst2. inv_bind H as flag Hflag.
  destruct (Z.eqb_spec flag 0) as [->|Hne].
  - injection H as <- _. intros c Hc.
    eapply parity_scan_zero; [exact Hflag|]. apply elem_of_xrange. exact Hc.
  - inv_bind H as r Hr. destruct r as [st3 k3]. injection H as <- <-.
    eapply IH; [exact Hr | lia].
Qed.

(** A run never makes more iterations than [n_iters], and a run that
    made fewer returns a word that satisfies every parity check. *)
Theorem early_stop_satisfies_parity (llr_vec : list float)
    (p : ldpc_code_params) (n_iters : Z) (st : bp_state) (k : nat) :
  bp_run np_tanh np_arctanh llr_vec p n_iters = Ok (st, k) ->
  (k <= Z.to_nat n_iters)%nat
  /\ ((k < Z.to_nat n_iters)%nat -> parity_satisfied p (dec_word st)).
Proof.
  intros H. split; [eapply bp_run_bounded; exact H|]. intros Hk.
  unfold bp_run in H. inv_bind H as st0 Hst0.
  eapply bp_iterations_early; eassumption.
Qed.

(** ** A larger budget after convergence *)

Lemma bp_iterations_more p llr_vec budget extra st0 st k :
  bp_iterations np_tanh np_arctanh p llr_vec budget st0 = Ok (st, k) ->
  (k < budget)%nat ->
  bp_iterations np_tanh np_arctanh p llr_vec (budget + extra) st0 = Ok (st, k).
Proof.
  revert st0 st k. induction budget as [|n IH]; intros st0 st k H Hk; [lia|].
  simpl in H |- *. inv_bind H as st2 Hst2. inv_bind H as flag Hflag.
  rewrite Hst2. simpl. rewrite Hflag. simpl.
  destruct (flag =? 0); [exact H|].
  inv_bind H as r Hr. destruct r as [st3 k3]. injection H as <- <-.
  rewrite (IH _ _ _ Hr) by lia. reflexivity.
Qed.

(** Once the decoder has stopped before its budget was spent, any larger
    budget gives the same result. *)
Theorem larger_budget_same_result (llr_vec : list float)
    (p : ldpc_code_params) (n_iters n_more : Z) (st : bp_state) (k : nat) :
  bp_run np_tanh np_arctanh llr_vec p n_iters = Ok (st, k) ->
  (k < Z.to_nat n_iters)%nat ->
  n_iters <= n_more ->
  bp_run np_tanh np_arctanh llr_vec p n_more = Ok (st, k)
  /\ ldpc_bp_decode np_tanh np_arctanh llr_vec p n_more
     = ldpc_bp_decode np_tanh np_arctanh llr_vec p n_iters.
Proof.
  intros H Hk Hle.
  assert (Hrun : bp_run np_tanh np_arctanh llr_vec p n_more = Ok (st, k)).
  { unfold bp_run in H |- *. inv_bind H as st0 Hst0. rewrite Hst0. simpl.
    replace (Z.to_nat n_more)
      with (Z.to_nat n_iters + (Z.to_nat n_more - Z.to_nat n_iters))%nat by lia.
    apply bp_iterations_more; assumption. }
  split; [exact Hrun|]. unfold ldpc_bp_decode. rewrite Hrun, H. reflexivity.
Qed.

(** ** The shape of the result *)

Lemma np_set_Forall {A} (P : A -> Prop) (a a' : list A) i x :
  Forall P a -> P x -> np_set a i x = Ok a' -> Forall P a'.
Proof.
  intros Ha Hx H. unfold np_set in H. inv_bind H as k Hk. injection H as <-.
  apply Forall_insert; assumption.
Qed.

Lemma vnode_update_shape p llr_vec v n st st' :
  result_shape n st -> vnode_update p llr_vec v st = Ok st' -> result_shape n st'.
Proof.
  intros (Hd & Ho & Hb) H. unfold vnode_update in H.
  inv_bind H as d Hd'. inv_bind H as msg_sum Hsum. inv_bind H as vm Hvm.
  inv_bind H as llr Hllr. inv_bind H as z Hz. inv_bind H as ol Hol.
  inv_bind H as o Hget. inv_bind H as dw Hdw. injection H as <-.
  unfold result_shape. simpl. split; [|split].
  - rewrite (np_set_length _ _ _ _ Hdw). exact Hd.
  - rewrite (np_set_length _ _ _ _ Hol). exact Ho.
  - eapply np_set_Forall; [exact Hb | | exact Hdw].
    unfold is_bit. destruct (0 <? o); auto.
Qed.

Lemma bp_update_shape p llr_vec n st st' :
  result_shape n st ->
  bp_update np_tanh np_arctanh p llr_vec st = Ok st' ->
  result_shape n st'.
Proof.
  intros Hs H. unfold bp_update in H. inv_bind H as st1 Hst1.
  unfold check_node_update in Hst1. inv_bind Hst1 as cm Hcm.
  injection Hst1 as <-. unfold variable_node_update in H.
  eapply (for_each_invariant (result_shape n)); [| | exact H].
  - intros v s s' _. apply vnode_update_shape.
  - exact Hs.
Qed.

Lemma bp_iterations_shape p llr_vec n budget st0 st k :
  result_shape n st0 ->
  bp_iterations np_tanh np_arctanh p llr_vec budget st0 = Ok (st, k) ->
  result_shape n st.
Proof.
  revert st0 st k. induction budget as [|m IH]; intros st0 st k Hs H; simpl in H.
  - injection H as <- _. exact Hs.
  - inv_bind H as st2 Hst2. inv_bind H as flag Hflag.
    pose proof (bp_update_shape _ _ _ _ _ Hs Hst2) as Hs2.
    destruct (flag =? 0).
    + injection H as <- _. exact Hs2.
    + inv_bind H as r Hr. destruct r as [st3 k3]. injection H as <- _.
      eapply IH; eassumption.
Qed.

(** Whatever the budget, a returned [dec_word] has one entry per variable
    node, each 0 or 1, and the returned [out_llrs] one entry per variable
    node. *)
Theorem decode_result_shape (llr_vec : list float) (p : ldpc_code_params)
    (n_iters : Z) (dw ol : list Z) :
  ldpc_bp_decode np_tanh np_arctanh llr_vec p n_iters = Ok (dw, ol) ->
  Z.of_nat (length dw) = n_vnodes p
  /\ Z.of_nat (length ol) = n_vnodes p
  /\ forall b, b ∈ dw -> b = 0 \/ b = 1.
Proof.
  intros H. unfold ldpc_bp_decode in H. inv_bind H as r Hr.
  destruct r as [st k]. injection H as <- <-. unfold bp_run in Hr.
  inv_bind Hr as st0 Hst0.
  assert (Hn : 0 <= n_vnodes p /\ result_shape (Z.to_nat (n_vnodes p)) st0).
  { unfold bp_init in Hst0. inv_bind Hst0 as dw0 Hdw0. inv_bind Hst0 as ol0 Hol0.
    inv_bind Hst0 as cm Hcm. inv_bind Hst0 as vm0 Hvm0. inv_bind Hst0 as vm Hvm.
    injection Hst0 as <-. unfold np_zeros in Hdw0, Hol0.
    destruct (Z.ltb_spec (n_vnodes p) 0); [discriminate|].
    injection Hdw0 as <-. injection Hol0 as <-. split; [assumption|].
    unfold result_shape. simpl. rewrite !length_replicate.
    split; [reflexivity|]. split; [reflexivity|].
    apply Forall_replicate. left. reflexivity. }
  destruct Hn as (Hn & Hs0).
  destruct (bp_iterations_shape _ _ _ _ _ _ _ Hs0 Hr) as (Hd & Ho & Hb).
  simpl. split; [lia|]. split; [lia|].
  intros b Hin. rewrite Forall_forall in Hb. apply Hb. exact Hin.
Qed.

(** ** What is returned after an iteration *)

(** After one iteration or more, the returned [out_llrs[v]] is the
    channel value plus the full sum of the last check-node messages,
    truncated toward zero to an integer, and [dec_word[v]] is 0 exactly
    when that integer is positive. *)
Theorem returned_values_from_integer_part (llr_vec : list float)
    (p : ldpc_code_params) (n_iters : Z) (st : bp_state) (k : nat) (v : Z) :
  bp_run np_tanh np_arctanh llr_vec p n_iters = Ok (st, k) ->
  (1 <= k)%nat ->
  0 <= v < n_vnodes p ->
  exists llr z,
    np_get llr_vec v = Ok llr /\
    int_of_float (llr + incoming_sum p (cnode_msgs st) v) = Ok z /\
    np_get (out_llrs st) v = Ok z /\
    np_get (dec_word st) v = Ok (if 0 <? z then 0 else 1).
Proof.
  intros H Hk Hv. unfold bp_run in H. inv_bind H as st0 Hst0.
  apply bp_init_stride in Hst0; [|lia].
  destruct (bp_iterations_last_update _ _ _ _ _ _ _ _ H Hk) as (st1 & Hst1).
  assert (Hcm : cnode_msgs st = cnode_msgs st1).
  { unfold variable_node_update in Hst1.
    rewrite <- (Z2Nat.id (n_vnodes p)) in Hst1 by lia.
    apply vnode_posteriors_stored in Hst1 as (Hcm & _); [exact Hcm | exact Hst0]. }
  rewrite Hcm. eapply posterior_truncated; eassumption.
Qed.

End StoppingEarly.

(** ** Clipping a second time *)

(** [_limit_llr] returns its argument when the argument is within the
    range, so clipping twice is clipping once. *)
Theorem limit_llr_idempotent (x : float) :
  (exceeds_clip x = false -> _limit_llr x = x)
  /\ _limit_llr (_limit_llr x) = _limit_llr x.
Proof.
  assert (Hfix : forall y, exceeds_clip y = false -> _limit_llr y = y).
  { intros y Hy. unfold exceeds_clip in Hy. apply orb_false_iff in Hy as [Hhi Hlo].
    unfold _limit_llr. rewrite Hhi, Hlo. reflexivity. }
  split; [apply Hfix|]. apply Hfix. apply limit_llr_within.
Qed.

Lemma early_stop_satisfies_parity_witness :
  exists st, bp_run tanh_standin arctanh_standin [1%float; 2%float] pair_code 3
             = Ok (st, 1%nat)
    /\ parity_satisfied pair_code (dec_word st).
Proof.
  assert (Hrun : exists st,
            bp_run tanh_standin arctanh_standin [1%float; 2%float] pair_code 3
              = Ok (st, 1%nat))
    by (eexists; vm_compute; reflexivity).
  destruct Hrun as (st & Hst). exists st. split; [exact Hst|].
  apply (early_stop_satisfies_parity tanh_standin arctanh_standin
           [1%float; 2%float] pair_code 3 st 1 Hst).
  simpl. lia.
Defined.

Lemma larger_budget_same_result_witness :
  ldpc_bp_decode tanh_standin arctanh_standin [1%float; 2%float] pair_code 50
  = ldpc_bp_decode tanh_standin arctanh_standin [1%float; 2%float] pair_code 3.
Proof.
  assert (Hrun : exists st,
            bp_run tanh_standin arctanh_standin [1%float; 2%float] pair_code 3
              = Ok (st, 1%nat))
    by (eexists; vm_compute; reflexivity).
  destruct Hrun as (st & Hst).
  apply (larger_budget_same_result tanh_standin arctanh_standin
           [1%float; 2%float] pair_code 3 50 st 1 Hst); [simpl; lia | lia].
Defined.

Lemma decode_result_shape_witness :
  Z.of_nat (length [0; 0]) = n_vnodes pair_code
  /\ Z.of_nat (length [3; 3]) = n_vnodes pair_code
  /\ forall b, b ∈ [0; 0] -> b = 0 \/ b = 1.
Proof.
  apply (decode_result_shape tanh_standin arctanh_standin
           [1%float; 2%float] pair_code 3 [0; 0] [3; 3]).
  vm_compute. reflexivity.
Defined.

Lemma returned_values_from_integer_part_witness :
  exists st llr z,
    bp_run tanh_standin arctanh_standin [1%float; 2%float] pair_code 3
      = Ok (st, 1%nat)
    /\ np_get [1%float; 2%float] 0 = Ok llr
    /\ int_of_float (llr + incoming_sum pair_code (cnode_msgs st) 0) = Ok z
    /\ np_get (out_llrs st) 0 = Ok z.
Proof.
  assert (Hrun : exists st,
            bp_run tanh_standin arctanh_standin [1%float; 2%float] pair_code 3
              = Ok (st, 1%nat))
    by (eexists; vm_compute; reflexivity).
  destruct Hrun as (st & Hst).
  destruct (returned_values_from_integer_part tanh_standin arctanh_standin
              [1%float; 2%float] pair_code 3 st 1 0 Hst)
    as (llr & z & H1 & H2 & H3 & _); [lia | simpl; lia |].
  exists st, llr, z. auto.
Defined.

Lemma limit_llr_idempotent_witness :
  _limit_llr 7%float = 7%float.
Proof.
  apply (proj1 (limit_llr_idempotent 7%float)). reflexivity.
Defined.

(** ** The messages of the variable nodes *)

Section VariableMessages.

Variable np_tanh : float -> float.
Variable np_arctanh : float -> float.

(** One variable node writes its own block of slots, each with the
    clipped extrinsic value, and nothing else. *)
Lemma vnode_update_block p llr_vec v st st' :
  0 <= v ->
  vnode_deg p v <= max_vnode_deg p ->
  vnode_update p llr_vec v st = Ok st' ->
  cnode_msgs st' = cnode_msgs st /\
  (forall i, 0 <= i < vnode_deg p v ->
     vnode_msgs st' !! Z.to_nat (v * max_vnode_deg p + i)
       = Some (extrinsic_variable_msg p llr_vec (cnode_msgs st) v i)) /\
  (forall j : nat,
     Z.of_nat j < v * max_vnode_deg p
     \/ v * max_vnode_deg p + vnode_deg p v <= Z.of_nat j ->
     vnode_msgs st' !! j = vnode_msgs st !! j).
Proof.
  intros Hv Hbound H. unfold vnode_update in H.
  inv_bind H as d Hd. apply vnode_deg_Ok in Hd. rewrite Hd in *.
  inv_bind H as msg_sum Hsum.
  apply (vnode_msg_sum_spec _ _ _ _ _ Hd) in Hsum. subst msg_sum.
  inv_bind H as vm Hvm.
  inv_bind H as llr Hllr. inv_bind H as z Hz. inv_bind H as ol Hol.
  inv_bind H as o Ho. inv_bind H as dw Hdw. injection H as <-. simpl.
  split; [reflexivity|].
  destruct (Z.le_gt_cases d 0) as [Hd0|Hd0].
  { rewrite xrange_nonpos in Hvm by exact Hd0. injection Hvm as <-.
    split; [intros i Hi; lia | reflexivity]. }
  rewrite <- (Z2Nat.id d) in Hvm by lia.
  apply (for_each_writes
           (fun i : Z =>
              np_get (vnode_adj_list p) (v * max_vnode_deg p + i) ≫= fun cnode =>
              np_get llr_vec v ≫= fun l =>
              np_get (vnode_cnode_map p) (v * max_vnode_deg p + i) ≫= fun slot =>
              np_get (cnode_msgs st) (cnode * max_cnode_deg p + slot) ≫= fun m =>
              Ok (_limit_llr (l + incoming_sum p (cnode_msgs st) v - m)%float))
           (v * max_vnode_deg p)) in Hvm as (_ & Hin & Hout).
  - rewrite Z2Nat.id in Hin, Hout by lia. split; [|exact Hout].
    intros i Hi. destruct (Hin i Hi) as (x & Hx & Hl). rewrite Hl. f_equal.
    inv_bind Hx as cnode Hcnode. inv_bind Hx as l Hl'.
    inv_bind Hx as slot Hslot. inv_bind Hx as m Hm. injection Hx as <-.
    unfold extrinsic_variable_msg, vnode_incoming.
    rewrite (np_at_Ok nan _ _ _ Hl'), Hcnode. simpl. rewrite Hslot. simpl.
    rewrite Hm. reflexivity.
  - nia.
  - intros i a.
    destruct (np_get (vnode_adj_list p) _) as [cnode|]; [|reflexivity]. simpl.
    destruct (np_get llr_vec v); [|reflexivity]. simpl.
    destruct (np_get (vnode_cnode_map p) _) as [slot|]; [|reflexivity]. simpl.
    destruct (np_get (cnode_msgs st) _); reflexivity.
Qed.

Lemma vnode_blocks_written p llr_vec (k : nat) st0 st :
  Z.of_nat k <= n_vnodes p ->
  vnode_degrees_bounded p ->
  for_each (xrange (Z.of_nat k)) (vnode_update p llr_vec) st0 = Ok st ->
  cnode_msgs st = cnode_msgs st0 /\
  forall v i, 0 <= v < Z.of_nat k -> 0 <= i < vnode_deg p v ->
    vnode_msgs st !! Z.to_nat (v * max_vnode_deg p + i)
      = Some (extrinsic_variable_msg p llr_vec (cnode_msgs st0) v i).
Proof.
  intros Hk Hb. revert st. induction k as [|k IH]; intros st H.
  - simpl in H. injection H as <-. split; [reflexivity|]. intros v i Hv. lia.
  - rewrite xrange_succ, for_each_app in H. inv_bind H as st1 Hst1.
    simpl in H. inv_bind H as st2 Hst2. injection H as <-.
    destruct (IH ltac:(lia) _ Hst1) as (Hcm & Hdone).
    apply vnode_update_block in Hst2 as (Hcm2 & Hin & Hout);
      [| lia | apply Hb; lia].
    split; [congruence|]. intros v i Hv Hi.
    destruct (Z.eq_dec v (Z.of_nat k)) as [->|Hne].
    + rewrite <- Hcm. apply Hin. exact Hi.
    + rewrite Hout.
      * apply Hdone; [lia | exact Hi].
      * left. assert (vnode_deg p v <= max_vnode_deg p) by (apply Hb; lia).
        rewrite Z2Nat.id by nia. nia.
Qed.

(** After the variable-node update of an iteration, the message at slot
    [(v, i)], [i < vnode_deg[v]], is the channel value of [v] plus the
    sum of all the check-node messages it received, minus the one it
    received on edge [i], clipped by [_limit_llr]. *)
Theorem variable_node_message_formula (p : ldpc_code_params)
    (llr_vec : list float) (st st' : bp_state) (v i : Z) :
  vnode_degrees_bounded p ->
  variable_node_update p llr_vec st = Ok st' ->
  0 <= v < n_vnodes p ->
  0 <= i < vnode_deg p v ->
  cnode_msgs st' = cnode_msgs st /\
  np_get (vnode_msgs st') (v * max_vnode_deg p + i)
    = Ok (_limit_llr (np_at nan llr_vec v + incoming_sum p (cnode_msgs st) v
                      - result_or nan (vnode_incoming p (cnode_msgs st) v i)))%float.
Proof.
  intros Hb H Hv Hi. unfold variable_node_update in H.
  rewrite <- (Z2Nat.id (n_vnodes p)) in H by lia.
  assert (Hk : Z.of_nat (Z.to_nat (n_vnodes p)) <= n_vnodes p) by lia.
  destruct (vnode_blocks_written p llr_vec _ _ _ Hk Hb H) as (Hcm & Hdone).
  split; [exact Hcm|].
  assert (vnode_deg p v <= max_vnode_deg p) by (apply Hb; lia).
  apply np_get_nonneg; [nia|]. apply Hdone; lia.
Qed.

(** In a graph whose maps lead from edge [i] of [v] to slot [j] of [c]
    and back, the message [v] reads on that edge after a check-node
    update is [2 * atanh(P / tanh(own / 2))], where [own] is the message
    [v] itself had on the edge and [P] the product over all the edges of
    [c]: what comes back leaves out what was sent. *)
Theorem check_message_excludes_own (p : ldpc_code_params) (st st1 : bp_state)
    (v i c j : Z) :
  cnode_degrees_bounded p ->
  check_node_update np_tanh np_arctanh p st = Ok st1 ->
  np_get (vnode_adj_list p) (v * max_vnode_deg p + i) = Ok c ->
  np_get (vnode_cnode_map p) (v * max_vnode_deg p + i) = Ok j ->
  round_trip_at p v i ->
  vnode_incoming p (cnode_msgs st1) v i
    = Ok (2 * np_arctanh
            (tanh_product np_tanh p (vnode_msgs st) c
             / np_tanh (np_at nan (vnode_msgs st) (v * max_vnode_deg p + i) / 2)))%float.
Proof.
  intros Hb H Hc Hj Hrt. unfold round_trip_at in Hrt.
  rewrite (np_at_Ok 0 _ _ _ Hc), (np_at_Ok 0 _ _ _ Hj) in Hrt.
  destruct Hrt as (Hcr & Hjr & Hback & Hslot).
  unfold check_node_update in H. inv_bind H as cm Hcm. injection H as <-. simpl.
  assert (Hm : cnode_deg p c <= max_cnode_deg p) by (apply Hb; exact Hcr).
  rewrite <- (Z2Nat.id (n_cnodes p)) in Hcm by lia.
  assert (Hk : Z.of_nat (Z.to_nat (n_cnodes p)) <= n_cnodes p) by lia.
  pose proof (cnode_blocks_written np_tanh np_arctanh p (vnode_msgs st) _ _ _
                Hk Hb Hcm c j ltac:(lia) Hjr) as Hval.
  unfold vnode_incoming. rewrite Hc. simpl. rewrite Hj. simpl.
  assert (Hget : np_get cm (c * max_cnode_deg p + j)
                 = Ok (extrinsic_check_msg np_tanh np_arctanh p (vnode_msgs st) c j)).
  { apply np_get_nonneg; [nia | exact Hval]. }
  rewrite Hget. unfold extrinsic_check_msg, incoming_at, cnode_incoming.
  rewrite Hback. simpl. rewrite Hslot. simpl. reflexivity.
Qed.

End VariableMessages.

Lemma pair_code_vnode_degrees_bounded : vnode_degrees_bounded pair_code.
Proof.
  intros v Hv. simpl in Hv.
  assert (v = 0 \/ v = 1) as [-> | ->] by lia; vm_compute; discriminate.
Qed.

Lemma variable_node_message_formula_witness :
  exists st',
    variable_node_update pair_code [1%float; 2%float]
      {| cnode_msgs := [2%float; 1%float]; vnode_msgs := [1%float; 2%float];
         dec_word := [0; 0]; out_llrs := [0; 0] |} = Ok st'
    /\ np_get (vnode_msgs st') (1 * max_vnode_deg pair_code + 0)
       = Ok (_limit_llr (np_at nan [1%float; 2%float] 1
                         + incoming_sum pair_code [2%float; 1%float] 1
                         - result_or nan
                             (vnode_incoming pair_code [2%float; 1%float] 1 0)))%float.
Proof.
  eexists. split; [reflexivity|].
  apply (variable_node_message_formula pair_code [1%float; 2%float]
           {| cnode_msgs := [2%float; 1%float]; vnode_msgs := [1%float; 2%float];
              dec_word := [0; 0]; out_llrs := [0; 0] |}).
  - exact pair_code_vnode_degrees_bounded.
  - reflexivity.
  - simpl. lia.
  - vm_compute. split; [discriminate | reflexivity].
Defined.

Lemma pair_code_round_trip_0 : round_trip_at pair_code 1 0.
Proof.
  unfold round_trip_at. vm_compute.
  repeat split; try discriminate; reflexivity.
Qed.

Lemma check_message_excludes_own_witness :
  exists st1,
    check_node_update tanh_standin arctanh_standin pair_code pair_start = Ok st1
    /\ vnode_incoming pair_code (cnode_msgs st1) 1 0
       = Ok (2 * arctanh_standin
               (tanh_product tanh_standin pair_code [1%float; 2%float] 0
                / tanh_standin
                    (np_at nan [1%float; 2%float]
                       (1 * max_vnode_deg pair_code + 0) / 2)))%float.
Proof.
  eexists. split; [reflexivity|].
  apply (check_message_excludes_own tanh_standin arctanh_standin pair_code
           pair_start _ 1 0 0 1).
  - exact pair_code_degrees_bounded.
  - reflexivity.
  - reflexivity.
  - reflexivity.
  - exact pair_code_round_trip_0.
Defined.

(** ** Index safety of the decoder *)

Lemma for_each_defined {S X} (xs : list X) (body : X -> S -> result S) (s : S) :
  (forall x s, x ∈ xs -> exists s', body x s = Ok s') ->
  exists s', for_each xs body s = Ok s'.
Proof.
  intros Hbody.
  destruct (for_each_total (fun _ : S => True) xs body s) as (s' & H & _);
    [| exact I | exists s'; exact H].
  intros x t Hx _. destruct (Hbody x t Hx) as (t' & Ht'). eauto.
Qed.

Lemma for_each_safe {S X} (I : S -> Prop) (xs : list X)
    (body : X -> S -> result S) (s : S) :
  (forall x s, x ∈ xs -> I s -> safe_outcome I (body x s)) ->
  I s ->
  safe_outcome I (for_each xs body s).
Proof.
  revert s. induction xs as [|x xs IH]; intros s Hbody Hs; simpl.
  - exact Hs.
  - pose proof (Hbody x s ltac:(left) Hs) as Hx.
    destruct (body x s) as [s1|e]; simpl in *; [|exact Hx].
    apply IH; [|exact Hx]. intros y t Hy. apply Hbody. right. exact Hy.
Qed.

Lemma for_each_ext_in {S X} (xs : list X) (f g : X -> S -> result S) (s : S) :
  (forall x s, x ∈ xs -> f x s = g x s) ->
  for_each xs f s = for_each xs g s.
Proof.
  revert s. induction xs as [|x xs IH]; intros s H; simpl; [reflexivity|].
  rewrite H by left. destruct (g x s) as [s1|e]; simpl; [|reflexivity].
  apply IH. intros y t Hy. apply H. right. exact Hy.
Qed.

Lemma int_of_float_error x e : int_of_float x = Raise e -> storage_error e.
Proof.
  unfold int_of_float, storage_error.
  destruct (Prim2SF x) as [s| | |s m k]; try discriminate.
  - intros [= <-]. right. reflexivity.
  - intros [= <-]. left. reflexivity.
  - destruct (fits_int64 _); [discriminate|]. intros [= <-]. right. reflexivity.
Qed.

Lemma np_get_app_l {A} (a b : list A) i :
  0 <= i < Z.of_nat (length a) -> np_get (a ++ b) i = np_get a i.
Proof.
  intros Hi. destruct (np_get_inside a i Hi) as (x & Hx). rewrite Hx.
  apply np_get_nonneg; [lia|]. apply np_get_nonneg in Hx; [|lia].
  rewrite lookup_app_l by lia. exact Hx.
Qed.

Section IndexSafety.

Variable np_tanh : float -> float.
Variable np_arctanh : float -> float.

Lemma cnode_incoming_ok p vmsgs c i deg :
  graph_addressable p ->
  0 <= c < n_cnodes p ->
  np_get (cnode_deg_list p) c = Ok deg ->
  0 <= i < deg ->
  Z.of_nat (length vmsgs) = n_vnodes p * max_vnode_deg p ->
  exists m, cnode_incoming p vmsgs c i = Ok m.
Proof.
  intros (Hnv & Hnc & Hmv & Hmc & HV & HC) Hc Hdeg Hi Hlen.
  destruct (HC c Hc) as (deg' & Hdeg' & Hle & Hreads).
  assert (deg' = deg) as -> by congruence.
  destruct (Hreads i Hi) as (v & j & Hv & Hj & Hvr & Hjr).
  unfold cnode_incoming. rewrite Hv. simpl. rewrite Hj. simpl.
  apply np_get_inside. nia.
Qed.

Lemma vnode_incoming_ok p cmsgs v i deg :
  graph_addressable p ->
  0 <= v < n_vnodes p ->
  np_get (vnode_deg_list p) v = Ok deg ->
  0 <= i < deg ->
  Z.of_nat (length cmsgs) = n_cnodes p * max_cnode_deg p ->
  exists m, vnode_incoming p cmsgs v i = Ok m.
Proof.
  intros (Hnv & Hnc & Hmv & Hmc & HV & HC) Hv Hdeg Hi Hlen.
  destruct (HV v Hv) as (deg' & Hdeg' & Hle & Hreads).
  assert (deg' = deg) as -> by congruence.
  destruct (Hreads i Hi) as (c & j & Hc & Hj & Hcr & Hjr).
  unfold vnode_incoming. rewrite Hc. simpl. rewrite Hj. simpl.
  apply np_get_inside. nia.
Qed.

(** The update of one check node returns. *)
Lemma cnode_update_ok p vmsgs c cm :
  graph_addressable p ->
  0 <= c < n_cnodes p ->
  Z.of_nat (length vmsgs) = n_vnodes p * max_vnode_deg p ->
  Z.of_nat (length cm) = n_cnodes p * max_cnode_deg p ->
  exists cm', cnode_update np_tanh np_arctanh p vmsgs c cm = Ok cm'
    /\ Z.of_nat (length cm') = n_cnodes p * max_cnode_deg p.
Proof.
  intros Hg Hc Hlv Hlc. pose proof Hg as (Hnv & Hnc & Hmv & Hmc & HV & HC).
  destruct (HC c Hc) as (deg & Hdeg & Hle & _).
  unfold cnode_update. rewrite Hdeg. simpl.
  assert (Hprod : exists mp, cnode_msg_prod np_tanh p vmsgs c deg = Ok mp).
  { unfold cnode_msg_prod. apply for_each_defined. intros i s Hi.
    apply elem_of_xrange in Hi.
    destruct (cnode_incoming_ok p vmsgs c i deg Hg Hc Hdeg Hi Hlv) as (m & ->).
    simpl. eauto. }
  destruct Hprod as (mp & ->). simpl.
  apply (for_each_total
           (fun a : list float =>
              Z.of_nat (length a) = n_cnodes p * max_cnode_deg p));
    [|exact Hlc].
  intros i a Hi Ha. apply elem_of_xrange in Hi.
  destruct (cnode_incoming_ok p vmsgs c i deg Hg Hc Hdeg Hi Hlv) as (m & ->).
  simpl. rewrite np_set_inside by nia. eexists. split; [reflexivity|].
  rewrite length_insert. exact Ha.
Qed.

Lemma check_node_update_ok p st :
  graph_addressable p ->
  state_sized p st ->
  exists st', check_node_update np_tanh np_arctanh p st = Ok st'
    /\ state_sized p st'.
Proof.
  intros Hg (Hc & Hv & Hd & Ho). unfold check_node_update.
  destruct (for_each_total
              (fun a : list float =>
                 Z.of_nat (length a) = n_cnodes p * max_cnode_deg p)
              (xrange (n_cnodes p))
              (cnode_update np_tanh np_arctanh p (vnode_msgs st))
              (cnode_msgs st)) as (cm & Hcm & Hlen); [|exact Hc|].
  - intros c a Hin Ha. apply elem_of_xrange in Hin.
    apply cnode_update_ok; assumption.
  - rewrite Hcm. simpl. eexists. split; [reflexivity|].
    unfold state_sized. simpl. auto.
Qed.

(** The update of one variable node returns, or stops where it stores
    the posterior value. *)
Lemma vnode_update_safe p llr_vec v st :
  graph_addressable p ->
  n_vnodes p <= Z.of_nat (length llr_vec) ->
  0 <= v < n_vnodes p ->
  state_sized p st ->
  safe_outcome (state_sized p) (vnode_update p llr_vec v st).
Proof.
  intros Hg Hllr Hv (Hlc & Hlv & Hld & Hlo).
  pose proof Hg as (Hnv & Hnc & Hmv & Hmc & HV & HC).
  destruct (HV v Hv) as (deg & Hdeg & Hle & Hreads).
  destruct (np_get_inside llr_vec v ltac:(lia)) as (l & Hl).
  unfold vnode_update. rewrite Hdeg. simpl.
  assert (Hsum : exists ms, vnode_msg_sum p (cnode_msgs st) v deg = Ok ms).
  { unfold vnode_msg_sum. apply for_each_defined. intros i s Hi.
    apply elem_of_xrange in Hi.
    destruct (vnode_incoming_ok p (cnode_msgs st) v i deg Hg Hv Hdeg Hi Hlc)
      as (m & ->).
    simpl. eauto. }
  destruct Hsum as (ms & ->). simpl.
  match goal with
  | |- safe_outcome _ (for_each ?xs ?body ?s ≫= _) =>
      destruct (for_each_total
                  (fun a : list float =>
                     Z.of_nat (length a) = n_vnodes p * max_vnode_deg p)
                  xs body s) as (vm & Hvm & Hlvm); [|exact Hlv|]
  end.
  - intros i a Hi Ha. apply elem_of_xrange in Hi.
    destruct (Hreads i Hi) as (c & j & Hc & Hj & Hcr & Hjr).
    rewrite Hc. simpl. rewrite Hl. simpl. rewrite Hj. simpl.
    destruct (np_get_inside (cnode_msgs st) (c * max_cnode_deg p + j))
      as (m & ->); [nia|].
    simpl. rewrite np_set_inside by nia. eexists. split; [reflexivity|].
    rewrite length_insert. exact Ha.
  - rewrite Hvm. simpl. rewrite Hl. simpl.
    destruct (int_of_float (l + ms)) as [z|e] eqn:Hz; simpl.
    + rewrite np_set_inside by lia. simpl.
      destruct (np_get_inside (<[Z.to_nat v := z]> (out_llrs st)) v) as (o & ->).
      { rewrite length_insert. lia. }
      simpl. rewrite np_set_inside by lia. simpl.
      unfold state_sized. simpl. rewrite !length_insert. auto.
    + eapply int_of_float_error. exact Hz.
Qed.

Lemma bp_update_safe p llr_vec st :
  graph_addressable p ->
  n_vnodes p <= Z.of_nat (length llr_vec) ->
  state_sized p st ->
  safe_outcome (state_sized p) (bp_update np_tanh np_arctanh p llr_vec st).
Proof.
  intros Hg Hllr Hs. unfold bp_update.
  destruct (check_node_update_ok p st Hg Hs) as (st1 & -> & Hs1). simpl.
  unfold variable_node_update. apply for_each_safe; [|exact Hs1].
  intros v s Hv Hsz. apply elem_of_xrange in Hv.
  apply vnode_update_safe; assumption.
Qed.

Lemma parity_scan_ok p dw :
  graph_addressable p ->
  Z.of_nat (length dw) = n_vnodes p ->
  exists flag, parity_scan p dw (xrange (n_cnodes p)) = Ok flag.
Proof.
  intros (Hnv & Hnc & Hmv & Hmc & HV & HC) Hlen.
  assert (Hreads : parity_reads_ok p dw).
  { intros c Hc. destruct (HC c Hc) as (deg & Hdeg & _ & Hslots).
    exists deg. split; [exact Hdeg|]. intros i Hi.
    destruct (Hslots i Hi) as (v & j & Hv & _ & Hvr & _).
    destruct (np_get_inside dw v ltac:(lia)) as (b & Hb). eauto. }
  destruct (parity_scan_spec p dw (xrange (n_cnodes p))) as [(H & _)|(H & _)];
    [| eauto | eauto].
  intros c Hc. apply elem_of_xrange in Hc.
  apply cnode_parity_defined; assumption.
Qed.

Lemma bp_iterations_safe p llr_vec budget st :
  graph_addressable p ->
  n_vnodes p <= Z.of_nat (length llr_vec) ->
  state_sized p st ->
  safe_outcome (fun r : bp_state * nat => state_sized p r.1)
    (bp_iterations np_tanh np_arctanh p llr_vec budget st).
Proof.
  intros Hg Hllr. revert st. induction budget as [|n IH]; intros st Hs; simpl.
  - exact Hs.
  - pose proof (bp_update_safe p llr_vec st Hg Hllr Hs) as Hup.
    destruct (bp_update np_tanh np_arctanh p llr_vec st) as [st2|e]; simpl in *;
      [|exact Hup].
    destruct (parity_scan_ok p (dec_word st2) Hg) as (flag & ->).
    { destruct Hup as (_ & _ & Hd & _). exact Hd. }
    simpl. destruct (flag =? 0); simpl; [exact Hup|].
    specialize (IH st2 Hup).
    destruct (bp_iterations np_tanh np_arctanh p llr_vec n st2) as [r|e];
      simpl in *; exact IH.
Qed.

Lemma bp_init_sized p llr_vec st :
  bp_init p llr_vec = Ok st -> state_sized p st.
Proof.
  unfold bp_init. intros H.
  inv_bind H as dw Hdw. inv_bind H as ol Hol. inv_bind H as cm Hcm.
  inv_bind H as vm0 Hvm0. inv_bind H as vm Hvm. injection H as <-.
  unfold np_zeros in *.
  destruct (Z.ltb_spec (n_vnodes p) 0); [discriminate|].
  destruct (Z.ltb_spec (n_cnodes p * max_cnode_deg p) 0); [discriminate|].
  destruct (Z.ltb_spec (n_vnodes p * max_vnode_deg p) 0); [discriminate|].
  injection Hdw as <-. injection Hol as <-. injection Hcm as <-.
  injection Hvm0 as <-.
  assert (Hlen : length vm = Z.to_nat (n_vnodes p * max_vnode_deg p)).
  { unfold init_vnode_msgs in Hvm.
    eapply (for_each_invariant
              (fun a : list float =>
                 length a = Z.to_nat (n_vnodes p * max_vnode_deg p)));
      [| | exact Hvm].
    - intros v s s' _ Hs Hbody. unfold init_vnode in Hbody.
      inv_bind Hbody as off Hoff. inv_bind Hbody as l Hl.
      injection Hbody as <-. rewrite length_fill_slice. exact Hs.
    - apply length_replicate. }
  unfold state_sized. simpl. rewrite !length_replicate, Hlen. lia.
Qed.

Lemma decode_safe (llr_vec : list float)
    (p : ldpc_code_params) (n_iters : Z) (e : exn) :
  graph_addressable p ->
  n_vnodes p <= Z.of_nat (length llr_vec) ->
  ldpc_bp_decode np_tanh np_arctanh llr_vec p n_iters = Raise e ->
  storage_error e.
Proof.
  intros Hg Hllr H. pose proof Hg as (Hnv & Hnc & Hmv & Hmc & HV & HC).
  assert (Hready : init_ready p llr_vec).
  { repeat split; try nia; try exact Hllr.
    destruct (Z.eq_dec (n_vnodes p) 0) as [->|Hne]; [lia|].
    destruct (HV (n_vnodes p - 1) ltac:(lia)) as (deg & Hdeg & _).
    apply np_get_nonneg in Hdeg; [|lia]. apply lookup_lt_Some in Hdeg. lia. }
  destruct (bp_init_ok p llr_vec Hready) as (st0 & Hst0 & _).
  pose proof (bp_init_sized _ _ _ Hst0) as Hs0.
  unfold ldpc_bp_decode, bp_run in H. rewrite Hst0 in H. simpl in H.
  pose proof (bp_iterations_safe p llr_vec (Z.to_nat n_iters) st0 Hg Hllr Hs0)
    as Hsafe.
  destruct (bp_iterations np_tanh np_arctanh p llr_vec (Z.to_nat n_iters) st0)
    as [r|e']; simpl in *; [discriminate|].
  injection H as <-. exact Hsafe.
Qed.

(** On a graph whose degrees and live slots are in range, with a channel
    value for each variable node, no read or write of [ldpc_bp_decode]
    leaves its array: a call returns, or raises where a posterior value
    that is not a number, infinite or beyond int64 is stored into the
    integer array [out_llrs] -- a [ValueError] or an [OverflowError],
    never an [IndexError]. *)
Theorem decode_never_index_error (llr_vec : list float)
    (p : ldpc_code_params) (n_iters : Z) (e : exn) :
  graph_addressable p ->
  n_vnodes p <= Z.of_nat (length llr_vec) ->
  ldpc_bp_decode np_tanh np_arctanh llr_vec p n_iters = Raise e ->
  e = ValueError \/ e = OverflowError.
Proof. apply decode_safe. Qed.

(** The decoder reads one channel value for each variable node and no
    other: values beyond the first [n_vnodes] change nothing, neither in
    the result nor in whether the call raises. *)
Theorem extra_channel_values_ignored (llr_vec extra : list float)
    (p : ldpc_code_params) (n_iters : Z) :
  n_vnodes p <= Z.of_nat (length llr_vec) ->
  ldpc_bp_decode np_tanh np_arctanh (llr_vec ++ extra) p n_iters
  = ldpc_bp_decode np_tanh np_arctanh llr_vec p n_iters.
Proof.
  intros Hlen.
  assert (Hget : forall v, v ∈ xrange (n_vnodes p) ->
            np_get (llr_vec ++ extra) v = np_get llr_vec v).
  { intros v Hv. apply elem_of_xrange in Hv. apply np_get_app_l. lia. }
  assert (Hinit : bp_init p (llr_vec ++ extra) = bp_init p llr_vec).
  { unfold bp_init, init_vnode_msgs.
    destruct (np_zeros 0 (n_vnodes p)); [|reflexivity]. simpl.
    destruct (np_zeros 0%float (n_cnodes p * max_cnode_deg p)); [|reflexivity].
    simpl.
    destruct (np_zeros 0%float (n_vnodes p * max_vnode_deg p)) as [vm0|];
      [|reflexivity].
    simpl. f_equal. apply for_each_ext_in. intros v s Hv.
    unfold init_vnode. rewrite (Hget v Hv). reflexivity. }
  assert (Hup : forall st,
            bp_update np_tanh np_arctanh p (llr_vec ++ extra) st
            = bp_update np_tanh np_arctanh p llr_vec st).
  { intros st. unfold bp_update.
    destruct (check_node_update np_tanh np_arctanh p st) as [st1|];
      [|reflexivity].
    simpl. unfold variable_node_update. apply for_each_ext_in. intros v s Hv.
    unfold vnode_update. rewrite (Hget v Hv). reflexivity. }
  assert (Hit : forall budget st,
            bp_iterations np_tanh np_arctanh p (llr_vec ++ extra) budget st
            = bp_iterations np_tanh np_arctanh p llr_vec budget st).
  { induction budget as [|n IH]; intros st; simpl; [reflexivity|].
    rewrite Hup.
    destruct (bp_update np_tanh np_arctanh p llr_vec st) as [st2|];
      [|reflexivity].
    simpl. destruct (parity_scan p (dec_word st2) (xrange (n_cnodes p)))
      as [flag|]; [|reflexivity].
    simpl. destruct (flag =? 0); [reflexivity|]. rewrite IH. reflexivity. }
  unfold ldpc_bp_decode, bp_run. rewrite Hinit.
  destruct (bp_init p llr_vec) as [st0|]; [|reflexivity].
  simpl. rewrite Hit. reflexivity.
Qed.

End IndexSafety.

Lemma pair_code_addressable : graph_addressable pair_code.
Proof.
  unfold graph_addressable. simpl.
  split; [lia|]. split; [lia|]. split; [lia|]. split; [lia|]. split.
  - intros v Hv. assert (v = 0 \/ v = 1) as [-> | ->] by lia;
      (exists 1; split; [reflexivity|]; split; [lia|]; intros i Hi;
       assert (i = 0) as -> by lia; eexists _, _;
       split; [reflexivity|]; split; [reflexivity|]; lia).
  - intros c Hc. assert (c = 0) as -> by lia.
    exists 2. split; [reflexivity|]. split; [lia|]. intros i Hi.
    assert (i = 0 \/ i = 1) as [-> | ->] by lia; eexists _, _;
      (split; [reflexivity|]; split; [reflexivity|]; lia).
Qed.

Lemma decode_never_index_error_witness :
  ldpc_bp_decode tanh_standin arctanh_standin [0%float; 0%float] pair_code 1
    = Raise ValueError
  /\ (ValueError = ValueError \/ ValueError = OverflowError).
Proof.
  assert (H : ldpc_bp_decode tanh_standin arctanh_standin
                [0%float; 0%float] pair_code 1 = Raise ValueError)
    by (vm_compute; reflexivity).
  split; [exact H|].
  apply (decode_never_index_error tanh_standin arctanh_standin
           [0%float; 0%float] pair_code 1 ValueError).
  - exact pair_code_addressable.
  - simpl. lia.
  - exact H.
Defined.

Lemma extra_channel_values_ignored_witness :
  ldpc_bp_decode tanh_standin arctanh_standin
    ([1%float; 2%float] ++ [100%float]) pair_code 3
  = ldpc_bp_decode tanh_standin arctanh_standin [1%float; 2%float] pair_code 3.
Proof.
  apply (extra_channel_values_ignored tanh_standin arctanh_standin
           [1%float; 2%float] [100%float] pair_code 3).
  simpl. lia.
Defined.

(** ** The built graph, from either side *)

Lemma sides_built_sym nA nB maxA maxB degA degB adjA adjB mA mB :
  sides_built nA nB maxA maxB degA degB adjA adjB mA mB ->
  sides_built nB nA maxB maxA degB degA adjB adjA mB mA.
Proof.
  intros ((H1 & H2 & H3 & H4) & HpA & HpB & HwA & HwB & HmA & HmB).
  unfold sides_built. auto 10.
Qed.

Lemma get_ldpc_code_params_inv f g :
  get_ldpc_code_params f = Ok g ->
  exists d cvm0 vcm0 cvm vcm pmat,
    read_design_file f = Ok d /\
    np_full2 (d_n_cnodes d) (d_max_cnode_deg d) (-1) = Ok cvm0 /\
    np_full2 (d_n_vnodes d) (d_max_vnode_deg d) (-1) = Ok vcm0 /\
    build_map (d_n_cnodes d) (d_cnode_deg_list d) (d_cnode_adj d)
      (d_vnode_adj d) (np_arange (d_n_cnodes d)) cvm0 = Ok cvm /\
    build_map (d_n_vnodes d) (d_vnode_deg_list d) (d_vnode_adj d)
      (d_cnode_adj d) (np_arange (d_n_vnodes d)) vcm0 = Ok vcm /\
    build_pmat (d_n_cnodes d) (d_n_vnodes d) (d_cnode_adj d) = Ok pmat /\
    g = {| n_vnodes := d_n_vnodes d;
           n_cnodes := d_n_cnodes d;
           max_cnode_deg := d_max_cnode_deg d;
           max_vnode_deg := d_max_vnode_deg d;
           cnode_adj_list := flatten32 (d_cnode_adj d);
           cnode_vnode_map := flatten32 cvm;
           vnode_adj_list := flatten32 (d_vnode_adj d);
           vnode_cnode_map := flatten32 vcm;
           cnode_deg_list := d_cnode_deg_list d;
           vnode_deg_list := d_vnode_deg_list d |}.
Proof.
  unfold get_ldpc_code_params. intros H. inv_bind H as d Hd.
  unfold build_params in H.
  inv_bind H as cvm0 Hcvm0. inv_bind H as vcm0 Hvcm0.
  inv_bind H as cvm Hcvm. inv_bind H as vcm Hvcm.
  inv_bind H as pmat Hpmat. injection H as <-.
  exists d, cvm0, vcm0, cvm, vcm, pmat. auto 10.
Qed.

(** What a successful call on a well-formed description has built. *)
Lemma built_sides f d g :
  read_design_file f = Ok d ->
  wf_design d ->
  get_ldpc_code_params f = Ok g ->
  exists cvm vcm,
    sides_built (d_n_vnodes d) (d_n_cnodes d) (d_max_vnode_deg d)
      (d_max_cnode_deg d) (d_vnode_deg_list d) (d_cnode_deg_list d)
      (d_vnode_adj d) (d_cnode_adj d) vcm cvm /\
    g = {| n_vnodes := d_n_vnodes d;
           n_cnodes := d_n_cnodes d;
           max_cnode_deg := d_max_cnode_deg d;
           max_vnode_deg := d_max_vnode_deg d;
           cnode_adj_list := flatten32 (d_cnode_adj d);
           cnode_vnode_map := flatten32 cvm;
           vnode_adj_list := flatten32 (d_vnode_adj d);
           vnode_cnode_map := flatten32 vcm;
           cnode_deg_list := d_cnode_deg_list d;
           vnode_deg_list := d_vnode_deg_list d |}.
Proof.
  intros Hread ((Hnv & Hnc & Hmv & Hmc) & HwfV & HwfC) Hget.
  apply get_ldpc_code_params_inv in Hget
    as (d' & cvm0 & vcm0 & cvm & vcm & pmat & Hd' & Hc0 & Hv0 & Hcvm & Hvcm & _ & ->).
  assert (d' = d) as -> by congruence.
  destruct (read_design_file_padded _ _ Hread) as (HpadV & HpadC).
  exists cvm, vcm. split; [|reflexivity].
  unfold sides_built. split; [auto|]. split; [exact HpadV|].
  split; [exact HpadC|]. split; [exact HwfV|]. split; [exact HwfC|].
  split; eauto.
Qed.

(** An edge seen from its node [a] of side [A], slot [i]: the neighbour
    [b] holds [a] at exactly one slot [k], a live one, the map of [a]
    stores [k] and the map of [b] stores [i] there. *)
Lemma edge_round_trip nA nB maxA maxB degA degB adjA adjB mA mB (a i : Z) :
  sides_built nA nB maxA maxB degA degB adjA adjB mA mB ->
  0 <= a < nA ->
  0 <= i < np_at 0 degA a ->
  exists rowA mrowA (b : Z) (k : nat) degb rowB mrowB,
    adjA !! Z.to_nat a = Some rowA /\ rowA !! Z.to_nat i = Some b /\
    mA !! Z.to_nat a = Some mrowA /\ mrowA !! Z.to_nat i = Some (Z.of_nat k) /\
    0 <= b < nB /\
    np_get degB b = Ok degb /\ Z.of_nat k < degb <= maxB /\
    adjB !! Z.to_nat b = Some rowB /\ rowB !! k = Some a /\
    mB !! Z.to_nat b = Some mrowB /\ mrowB !! k = Some i /\
    (forall i' : nat, rowA !! i' = Some b -> i' = Z.to_nat i).
Proof.
  intros (_ & HpadA & HpadB & HwfA & HwfB & (m0A & nlA & Hm0A & HmA)
          & (m0B & nlB & Hm0B & HmB)) Ha Hi.
  destruct (build_map_built _ _ _ _ _ _ _ _ Hm0A HmA) as (_ & _ & HbuiltA).
  destruct (build_map_built _ _ _ _ _ _ _ _ Hm0B HmB) as (_ & _ & HbuiltB).
  destruct (live_slot _ _ _ _ _ a i HpadA HwfA Ha Hi)
    as (ad & arow & b & Had & Hadb & Harow & Halen & Hai & Hapre & Hb).
  rewrite (np_at_Ok 0 _ _ _ Had) in Hi.
  destruct (HbuiltA (Z.to_nat a) arow ad (Z.to_nat i) b Harow)
    as (amrow & k & brow & Hamrow & Hak & Hbrow & Hbk & _);
    [rewrite Z2Nat.id by lia; exact Had | destruct HpadA; lia | exact Hapre |].
  rewrite Z2Nat.id in Hbk by lia.
  apply np_get_nonneg in Hbrow; [|lia].
  pose proof HpadB as (HnB & HmaxB & HlenB & HrowsB).
  destruct (HrowsB _ _ Hbrow) as (Hblen & bd & Hbd & _).
  rewrite Z2Nat.id in Hbd by lia.
  pose proof Hbd as Hbd'. apply np_get_nonneg in Hbd'; [|lia].
  destruct (HwfB _ _ _ Hbd' Hbrow) as (Hbdb & _).
  assert (Hk : Z.of_nat k < bd).
  { apply (holder_is_live nB maxB degB adjB (Z.to_nat b) brow bd k a);
      try assumption; try lia.
    rewrite Z2Nat.id by lia. exact Hbd. }
  assert (Hkm : (k < Z.to_nat maxB)%nat).
  { rewrite <- Hblen. eapply lookup_lt_Some. exact Hbk. }
  destruct (HbuiltB (Z.to_nat b) brow bd k a Hbrow)
    as (bmrow & k2 & arow' & Hbmrow & Hbk2 & Harow' & _ & Huniq).
  { rewrite Z2Nat.id by lia. exact Hbd. }
  { lia. }
  { unfold np_prefix. rewrite Hblen, Z2Nat.id by lia.
    rewrite slice_bound_inside by lia.
    rewrite lookup_take_lt by lia. exact Hbk. }
  rewrite Z2Nat.id in Huniq by lia.
  apply np_get_nonneg in Harow'; [|lia].
  assert (arow' = arow) as -> by congruence.
  assert (Hk2 : Z.to_nat i = k2) by (apply Huniq; exact Hai).
  exists arow, amrow, b, k, bd, brow, bmrow.
  repeat split; try assumption; try lia.
  - rewrite Hbk2. f_equal. lia.
  - intros i' Hi'. rewrite Hk2. apply Huniq. exact Hi'.
Qed.

Lemma padded_shape n max_deg deg_list adj :
  padded n max_deg deg_list adj ->
  Forall (fun row => length row = Z.to_nat max_deg) adj.
Proof.
  intros (_ & _ & _ & Hrows). apply Forall_lookup. intros r row Hrow.
  apply (Hrows _ _ Hrow).
Qed.

(** The same edge in the flattened arrays of the result. *)
Lemma edge_round_trip_flat nA nB maxA maxB degA degB adjA adjB mA mB (a i : Z) :
  sides_built nA nB maxA maxB degA degB adjA adjB mA mB ->
  0 <= a < nA ->
  0 <= i < np_at 0 degA a ->
  exists b j,
    np_get (flatten32 adjA) (a * maxA + i) = Ok b /\
    np_get (flatten32 mA) (a * maxA + i) = Ok j /\
    0 <= b < nB /\
    0 <= j < np_at 0 degB b /\
    np_at 0 degB b <= maxB /\
    np_get (flatten32 adjB) (b * maxB + j) = Ok a /\
    np_get (flatten32 mB) (b * maxB + j) = Ok i /\
    forall i', 0 <= i' < np_at 0 degA a ->
      np_get (flatten32 adjA) (a * maxA + i') = Ok b -> i' = i.
Proof.
  intros Hsides Ha Hi.
  destruct (edge_round_trip _ _ _ _ _ _ _ _ _ _ a i Hsides Ha Hi)
    as (rowA & mrowA & b & k & degb & rowB & mrowB & HrowA & HAi & HmrowA & HmAi
        & Hb & Hdegb & Hk & HrowB & HBk & HmrowB & HmBk & Huniq).
  destruct Hsides as ((HnA & HnB & HxA & HxB) & HpadA & HpadB & HwfA & HwfB
                      & (m0A & nlA & Hm0A & HmA) & (m0B & nlB & Hm0B & HmB)).
  destruct (build_map_built _ _ _ _ _ _ _ _ Hm0A HmA) as (_ & HshapeMA & _).
  destruct (build_map_built _ _ _ _ _ _ _ _ Hm0B HmB) as (_ & HshapeMB & _).
  pose proof (padded_shape _ _ _ _ HpadA) as HshapeA.
  pose proof (padded_shape _ _ _ _ HpadB) as HshapeB.
  pose proof HpadA as (_ & HmaxA & _). pose proof HpadB as (_ & HmaxB & _).
  destruct (live_slot _ _ _ _ _ a i HpadA HwfA Ha Hi)
    as (ad & _ & _ & Had & Hadb & _).
  rewrite (np_at_Ok 0 _ _ _ Had) in *.
  exists b, (Z.of_nat k). rewrite (np_at_Ok 0 _ _ _ Hdegb).
  repeat split; try lia.
  - apply (flatten32_get_small adjA maxA a i rowA b); try assumption; lia.
  - apply (flatten32_get_small mA maxA a i mrowA (Z.of_nat k));
      try assumption; lia.
  - apply (flatten32_get_small adjB maxB b (Z.of_nat k) rowB a);
      try assumption; try lia.
    rewrite Nat2Z.id. exact HBk.
  - apply (flatten32_get_small mB maxB b (Z.of_nat k) mrowB i);
      try assumption; try lia.
    rewrite Nat2Z.id. exact HmBk.
  - intros i' Hi' Hget.
    destruct (live_slot nA nB maxA degA adjA a i' HpadA HwfA Ha)
      as (ad' & rowA' & y & Had' & _ & HrowA' & _ & Hy & _ & Hyr).
    { rewrite (np_at_Ok 0 _ _ _ Had). exact Hi'. }
    assert (rowA' = rowA) as -> by congruence.
    assert (Hflat : np_get (flatten32 adjA) (a * maxA + i') = Ok y).
    { apply (flatten32_get_small adjA maxA a i' rowA y); try assumption; lia. }
    assert (y = b) as -> by congruence.
    apply Huniq in Hy. lia.
Qed.

Lemma sides_built_addressable nA nB maxA maxB degA degB adjA adjB mA mB :
  sides_built nA nB maxA maxB degA degB adjA adjB mA mB ->
  side_addressable nA nB maxA maxB degA (flatten32 adjA) (flatten32 mA).
Proof.
  intros Hsides a Ha.
  pose proof Hsides as (_ & HpadA & _ & HwfA & _).
  pose proof HpadA as (HnA & HmaxA & HlenA & HrowsA).
  destruct (lookup_lt_is_Some_2 adjA (Z.to_nat a)) as (row & Hrow); [lia|].
  destruct (HrowsA _ _ Hrow) as (_ & deg & Hdeg & _).
  rewrite Z2Nat.id in Hdeg by lia.
  pose proof Hdeg as Hdeg'. apply np_get_nonneg in Hdeg'; [|lia].
  destruct (HwfA _ _ _ Hdeg' Hrow) as (Hbound & _).
  exists deg. split; [exact Hdeg|]. split; [lia|]. intros i Hi.
  destruct (edge_round_trip_flat _ _ _ _ _ _ _ _ _ _ a i Hsides Ha)
    as (b & j & Hb & Hj & Hbr & Hjr & Hle & _).
  { rewrite (np_at_Ok 0 _ _ _ Hdeg). exact Hi. }
  exists b, j. repeat split; try assumption; lia.
Qed.

Lemma built_addressable f d g :
  read_design_file f = Ok d ->
  wf_design d ->
  get_ldpc_code_params f = Ok g ->
  graph_addressable g.
Proof.
  intros Hread Hwf Hget.
  destruct (built_sides f d g Hread Hwf Hget) as (cvm & vcm & Hsides & ->).
  pose proof Hsides as (_ & (HnV & HmV & _) & (HnC & HmC & _) & _).
  unfold graph_addressable. simpl.
  split; [exact HnV|]. split; [exact HnC|]. split; [exact HmV|].
  split; [exact HmC|]. split.
  - eapply sides_built_addressable. exact Hsides.
  - eapply sides_built_addressable. apply sides_built_sym. exact Hsides.
Qed.

(** In a graph built from a well-formed description, for every check
    node [c] and live slot [j < cnode_deg[c]], with [v = cnode_adj[c][j]]
    and [i = cnode_vnode_map[c][j]]: [v] is a variable node, [i] one of
    its live slots, [vnode_adj[v][i] = c] and [vnode_cnode_map[v][i] = j].
    This is the direction the check-node update follows. *)
Theorem check_side_round_trip (f : list string) (d : design)
    (g : ldpc_code_params) (c j : Z) :
  read_design_file f = Ok d ->
  wf_design d ->
  get_ldpc_code_params f = Ok g ->
  0 <= c < n_cnodes g ->
  0 <= j < cnode_deg g c ->
  round_trip_from_check g c j.
Proof.
  intros Hread Hwf Hget Hc Hj.
  destruct (built_sides f d g Hread Hwf Hget) as (cvm & vcm & Hsides & ->).
  apply sides_built_sym in Hsides.
  unfold round_trip_from_check, cnode_deg, vnode_deg in *. simpl in *.
  destruct (edge_round_trip_flat _ _ _ _ _ _ _ _ _ _ c j Hsides Hc Hj)
    as (v & i & Hgv & Hgi & Hv & Hi & _ & Hback & Hslot & _).
  rewrite (np_at_Ok 0 _ _ _ Hgv), (np_at_Ok 0 _ _ _ Hgi). auto.
Qed.

(** A graph built from a well-formed description has no repeated edge:
    the live slots of a variable node name different check nodes, and
    the live slots of a check node name different variable nodes. *)
Theorem no_repeated_edge (f : list string) (d : design) (g : ldpc_code_params) :
  read_design_file f = Ok d ->
  wf_design d ->
  get_ldpc_code_params f = Ok g ->
  (forall v i i', 0 <= v < n_vnodes g ->
     0 <= i < vnode_deg g v -> 0 <= i' < vnode_deg g v ->
     np_get (vnode_adj_list g) (v * max_vnode_deg g + i)
       = np_get (vnode_adj_list g) (v * max_vnode_deg g + i') ->
     i = i')
  /\ (forall c j j', 0 <= c < n_cnodes g ->
        0 <= j < cnode_deg g c -> 0 <= j' < cnode_deg g c ->
        np_get (cnode_adj_list g) (c * max_cnode_deg g + j)
          = np_get (cnode_adj_list g) (c * max_cnode_deg g + j') ->
        j = j').
Proof.
  intros Hread Hwf Hget.
  destruct (built_sides f d g Hread Hwf Hget) as (cvm & vcm & Hsides & ->).
  unfold cnode_deg, vnode_deg. simpl. split.
  - intros v i i' Hv Hi Hi' Heq.
    destruct (edge_round_trip_flat _ _ _ _ _ _ _ _ _ _ v i' Hsides Hv Hi')
      as (b & _ & Hb & _ & _ & _ & _ & _ & _ & Huniq).
    apply Huniq; [exact Hi | congruence].
  - apply sides_built_sym in Hsides. intros c j j' Hc Hj Hj' Heq.
    destruct (edge_round_trip_flat _ _ _ _ _ _ _ _ _ _ c j' Hsides Hc Hj')
      as (b & _ & Hb & _ & _ & _ & _ & _ & _ & Huniq).
    apply Huniq; [exact Hj | congruence].
Qed.

(** The two functions composed: on the graph [get_ldpc_code_params]
    builds from a well-formed description, with a channel value for each
    variable node, [ldpc_bp_decode] never raises [IndexError]; the only
    exceptions left are those of a posterior value that cannot be stored
    as an integer. *)
Theorem built_graph_decodes_in_bounds (np_tanh np_arctanh : float -> float)
    (f : list string) (d : design) (g : ldpc_code_params)
    (llr_vec : list float) (n_iters : Z) (e : exn) :
  read_design_file f = Ok d ->
  wf_design d ->
  get_ldpc_code_params f = Ok g ->
  n_vnodes g <= Z.of_nat (length llr_vec) ->
  ldpc_bp_decode np_tanh np_arctanh llr_vec g n_iters = Raise e ->
  e = ValueError \/ e = OverflowError.
Proof.
  intros Hread Hwf Hget Hllr H.
  eapply decode_safe; [| exact Hllr | exact H].
  eapply built_addressable; eassumption.
Qed.

(** ** The shape of the built arrays *)

Lemma length_mjoin_uniform {A} (n : nat) (m : list (list A)) :
  Forall (fun row => length row = n) m ->
  length (mjoin m) = (length m * n)%nat.
Proof.
  induction 1 as [|row m Hrow _ IH]; simpl; [reflexivity|].
  rewrite length_app, IH, Hrow. reflexivity.
Qed.

Lemma length_flatten32 (m : list (list Z)) (n max_deg : Z) :
  0 <= n -> 0 <= max_deg ->
  length m = Z.to_nat n ->
  Forall (fun row => length row = Z.to_nat max_deg) m ->
  Z.of_nat (length (flatten32 m)) = n * max_deg.
Proof.
  intros Hn Hm Hlen Hshape. unfold flatten32.
  rewrite length_fmap, (length_mjoin_uniform _ _ Hshape), Hlen. nia.
Qed.

Lemma padded_degrees n max_deg deg_list adj :
  padded n max_deg deg_list adj -> n <= Z.of_nat (length deg_list).
Proof.
  intros (Hn & Hm & Hlen & Hrows).
  destruct (Z.eq_dec n 0) as [->|Hne]; [lia|].
  destruct (lookup_lt_is_Some_2 adj (Z.to_nat (n - 1))) as (row & Hrow); [lia|].
  destruct (Hrows _ _ Hrow) as (_ & deg & Hdeg & _).
  apply np_get_nonneg in Hdeg; [|lia]. apply lookup_lt_Some in Hdeg. lia.
Qed.

(** The rows of a map keep, beyond the prefix of their node, what they
    held before the loop. *)
Lemma build_map_rest own_deg own_adj nbr_adj own_list (k : nat) m0 m :
  for_each (xrange (Z.of_nat k)) (map_node own_deg own_adj nbr_adj own_list) m0
    = Ok m ->
  forall (r : nat) row0, m0 !! r = Some row0 ->
    exists row, m !! r = Some row /\
      forall deg arow (i : nat),
        np_get own_deg (Z.of_nat r) = Ok deg ->
        own_adj !! r = Some arow ->
        (length (np_prefix arow deg) <= i)%nat ->
        row !! i = row0 !! i.
Proof.
  revert m. induction k as [|k IH]; intros m H r row0 Hrow0.
  - simpl in H. injection H as <-. exists row0. auto.
  - rewrite xrange_succ, for_each_app in H. inv_bind H as m1 Hm1.
    simpl in H. inv_bind H as m2 Hm2. injection H as <-.
    destruct (IH _ Hm1 r row0 Hrow0) as (row1 & Hrow1 & Hrest1).
    unfold map_node in Hm2. inv_bind Hm2 as deg Hdeg. inv_bind Hm2 as arow Harow.
    apply np_get_nonneg in Harow; [|lia]. rewrite Nat2Z.id in Harow.
    apply map_row_spec in Hm2 as (_ & Hother & Hown); [|lia].
    rewrite Nat2Z.id in Hother, Hown.
    destruct (decide (r = k)) as [->|Hne].
    + destruct (Hown row1 Hrow1) as (row & Hrow & _ & Hrest & _).
      exists row. split; [exact Hrow|]. intros deg' arow' i Hdeg' Harow' Hi.
      assert (deg' = deg) as -> by congruence.
      assert (arow' = arow) as -> by congruence.
      rewrite Hrest by exact Hi. eapply Hrest1; eassumption.
    + exists row1. rewrite Hother by exact Hne. auto.
Qed.

(** Beyond the degree of its node, a slot of the adjacency array and of
    the map holds -1. *)
Lemma side_padding n max_deg deg_list adj nbr_adj nl m0 m (r j : Z) :
  padded n max_deg deg_list adj ->
  np_full2 n max_deg (-1) = Ok m0 ->
  build_map n deg_list adj nbr_adj (np_arange nl) m0 = Ok m ->
  0 <= r < n ->
  unused_slot max_deg deg_list r j ->
  np_get (flatten32 adj) (r * max_deg + j) = Ok (-1)
  /\ np_get (flatten32 m) (r * max_deg + j) = Ok (-1).
Proof.
  intros Hpad Hm0 Hm Hr (Hd0 & Hdj & Hjm).
  pose proof (padded_shape _ _ _ _ Hpad) as Hshape.
  destruct (build_map_built _ _ _ _ _ _ _ _ Hm0 Hm) as (_ & HshapeM & _).
  pose proof Hpad as (Hn & Hmax & Hlen & Hrows).
  destruct (lookup_lt_is_Some_2 adj (Z.to_nat r)) as (row & Hrow); [lia|].
  destruct (Hrows _ _ Hrow) as (Hrl & deg & Hdeg & Hfill).
  rewrite Z2Nat.id in Hdeg by lia.
  rewrite (np_at_Ok 0 _ _ _ Hdeg) in Hd0, Hdj.
  rewrite slice_bound_inside in Hfill by lia.
  split.
  - apply (flatten32_get_small adj max_deg r j row (-1)); try assumption; try lia.
    apply Hfill; lia.
  - apply np_full2_Ok in Hm0 as (_ & _ & ->).
    unfold build_map in Hm. rewrite <- (Z2Nat.id n) in Hm by lia.
    destruct (build_map_rest _ _ _ _ _ _ _ Hm (Z.to_nat r)
                (replicate (Z.to_nat max_deg) (-1))) as (mrow & Hmrow & Hrest).
    { apply lookup_replicate_2. lia. }
    apply (flatten32_get_small m max_deg r j mrow (-1)); try assumption; try lia.
    rewrite (Hrest deg row).
    + apply lookup_replicate_2. lia.
    + rewrite Z2Nat.id by lia. exact Hdeg.
    + exact Hrow.
    + unfold np_prefix. rewrite length_take, Hrl, Z2Nat.id by lia.
      rewrite slice_bound_inside by lia. lia.
Qed.

(** Whatever the description, a graph that was returned has its four
    flattened arrays at the size of its counts and strides, which are
    not negative, and a degree for every node. *)
Theorem built_arrays_sized (f : list string) (g : ldpc_code_params) :
  get_ldpc_code_params f = Ok g ->
  (0 <= n_vnodes g /\ 0 <= n_cnodes g
   /\ 0 <= max_vnode_deg g /\ 0 <= max_cnode_deg g)
  /\ Z.of_nat (length (vnode_adj_list g)) = n_vnodes g * max_vnode_deg g
  /\ Z.of_nat (length (vnode_cnode_map g)) = n_vnodes g * max_vnode_deg g
  /\ Z.of_nat (length (cnode_adj_list g)) = n_cnodes g * max_cnode_deg g
  /\ Z.of_nat (length (cnode_vnode_map g)) = n_cnodes g * max_cnode_deg g
  /\ n_vnodes g <= Z.of_nat (length (vnode_deg_list g))
  /\ n_cnodes g <= Z.of_nat (length (cnode_deg_list g)).
Proof.
  intros Hget.
  apply get_ldpc_code_params_inv in Hget
    as (d & cvm0 & vcm0 & cvm & vcm & pmat & Hd & Hc0 & Hv0 & Hcvm & Hvcm & _ & ->).
  destruct (read_design_file_padded _ _ Hd) as (HpadV & HpadC).
  destruct (build_map_built _ _ _ _ _ _ _ _ Hc0 Hcvm) as (HlenCM & HshapeCM & _).
  destruct (build_map_built _ _ _ _ _ _ _ _ Hv0 Hvcm) as (HlenVM & HshapeVM & _).
  pose proof (padded_shape _ _ _ _ HpadV) as HshapeV.
  pose proof (padded_shape _ _ _ _ HpadC) as HshapeC.
  pose proof (padded_degrees _ _ _ _ HpadV) as HdegV.
  pose proof (padded_degrees _ _ _ _ HpadC) as HdegC.
  destruct HpadV as (HnV & HmV & HlenV & _).
  destruct HpadC as (HnC & HmC & HlenC & _).
  simpl. split; [auto|].
  repeat split; try assumption; apply length_flatten32; assumption.
Qed.

(** Whatever the description, in a graph that was returned the slots of
    a node beyond its degree hold -1, in the adjacency array and in the
    cross-reference map, on both sides. *)
Theorem unused_slots_hold_sentinel (f : list string) (g : ldpc_code_params) :
  get_ldpc_code_params f = Ok g ->
  (forall v j, 0 <= v < n_vnodes g ->
     0 <= vnode_deg g v -> vnode_deg g v <= j < max_vnode_deg g ->
     np_get (vnode_adj_list g) (v * max_vnode_deg g + j) = Ok (-1)
     /\ np_get (vnode_cnode_map g) (v * max_vnode_deg g + j) = Ok (-1))
  /\ (forall c j, 0 <= c < n_cnodes g ->
        0 <= cnode_deg g c -> cnode_deg g c <= j < max_cnode_deg g ->
        np_get (cnode_adj_list g) (c * max_cnode_deg g + j) = Ok (-1)
        /\ np_get (cnode_vnode_map g) (c * max_cnode_deg g + j) = Ok (-1)).
Proof.
  intros Hget.
  apply get_ldpc_code_params_inv in Hget
    as (d & cvm0 & vcm0 & cvm & vcm & pmat & Hd & Hc0 & Hv0 & Hcvm & Hvcm & _ & ->).
  destruct (read_design_file_padded _ _ Hd) as (HpadV & HpadC).
  unfold vnode_deg, cnode_deg. simpl. split.
  - intros v j Hv Hd0 Hj.
    eapply side_padding; try eassumption. unfold unused_slot. lia.
  - intros c j Hc Hd0 Hj.
    eapply side_padding; try eassumption. unfold unused_slot. lia.
Qed.

(** ** The dense matrix as a check of the check-node rows *)

(** Setting the columns of one row of the matrix: every column is an
    index of the row. *)
Lemma pmat_row_cols (cols : list Z) (prow prow' : list Z) :
  for_each cols (fun col pr => np_set pr col 1) prow = Ok prow' ->
  length prow' = length prow /\
  forall col, col ∈ cols ->
    - Z.of_nat (length prow) <= col < Z.of_nat (length prow).
Proof.
  intros H. split.
  - eapply (for_each_invariant (fun pr : list Z => length pr = length prow));
      [| reflexivity | exact H].
    intros col s s' _ Hs Hset. rewrite (np_set_length _ _ _ _ Hset). exact Hs.
  - intros col Hcol.
    destruct (for_each_each (fun pr : list Z => length pr = length prow)
                cols (fun col pr => np_set pr col 1) prow prow') with (x := col)
      as (t & t' & Ht & Hset); [| reflexivity | exact H | exact Hcol |].
    + intros c s s' _ Hs Hset. rewrite (np_set_length _ _ _ _ Hset). exact Hs.
    + unfold np_set in Hset. inv_bind Hset as k Hk.
      apply np_index_Ok in Hk as (_ & _ & Hr). rewrite Ht in Hr. exact Hr.
Qed.

Lemma build_pmat_rows n_c n_v cnode_adj pmat :
  build_pmat n_c n_v cnode_adj = Ok pmat ->
  forall c, 0 <= c < n_c ->
    exists cols, np_get cnode_adj c = Ok cols
      /\ forall col, col ∈ cols -> - n_v <= col < n_v.
Proof.
  unfold build_pmat. intros H c Hc. inv_bind H as pmat0 Hp0.
  apply np_full2_Ok in Hp0 as (Hnc & Hnv & ->).
  match type of H with
  | for_each ?xs ?body ?s = Ok _ =>
      destruct (for_each_each
                  (Forall (fun row : list Z => length row = Z.to_nat n_v))
                  xs body s pmat) with (x := c) as (t & t' & Ht & Hbody);
        [| | exact H | apply elem_of_xrange; exact Hc |]
  end.
  - intros x s s' _ Hs Hbody. inv_bind Hbody as cols Hcols.
    inv_bind Hbody as prow Hprow. inv_bind Hbody as prow' Hprow'.
    unfold np_set in Hbody. inv_bind Hbody as k Hk. injection Hbody as <-.
    apply Forall_insert; [exact Hs|].
    apply pmat_row_cols in Hprow' as (-> & _).
    unfold np_get in Hprow. inv_bind Hprow as k' Hk'.
    destruct (s !! k') as [row|] eqn:Hrow; [|discriminate].
    injection Hprow as <-. exact (Forall_lookup_1 _ _ _ _ Hs Hrow).
  - apply Forall_replicate. apply length_replicate.
  - simpl in Hbody. inv_bind Hbody as cols Hcols.
    inv_bind Hbody as prow Hprow. inv_bind Hbody as prow' Hprow'.
    exists cols. split; [exact Hcols|].
    apply pmat_row_cols in Hprow' as (_ & Hrange).
    assert (Hlen : length prow = Z.to_nat n_v).
    { unfold np_get in Hprow. inv_bind Hprow as k' Hk'.
      destruct (t !! k') as [row|] eqn:Hrow; [|discriminate].
      injection Hprow as <-. exact (Forall_lookup_1 _ _ _ _ Ht Hrow). }
    intros col Hcol. specialize (Hrange col Hcol). lia.
Qed.

(** The dense parity-check matrix of lines 68-70 is dropped, but setting
    its entries checks the check-node rows: in a graph that was
    returned, every slot of the check-node adjacency array, the unused
    ones with their -1 included, is an index numpy accepts for an axis
    of length [n_vnodes]. *)
Theorem check_rows_index_matrix (f : list string) (g : ldpc_code_params)
    (k : nat) (x : Z) :
  get_ldpc_code_params f = Ok g ->
  n_vnodes g <= 2 ^ 31 ->
  cnode_adj_list g !! k = Some x ->
  - n_vnodes g <= x < n_vnodes g.
Proof.
  intros Hget Hsmall Hx.
  apply get_ldpc_code_params_inv in Hget
    as (d & cvm0 & vcm0 & cvm & vcm & pmat & Hd & _ & _ & _ & _ & Hpmat & ->).
  destruct (read_design_file_padded _ _ Hd) as (_ & HpadC).
  simpl in *. unfold flatten32 in Hx.
  rewrite list_lookup_fmap in Hx.
  destruct (mjoin (d_cnode_adj d) !! k) as [y|] eqn:Hy; [|discriminate].
  injection Hx as <-.
  apply join_lookup_Some in Hy as (c & row & i & Hrow & Hi & _).
  destruct HpadC as (HnC & _ & HlenC & _).
  pose proof (lookup_lt_Some _ _ _ Hrow) as Hlt.
  destruct (build_pmat_rows _ _ _ _ Hpmat (Z.of_nat c)) as (cols & Hcols & Hrange);
    [lia|].
  apply np_get_nonneg in Hcols; [|lia]. rewrite Nat2Z.id in Hcols.
  assert (cols = row) as -> by congruence.
  assert (Hyr : - d_n_vnodes d <= y < d_n_vnodes d).
  { apply Hrange. eapply list_elem_of_lookup_2. exact Hi. }
  rewrite wrap32_small by lia. exact Hyr.
Qed.

(** ** Truncated files *)

Lemma readline_rest f : (readline f).2 = drop 1 f.
Proof. destruct f; reflexivity. Qed.

Lemma read_adj_row_consumes deg_list idx acc acc' :
  read_adj_row deg_list idx acc = Ok acc' ->
  acc.2 <> [] /\ acc'.2 = drop 1 acc.2.
Proof.
  unfold read_adj_row. destruct acc as [adj f]. simpl.
  destruct f as [|l rest]; simpl.
  - intros H. vm_compute in H. discriminate.
  - intros H. inv_bind H as values Hvalues. inv_bind H as deg Hdeg.
    inv_bind H as row Hrow. inv_bind H as stored Hstored.
    inv_bind H as row' Hrow'. inv_bind H as adj' Hadj. injection H as <-.
    split; [discriminate | reflexivity].
Qed.

Lemma read_rows_consume deg_list (k : nat) acc0 acc :
  for_each (xrange (Z.of_nat k)) (read_adj_row deg_list) acc0 = Ok acc ->
  (k <= length acc0.2)%nat /\ acc.2 = drop k acc0.2.
Proof.
  revert acc. induction k as [|k IH]; intros acc H.
  - simpl in H. injection H as <-. split; [lia | reflexivity].
  - rewrite xrange_succ, for_each_app in H. inv_bind H as acc1 Hacc1.
    simpl in H. inv_bind H as acc2 Hacc2. injection H as <-.
    destruct (IH _ Hacc1) as (Hle & Hrest).
    apply read_adj_row_consumes in Hacc2 as (Hne & ->).
    rewrite Hrest in Hne |- *. rewrite drop_drop. split.
    + destruct (decide (k < length acc0.2)%nat) as [Hlt|Hge]; [lia|].
      exfalso. apply Hne. apply drop_ge. lia.
    + f_equal. lia.
Qed.

(** A truncated file is never accepted: a description that was read has
    its two header lines, and after the four lines of the header one
    line for each variable node and each check node. *)
Theorem truncated_file_refused (f : list string) (g : ldpc_code_params) :
  get_ldpc_code_params f = Ok g ->
  (2 <= length f)%nat
  /\ n_vnodes g + n_cnodes g <= Z.of_nat (length (drop 4 f)).
Proof.
  intros Hget.
  apply get_ldpc_code_params_inv in Hget
    as (d & cvm0 & vcm0 & cvm & vcm & pmat & Hd & _ & _ & _ & _ & _ & ->).
  simpl. unfold read_design_file in Hd.
  pose proof (readline_rest f) as Hr1.
  destruct (readline f) as [l1 f1] eqn:Hl1. simpl in Hr1.
  inv_bind Hd as counts Hcounts. inv_bind Hd as nn Hnn.
  pose proof (readline_rest f1) as Hr2.
  destruct (readline f1) as [l2 f2] eqn:Hl2. simpl in Hr2.
  inv_bind Hd as maxes Hmaxes. inv_bind Hd as mm Hmm.
  pose proof (readline_rest f2) as Hr3.
  destruct (readline f2) as [l3 f3]. simpl in Hr3.
  inv_bind Hd as vdegs Hvdegs. inv_bind Hd as vnode_deg Hvnode_deg.
  pose proof (readline_rest f3) as Hr4.
  destruct (readline f3) as [l4 f4]. simpl in Hr4.
  inv_bind Hd as cdegs Hcdegs. inv_bind Hd as cnode_deg Hcnode_deg.
  inv_bind Hd as cnode_adj0 Hc0. inv_bind Hd as vnode_adj0 Hv0.
  inv_bind Hd as vr Hvr. inv_bind Hd as cr Hcr. injection Hd as <-. simpl.
  split.
  - destruct f as [|a [|b f']]; simpl; try lia.
    + injection Hl1 as <- <-. vm_compute in Hcounts. discriminate.
    + injection Hl1 as <- <-. injection Hl2 as <- <-.
      vm_compute in Hmaxes. discriminate.
  - apply np_full2_Ok in Hc0 as (HnC & _ & _).
    apply np_full2_Ok in Hv0 as (HnV & _ & _).
    rewrite <- (Z2Nat.id nn.1) in Hvr by lia.
    rewrite <- (Z2Nat.id nn.2) in Hcr by lia.
    apply read_rows_consume in Hvr as (HleV & HrestV).
    apply read_rows_consume in Hcr as (HleC & _).
    simpl in HleV, HrestV, HleC. rewrite HrestV in HleC. rewrite length_drop in HleC.
    assert (Hf4 : f4 = drop 4 f).
    { subst f4 f3 f2 f1. rewrite !drop_drop. reflexivity. }
    rewrite <- Hf4. lia.
Qed.

(** ** From the lines of the file to the adjacency arrays *)

Lemma map_result_to_int64 l r : map_result to_int64 l = Ok r -> r = l.
Proof.
  revert r. induction l as [|x l IH]; intros r H; simpl in H.
  - injection H as <-. reflexivity.
  - inv_bind H as y Hy. inv_bind H as ys Hys. injection H as <-.
    apply to_int64_Ok in Hy. apply IH in Hys. congruence.
Qed.

Lemma map_result_minus_one l values :
  map_result (fun x => n ← py_int x; Ok (n - 1)) l = Ok values ->
  exists xs, map_result py_int l = Ok xs /\ values = (fun n => n - 1) <$> xs.
Proof.
  revert values. induction l as [|x l IH]; intros values H; simpl in H.
  - injection H as <-. exists []. auto.
  - inv_bind H as y Hy. inv_bind H as ys Hys. injection H as <-.
    inv_bind Hy as n Hn. injection Hy as <-.
    destruct (IH _ Hys) as (xs & Hxs & ->).
    exists (n :: xs). simpl. rewrite Hn. simpl. rewrite Hxs. auto.
Qed.

Lemma np_assign_prefix_exact row deg values row' :
  np_assign_prefix row deg values = Ok row' ->
  length values = prefix_len row deg ->
  forall (i : nat) x, values !! i = Some x -> row' !! i = Some x.
Proof.
  unfold np_assign_prefix. fold (prefix_len row deg). intros H Hlen i x Hx.
  destruct (decide (length values = prefix_len row deg)) as [_|Hne];
    [|contradiction].
  injection H as <-. rewrite lookup_app_l; [exact Hx|].
  eapply lookup_lt_Some. exact Hx.
Qed.

(** One row read: the line it came from and the row it became. *)
Lemma read_adj_row_inv deg_list idx acc acc' :
  0 <= idx ->
  read_adj_row deg_list idx acc = Ok acc' ->
  exists line rest xs deg row row',
    acc.2 = line :: rest /\
    map_result py_int (split_on "009" line) = Ok xs /\
    np_get deg_list idx = Ok deg /\
    acc.1 !! Z.to_nat idx = Some row /\
    np_assign_prefix row deg ((fun n => n - 1) <$> xs) = Ok row' /\
    acc'.1 = <[Z.to_nat idx := row']> acc.1.
Proof.
  intros Hidx H.
  destruct (read_adj_row_consumes _ _ _ _ H) as (Hne & _).
  unfold read_adj_row in H. destruct acc as [adj f]. simpl in *.
  destruct f as [|line rest]; [contradiction|]. simpl in H.
  inv_bind H as values Hvalues. inv_bind H as deg Hdeg.
  inv_bind H as row Hrow. inv_bind H as stored Hstored.
  inv_bind H as row' Hrow'. inv_bind H as adj' Hadj. injection H as <-.
  apply map_result_minus_one in Hvalues as (xs & Hxs & ->).
  apply map_result_to_int64 in Hstored. subst stored.
  apply np_get_nonneg in Hrow; [|exact Hidx].
  apply np_set_nonneg in Hadj as [-> _]; [|exact Hidx].
  exists line, rest, xs, deg, row, row'. auto 10.
Qed.

(** The rows read by the loop, each against its line. *)
Lemma read_rows_values deg_list (k : nat) acc0 acc :
  for_each (xrange (Z.of_nat k)) (read_adj_row deg_list) acc0 = Ok acc ->
  forall r : nat, (r < k)%nat ->
    exists line xs deg row0 row',
      acc0.2 !! r = Some line /\
      map_result py_int (split_on "009" line) = Ok xs /\
      np_get deg_list (Z.of_nat r) = Ok deg /\
      acc0.1 !! r = Some row0 /\
      np_assign_prefix row0 deg ((fun n => n - 1) <$> xs) = Ok row' /\
      acc.1 !! r = Some row'.
Proof.
  revert acc. induction k as [|k IH]; intros acc H r Hr; [lia|].
  rewrite xrange_succ, for_each_app in H. inv_bind H as acc1 Hacc1.
  simpl in H. inv_bind H as acc2 Hacc2. injection H as <-.
  destruct (read_rows_consume _ _ _ _ Hacc1) as (_ & Hrest).
  destruct (read_rows_spec _ _ _ _ Hacc1) as (Hlen & Hlater & _).
  apply read_adj_row_inv in Hacc2
    as (line & rest & xs & deg & row & row' & Hline & Hxs & Hdeg & Hrow
        & Hrow' & Heq); [|lia].
  rewrite Nat2Z.id in Hrow, Heq. rewrite Heq.
  destruct (decide (r = k)) as [->|Hne].
  - exists line, xs, deg, row, row'. repeat split; try assumption.
    + rewrite Hrest in Hline.
      pose proof (lookup_drop acc0.2 k 0) as Hd. rewrite Hline in Hd.
      simpl in Hd. rewrite Nat.add_0_r in Hd. congruence.
    + rewrite <- Hlater by lia. exact Hrow.
    + apply list_lookup_insert_eq. eapply lookup_lt_Some. exact Hrow.
  - destruct (IH _ Hacc1 r ltac:(lia))
      as (line' & xs' & deg' & row0 & rowr & H1 & H2 & H3 & H4 & H5 & H6).
    exists line', xs', deg', row0, rowr.
    rewrite list_lookup_insert_ne by lia. auto 10.
Qed.

Lemma side_rows_from_file deg_list n max_deg adj0 f0 acc (r : Z) :
  np_full2 n max_deg (-1) = Ok adj0 ->
  for_each (xrange n) (read_adj_row deg_list) (adj0, f0) = Ok acc ->
  0 <= r < n ->
  0 <= np_at 0 deg_list r <= max_deg ->
  exists line, f0 !! Z.to_nat r = Some line
    /\ row_from_line line (np_at 0 deg_list r) max_deg (flatten32 acc.1) r.
Proof.
  intros Hfull H Hr Hdeg.
  pose proof (read_rows_padded _ _ _ _ _ _ Hfull H) as Hpad.
  pose proof (padded_shape _ _ _ _ Hpad) as Hshape.
  apply np_full2_Ok in Hfull as (Hn & Hm & ->).
  rewrite <- (Z2Nat.id n) in H by exact Hn.
  destruct (read_rows_values _ _ _ _ H (Z.to_nat r) ltac:(lia))
    as (line & xs & deg & row0 & row' & Hline & Hxs & Hd & Hrow0 & Hrow' & Hacc).
  simpl in Hline, Hrow0. rewrite Z2Nat.id in Hd by lia.
  rewrite (np_at_Ok 0 _ _ _ Hd) in *.
  apply lookup_replicate_1 in Hrow0 as (-> & _).
  exists line. split; [exact Hline|]. exists xs. split; [exact Hxs|].
  intros Hlen i x Hx.
  apply (flatten32_get acc.1 max_deg r (Z.of_nat i) row' (x - 1));
    try assumption; try lia.
  rewrite Nat2Z.id. eapply np_assign_prefix_exact; [exact Hrow' | |].
  - rewrite length_fmap, Hlen. unfold prefix_len.
    rewrite length_replicate, Z2Nat.id by lia.
    rewrite slice_bound_inside by lia. reflexivity.
  - rewrite list_lookup_fmap, Hx. reflexivity.
Qed.

(** The adjacency arrays hold what the file says: after the four header
    lines come one line for each variable node, then one for each check
    node; line [4 + v] is the row of variable node [v] and line
    [4 + n_vnodes + c] the row of check node [c], each a tab-separated
    list of 1-based indices stored 0-based. *)
Theorem adjacency_rows_from_file (f : list string) (g : ldpc_code_params) :
  get_ldpc_code_params f = Ok g ->
  (forall v, 0 <= v < n_vnodes g ->
     0 <= vnode_deg g v <= max_vnode_deg g ->
     exists line, f !! (4 + Z.to_nat v)%nat = Some line
       /\ row_from_line line (vnode_deg g v) (max_vnode_deg g)
            (vnode_adj_list g) v)
  /\ (forall c, 0 <= c < n_cnodes g ->
        0 <= cnode_deg g c <= max_cnode_deg g ->
        exists line,
          f !! (4 + Z.to_nat (n_vnodes g) + Z.to_nat c)%nat = Some line
          /\ row_from_line line (cnode_deg g c) (max_cnode_deg g)
               (cnode_adj_list g) c).
Proof.
  intros Hget.
  apply get_ldpc_code_params_inv in Hget
    as (d & cvm0 & vcm0 & cvm & vcm & pmat & Hd & _ & _ & _ & _ & _ & ->).
  unfold vnode_deg, cnode_deg. simpl. unfold read_design_file in Hd.
  pose proof (readline_rest f) as Hr1.
  destruct (readline f) as [l1 f1]. simpl in Hr1.
  inv_bind Hd as counts Hcounts. inv_bind Hd as nn Hnn.
  pose proof (readline_rest f1) as Hr2.
  destruct (readline f1) as [l2 f2]. simpl in Hr2.
  inv_bind Hd as maxes Hmaxes. inv_bind Hd as mm Hmm.
  pose proof (readline_rest f2) as Hr3.
  destruct (readline f2) as [l3 f3]. simpl in Hr3.
  inv_bind Hd as vdegs Hvdegs. inv_bind Hd as vnode_deg Hvnode_deg.
  pose proof (readline_rest f3) as Hr4.
  destruct (readline f3) as [l4 f4]. simpl in Hr4.
  inv_bind Hd as cnode_degs Hcdegs. inv_bind Hd as cnode_deg Hcnode_deg.
  inv_bind Hd as cnode_adj0 Hc0. inv_bind Hd as vnode_adj0 Hv0.
  inv_bind Hd as vr Hvr. inv_bind Hd as cr Hcr. injection Hd as <-. simpl.
  assert (Hf4 : f4 = drop 4 f).
  { subst f4 f3 f2 f1. rewrite !drop_drop. reflexivity. }
  assert (Hvrest : vr.2 = drop (4 + Z.to_nat nn.1) f).
  { pose proof Hv0 as Hv0'. apply np_full2_Ok in Hv0' as (HnV & _ & _).
    pose proof Hvr as Hvr'. rewrite <- (Z2Nat.id nn.1) in Hvr' by lia.
    apply read_rows_consume in Hvr' as (_ & ->). simpl.
    rewrite Hf4, drop_drop. reflexivity. }
  split.
  - intros v Hv Hdeg.
    destruct (side_rows_from_file _ _ _ _ _ _ v Hv0 Hvr Hv Hdeg)
      as (line & Hline & Hrow).
    exists line. split; [|exact Hrow].
    rewrite Hf4, lookup_drop in Hline. exact Hline.
  - intros c Hc Hdeg. destruct vr as [vadj vrest]. simpl in *.
    destruct (side_rows_from_file _ _ _ _ _ _ c Hc0 Hcr Hc Hdeg)
      as (line & Hline & Hrow).
    exists line. split; [|exact Hrow].
    rewrite Hvrest, lookup_drop in Hline. exact Hline.
Qed.


(** ** The theorems on the graph builder, on the sample files *)

Lemma pair_file_read : read_design_file pair_file = Ok pair_design.
Proof. vm_compute. reflexivity. Qed.

Lemma pair_file_built : get_ldpc_code_params pair_file = Ok pair_code.
Proof. vm_compute. reflexivity. Qed.

Lemma wrap_file_built : get_ldpc_code_params wrap_file = Ok wrap_code.
Proof. vm_compute. reflexivity. Qed.

Lemma check_side_round_trip_witness : round_trip_from_check pair_code 0 1.
Proof.
  apply (check_side_round_trip pair_file pair_design).
  - exact pair_file_read.
  - exact pair_file_wf.
  - exact pair_file_built.
  - simpl. lia.
  - vm_compute. split; [discriminate | reflexivity].
Defined.

Lemma no_repeated_edge_witness :
  get_ldpc_code_params pair_file = Ok pair_code
  /\ np_get (cnode_adj_list pair_code) (0 * max_cnode_deg pair_code + 1)
     = np_get (cnode_adj_list pair_code) (0 * max_cnode_deg pair_code + 1)
  /\ 1 = 1.
Proof.
  split; [exact pair_file_built|]. split; [reflexivity|].
  apply (proj2 (no_repeated_edge pair_file pair_design pair_code
                  pair_file_read pair_file_wf pair_file_built) 0 1 1).
  - simpl. lia.
  - vm_compute. split; [discriminate | reflexivity].
  - vm_compute. split; [discriminate | reflexivity].
  - reflexivity.
Defined.

Lemma built_graph_decodes_in_bounds_witness :
  ldpc_bp_decode tanh_standin arctanh_standin [0%float; 0%float] pair_code 1
    = Raise ValueError
  /\ (ValueError = ValueError \/ ValueError = OverflowError).
Proof.
  assert (H : ldpc_bp_decode tanh_standin arctanh_standin
                [0%float; 0%float] pair_code 1 = Raise ValueError)
    by (vm_compute; reflexivity).
  split; [exact H|].
  apply (built_graph_decodes_in_bounds tanh_standin arctanh_standin
           pair_file pair_design pair_code [0%float; 0%float] 1 ValueError).
  - exact pair_file_read.
  - exact pair_file_wf.
  - exact pair_file_built.
  - simpl. lia.
  - exact H.
Defined.

Lemma built_arrays_sized_witness :
  Z.of_nat (length (cnode_adj_list pair_code))
  = n_cnodes pair_code * max_cnode_deg pair_code.
Proof.
  apply (built_arrays_sized pair_file pair_code). exact pair_file_built.
Defined.

Lemma unused_slots_hold_sentinel_witness :
  np_get (vnode_adj_list wrap_code) (1 * max_vnode_deg wrap_code + 1) = Ok (-1)
  /\ np_get (vnode_cnode_map wrap_code) (1 * max_vnode_deg wrap_code + 1)
     = Ok (-1).
Proof.
  apply (proj1 (unused_slots_hold_sentinel wrap_file wrap_code wrap_file_built)).
  - simpl. lia.
  - vm_compute. discriminate.
  - vm_compute. split; [discriminate | reflexivity].
Defined.

Lemma check_rows_index_matrix_witness :
  - n_vnodes pair_code <= 1 < n_vnodes pair_code.
Proof.
  apply (check_rows_index_matrix pair_file pair_code 1%nat 1).
  - exact pair_file_built.
  - simpl. lia.
  - reflexivity.
Defined.

Lemma truncated_file_refused_witness :
  (2 <= length pair_file)%nat
  /\ n_vnodes pair_code + n_cnodes pair_code
     <= Z.of_nat (length (drop 4 pair_file)).
Proof.
  apply (truncated_file_refused pair_file pair_code). exact pair_file_built.
Defined.

Lemma adjacency_rows_from_file_witness :
  exists line,
    pair_file !! (4 + Z.to_nat (n_vnodes pair_code) + Z.to_nat 0)%nat = Some line
    /\ row_from_line line (cnode_deg pair_code 0) (max_cnode_deg pair_code)
         (cnode_adj_list pair_code) 0.
Proof.
  apply (proj2 (adjacency_rows_from_file pair_file pair_code pair_file_built) 0).
  - simpl. lia.
  - vm_compute. split; discriminate.
Defined.
